(** * Browser-Agent: the orchestration graph, its self-healing node and the
      evaluation metrics, embedded from the TypeScript sources.

    Layout of the development:
    - [JS]       the JavaScript built-ins the sources rely on (indexing,
                 [slice], [toLowerCase], [includes], [split], JSON values and
                 [JSON.stringify]);
    - the data model of [src/types/index.ts];
    - [State]    the channels and reducers of [src/agent/state.ts];
    - [World]    what one node activation learns from its collaborators;
    - [Nodes]    the executors ([navigate], [click], [fill], [extract]) and
                 the [heal] node;
    - [Graph]    the nodes and conditional edges of [src/agent/graph.ts] with a
                 driver that runs them against a scripted environment;
    - [Double]   the numbers of JavaScript, IEEE 754 binary64, with round to
                 nearest, ties to even;
    - [Metrics]  [calculatePassAtK] and [estimatePassAtK];
    - [Graders]  [gradeResult] and its helpers;
    - the vocabulary of the properties, then the properties.

    Conventions.  JavaScript numbers that count things (cursor, retry
    counter and its ceiling, durations in ms, list lengths) are integers and
    modelled by [Z].  The arithmetic of [estimatePassAtK] is the arithmetic
    of the code: every subtraction, division and multiplication is rounded
    to the nearest double ([Double]), and the loop counter is a double as
    well.  Strings are sequences of code units, ASCII in the examples;
    lower-casing is the host's in the graders.
    Everything a node learns from the browser, the language
    model or the clock is read from a [World] record supplied by the
    environment for that activation; the body of an executor's [try] block
    talks to those collaborators only, and the model takes its outcome
    (completes or throws) from the world.  A node runs, its delta is reduced
    into the state, and the edge leaving the node is decided on the reduced
    state.  The bound the graph library puts on the number of supersteps of
    one [invoke] is not modelled. *)

From Stdlib Require Import ZArith QArith Qround List String Ascii Bool Lia Lqa.
From Stdlib Require Import DecimalString SpecFloat.
Import ListNotations.

Local Open Scope string_scope.
Local Open Scope list_scope.
Local Open Scope Z_scope.

(** String concatenation, kept apart from list append. *)
Local Infix "+++" := String.append (right associativity, at level 60).

(* ------------------------------------------------------------------------ *)
(** ** JavaScript built-ins *)

Module JS.

(** [xs[i]] for an integer [i]: [undefined] (here [None]) out of range. *)
Definition index {A : Type} (xs : list A) (i : Z) : option A :=
  if i <? 0 then None else nth_error xs (Z.to_nat i).

(** [xs.length]. *)
Definition length {A : Type} (xs : list A) : Z := Z.of_nat (List.length xs).

(** [xs.slice(0, k)]: a negative [k] counts from the end of the array, and
    the end is clamped to the array. *)
Definition slice0 {A : Type} (xs : list A) (k : Z) : list A :=
  let len := length xs in
  let stop := if k <? 0 then Z.max (len + k) 0 else Z.min k len in
  firstn (Z.to_nat stop) xs.

(** [xs.some(p)]. *)
Definition some {A : Type} (p : A -> bool) (xs : list A) : bool := existsb p xs.

(** Truthiness of an optional string: [undefined] and [''] are falsy. *)
Definition truthy (s : option string) : bool :=
  match s with
  | Some (String _ _) => true
  | _ => false
  end.

(** [s ?? d]. *)
Definition orElse {A : Type} (s : option A) (d : A) : A :=
  match s with Some v => v | None => d end.

Definition lowerChar (c : ascii) : ascii :=
  let n := nat_of_ascii c in
  if ((65 <=? n) && (n <=? 90))%nat then ascii_of_nat (n + 32) else c.

(** [s.toLowerCase()] as far as the letters A to Z go.  The click
    executor looks in the result for the words search, button, icon and
    magnifying only; outside A to Z the only characters whose lower-case
    form holds an ASCII letter are the Kelvin sign (k) and the dotted
    capital I (i followed by a combining dot), and neither can take part
    in an occurrence of those words.  The graders take the function from
    the host. *)
Fixpoint toLowerCase (s : string) : string :=
  match s with
  | EmptyString => EmptyString
  | String c r => String (lowerChar c) (toLowerCase r)
  end.

(** [s.includes(sub)]. *)
Fixpoint includes (s sub : string) : bool :=
  String.prefix sub s ||
  match s with
  | EmptyString => false
  | String _ r => includes r sub
  end.

(** [s.slice(0, n)] for a non-negative [n]. *)
Definition take (n : Z) (s : string) : string := String.substring 0 (Z.to_nat n) s.

(** [s.split('.')]: the pieces between the dots; never empty. *)
Fixpoint splitDots (s : string) : list string :=
  match s with
  | EmptyString => [EmptyString]
  | String c r =>
      if Ascii.eqb c "."%char then EmptyString :: splitDots r
      else match splitDots r with
           | [] => [String c EmptyString]
           | p :: ps => String c p :: ps
           end
  end.

(** Decimal rendering of integers, as [String(n)] does for them. *)
Definition ofNat (n : nat) : string := NilZero.string_of_uint (Nat.to_uint n).
Definition ofZ (n : Z) : string := NilZero.string_of_int (Z.to_int n).

(** Values produced by [JSON.parse].  A number is carried by the text
    that [JSON.stringify] prints for it, which is all the code asks of a
    number.  An object is the list of its own properties, with distinct
    keys, in insertion order (the engine's reordering of integer-like keys
    is not modelled). *)
#[warnings="-register-all"]
Inductive JSON : Type :=
| JNull
| JBool (b : bool)
| JNum (text : string)
| JStr (s : string)
| JArr (items : list JSON)
| JObj (props : list (string * JSON)).

Definition Obj : Type := list (string * JSON).

(** Own-property lookup [o[key]] on an object. *)
Fixpoint getProp (o : Obj) (key : string) : option JSON :=
  match o with
  | [] => None
  | (k, v) :: r => if String.eqb k key then Some v else getProp r key
  end.

(** The own element [items[key]] of an array for a string key: the
    element whose index prints as [key]. *)
Fixpoint getItem (items : list JSON) (i : nat) (key : string) : option JSON :=
  match items with
  | [] => None
  | v :: r => if String.eqb (ofNat i) key then Some v else getItem r (S i) key
  end.

Definition hexDigit (n : nat) : ascii :=
  if (n <? 10)%nat then ascii_of_nat (48 + n) else ascii_of_nat (87 + n).

(** The escape of one code unit inside a JSON string literal. *)
Definition escapeChar (c : ascii) : string :=
  let n := nat_of_ascii c in
  if (n =? 34)%nat then String "\"%char (String c EmptyString)
  else if (n =? 92)%nat then "\\"
  else if (n =? 8)%nat then "\b"
  else if (n =? 12)%nat then "\f"
  else if (n =? 10)%nat then "\n"
  else if (n =? 13)%nat then "\r"
  else if (n =? 9)%nat then "\t"
  else if (n <? 32)%nat then
    "\u00" +++ String (hexDigit (n / 16)) (String (hexDigit (n mod 16)) EmptyString)
  else String c EmptyString.

Fixpoint escape (s : string) : string :=
  match s with
  | EmptyString => EmptyString
  | String c r => escapeChar c +++ escape r
  end.

Definition quote (s : string) : string :=
  String (ascii_of_nat 34) (escape s +++ String (ascii_of_nat 34) EmptyString).

(** [JSON.stringify(v)] without indentation. *)
Fixpoint stringify (v : JSON) : string :=
  match v with
  | JNull => "null"
  | JBool true => "true"
  | JBool false => "false"
  | JNum text => text
  | JStr s => quote s
  | JArr items =>
      "[" +++
      (fix elems (l : list JSON) : string :=
         match l with
         | [] => EmptyString
         | x :: r =>
             match r with
             | [] => stringify x
             | _ :: _ => stringify x +++ "," +++ elems r
             end
         end) items +++ "]"
  | JObj props =>
      "{" +++
      (fix members (l : list (string * JSON)) : string :=
         match l with
         | [] => EmptyString
         | (k, x) :: r =>
             match r with
             | [] => quote k +++ ":" +++ stringify x
             | _ :: _ => quote k +++ ":" +++ stringify x +++ "," +++ members r
             end
         end) props +++ "}"
  end.

(** [o[key] = v] on an object: overwrite in place or append. *)
Fixpoint setProp (o : Obj) (key : string) (v : JSON) : Obj :=
  match o with
  | [] => [(key, v)]
  | (k, x) :: r =>
      if String.eqb k key then (k, v) :: r else (k, x) :: setProp r key v
  end.

(** [{ ...prev, ...next }]: later keys overwrite earlier ones. *)
Definition spread (prev next : Obj) : Obj :=
  fold_left (fun acc kv => setProp acc (fst kv) (snd kv)) next prev.

Fixpoint indexed (items : list JSON) (i : nat) : Obj :=
  match items with
  | [] => []
  | v :: r => (ofNat i, v) :: indexed r (S i)
  end.

Fixpoint chars (s : string) : list JSON :=
  match s with
  | EmptyString => []
  | String c r => JStr (String c EmptyString) :: chars r
  end.

(** The own enumerable properties that [{ ...v }] copies out of a value. *)
Definition ownProps (v : JSON) : Obj :=
  match v with
  | JObj o => o
  | JArr items => indexed items 0
  | JStr s => indexed (chars s) 0
  | _ => []
  end.

(** [Object.keys(o).length]. *)
Definition keyCount (o : Obj) : Z := length o.

End JS.


(* ------------------------------------------------------------------------ *)
(** ** Data model ([src/types/index.ts]) *)

(** [ActionTypeSchema]; the planner's output is parsed without validation,
    so any other string can occur as well. *)
Inductive ActionType : Type :=
| Navigate | Click | Fill | Extract | Wait | Screenshot
| Unlisted (name : string).

Module Action.
Record t : Type := mk {
  type : ActionType;
  target : option string;
  value : option string;
  timeout : option Z
}.

(** [{ ...action, target: selector }]. *)
Definition withTarget (a : t) (selector : string) : t :=
  mk (type a) (Some selector) (value a) (timeout a).
End Action.

Module StepResult.
Record t : Type := mk {
  action : Action.t;
  success : bool;
  error : option string;
  duration : Z;
  screenshot : option string;
  healingUsed : bool
}.
End StepResult.

Module HealingAttempt.
Record t : Type := mk {
  attemptNumber : Z;
  originalError : string;
  strategy : string;
  elementFound : bool;
  newSelector : option string;
  screenshot : string;
  timestamp : Z
}.
End HealingAttempt.

Module TaskResult.
Record t : Type := mk {
  success : bool;
  data : option JS.Obj;
  steps : list StepResult.t;
  healingAttempts : list HealingAttempt.t;
  duration : Z;
  screenshots : list string
}.
End TaskResult.

Module DetectedElement.
Record t : Type := mk {
  selector : string;
  confidence : Q
}.
End DetectedElement.

Inductive Backoff : Type := Linear | Exponential.

Module HealingConfig.
(** [HealingConfigSchema]: [maxRetries] is validated to lie in 1..10. *)
Record t : Type := mk {
  enabled : bool;
  maxRetries : Z;
  backoff : Backoff;
  baseDelayMs : Z
}.

Definition valid (c : t) : Prop := 1 <= maxRetries c <= 10.
End HealingConfig.

(* ------------------------------------------------------------------------ *)
(** ** The state channels and their reducers ([src/agent/state.ts]) *)

Module State.

Record t : Type := mk {
  task : string;
  currentStep : Z;
  totalSteps : Z;
  url : string;
  pageTitle : string;
  pageContent : string;
  screenshot : string;
  actions : list Action.t;
  results : list StepResult.t;
  lastError : option string;
  healingAttempts : Z;
  healingHistory : list HealingAttempt.t;
  currentAction : option Action.t;
  extractedData : JS.Obj;
  finalResult : option TaskResult.t;
  needsHealing : bool;
  isComplete : bool;
  failedSteps : Z;
  healingExhausted : bool
}.

(** The [default] of every channel. *)
Definition default : t :=
  {| task := EmptyString; currentStep := 0; totalSteps := 0;
     url := EmptyString; pageTitle := EmptyString;
     pageContent := EmptyString; screenshot := EmptyString;
     actions := []; results := []; lastError := None;
     healingAttempts := 0; healingHistory := []; currentAction := None;
     extractedData := []; finalResult := None; needsHealing := false;
     isComplete := false; failedSteps := 0; healingExhausted := false |}.

(** One key of the object a node returns. *)
Inductive Write : Type :=
| Task (v : string)
| CurrentStep (v : Z)
| TotalSteps (v : Z)
| Url (v : string)
| PageTitle (v : string)
| PageContent (v : string)
| Screenshot (v : string)
| Actions (v : list Action.t)
| Results (v : list StepResult.t)
| LastError (v : option string)
| HealingAttempts (v : Z)
| HealingHistory (v : list HealingAttempt.t)
| CurrentAction (v : option Action.t)
| ExtractedData (v : JS.Obj)
| FinalResult (v : option TaskResult.t)
| NeedsHealing (v : bool)
| IsComplete (v : bool)
| FailedSteps (v : Z)
| HealingExhausted (v : bool).

(** The state delta a node returns: an object literal, key by key. *)
Definition Delta : Type := list Write.

(** [reducer: (_, next) => next]. *)
Definition replaced {A : Type} (sel : Write -> option A) (d : Delta) (prev : A) : A :=
  fold_left (fun acc w => match sel w with Some v => v | None => acc end) d prev.

(** [reducer: (prev, next) => [...prev, ...next]]. *)
Definition appended {A : Type} (sel : Write -> option (list A)) (d : Delta)
    (prev : list A) : list A :=
  fold_left (fun acc w => match sel w with Some v => acc ++ v | None => acc end) d prev.

(** [reducer: (prev, next) => ({ ...prev, ...next })]. *)
Definition merged (sel : Write -> option JS.Obj) (d : Delta) (prev : JS.Obj) : JS.Obj :=
  fold_left (fun acc w => match sel w with Some v => JS.spread acc v | None => acc end) d prev.

(** Applying a delta channel by channel. *)
Definition apply (s : t) (d : Delta) : t :=
  {| task := replaced (fun w => match w with Task v => Some v | _ => None end) d (task s);
     currentStep := replaced (fun w => match w with CurrentStep v => Some v | _ => None end) d (currentStep s);
     totalSteps := replaced (fun w => match w with TotalSteps v => Some v | _ => None end) d (totalSteps s);
     url := replaced (fun w => match w with Url v => Some v | _ => None end) d (url s);
     pageTitle := replaced (fun w => match w with PageTitle v => Some v | _ => None end) d (pageTitle s);
     pageContent := replaced (fun w => match w with PageContent v => Some v | _ => None end) d (pageContent s);
     screenshot := replaced (fun w => match w with Screenshot v => Some v | _ => None end) d (screenshot s);
     actions := appended (fun w => match w with Actions v => Some v | _ => None end) d (actions s);
     results := appended (fun w => match w with Results v => Some v | _ => None end) d (results s);
     lastError := replaced (fun w => match w with LastError v => Some v | _ => None end) d (lastError s);
     healingAttempts := replaced (fun w => match w with HealingAttempts v => Some v | _ => None end) d (healingAttempts s);
     healingHistory := appended (fun w => match w with HealingHistory v => Some v | _ => None end) d (healingHistory s);
     currentAction := replaced (fun w => match w with CurrentAction v => Some v | _ => None end) d (currentAction s);
     extractedData := merged (fun w => match w with ExtractedData v => Some v | _ => None end) d (extractedData s);
     finalResult := replaced (fun w => match w with FinalResult v => Some v | _ => None end) d (finalResult s);
     needsHealing := replaced (fun w => match w with NeedsHealing v => Some v | _ => None end) d (needsHealing s);
     isComplete := replaced (fun w => match w with IsComplete v => Some v | _ => None end) d (isComplete s);
     failedSteps := replaced (fun w => match w with FailedSteps v => Some v | _ => None end) d (failedSteps s);
     healingExhausted := replaced (fun w => match w with HealingExhausted v => Some v | _ => None end) d (healingExhausted s) |}.

End State.

(* ------------------------------------------------------------------------ *)
(** ** What a node activation learns from its collaborators *)

Module World.

(** How the [try] block of an executor ends. *)
Inductive Body : Type :=
| Passes
| Throws (error : string).

(** One [captureScreenshot] followed by one [vision.findElement]. *)
Record Look : Type := look {
  shot : string;
  found : option DetectedElement.t
}.

Record t : Type := mk {
  planTask : option (list Action.t);  (* the planner's answer; [None]: it throws *)
  escapes : bool;       (* a rejection outside the node's [try], or inside its [catch] *)
  body : Body;          (* outcome of an executor's [try] block *)
  elapsed : Z;          (* [Date.now() - startTime] *)
  capture : string;     (* [captureScreenshot(page)] *)
  getUrl : string;
  getPageTitle : string;
  getPageContent : string;
  completion : string;             (* the text answered by [completeWithImage] *)
  parsed : option JS.JSON;         (* [JSON.parse] of that text; [None]: it throws *)
  ladderThrows : bool;             (* the [try] block of the heal node throws *)
  vision : Look;                   (* first look, with the enriched prompt *)
  scrolled : Look;                 (* after scrolling by 300 *)
  waited : Look;                   (* after waiting 2000 ms *)
  now : Z                          (* [new Date()] *)
}.

(** A world in which nothing fails and nothing is found. *)
Definition calm : t :=
  {| planTask := Some []; escapes := false; body := Passes; elapsed := 0;
     capture := "png"; getUrl := "about:blank"; getPageTitle := EmptyString;
     getPageContent := EmptyString; completion := "{}"; parsed := Some (JS.JObj []);
     ladderThrows := false;
     vision := look "png" None; scrolled := look "png" None;
     waited := look "png" None; now := 0 |}.

Definition planning (acts : list Action.t) : t :=
  mk (Some acts) false Passes 0 "png" "about:blank" EmptyString EmptyString
     "{}" (Some (JS.JObj [])) false (look "png" None) (look "png" None)
     (look "png" None) 0.

(** The executor's [try] block throws [error]. *)
Definition failing (error : string) : t :=
  mk (Some []) false (Throws error) 0 "png" "about:blank" EmptyString EmptyString
     "{}" (Some (JS.JObj [])) false (look "png" None) (look "png" None)
     (look "png" None) 0.

(** The language model answers with the JSON value [v]. *)
Definition answering (v : JS.JSON) : t :=
  mk (Some []) false Passes 0 "png" "about:blank" EmptyString EmptyString
     (JS.stringify v) (Some v) false (look "png" None) (look "png" None)
     (look "png" None) 0.

(** The first look of the heal node finds [d]. *)
Definition seeing (d : DetectedElement.t) : t :=
  mk (Some []) false Passes 0 "png" "about:blank" EmptyString EmptyString
     "{}" (Some (JS.JObj [])) false (look "png" (Some d)) (look "png" None)
     (look "png" None) 0.

End World.

(* ------------------------------------------------------------------------ *)
(** ** Executors and the heal node ([src/agent/nodes/]) *)

Module Nodes.
Import State.

(** [d && d.confidence > 0.6]. *)
Definition accepted (d : option DetectedElement.t) : option DetectedElement.t :=
  match d with
  | Some e => if Qle_bool (DetectedElement.confidence e) (6 # 10) then None else Some e
  | None => None
  end.

(** The common guard [!action || action.type !== T || !action.target]:
    the action to execute, when there is one. *)
Definition guarded (same : ActionType -> bool) (s : State.t) : option Action.t :=
  match currentAction s with
  | Some a => if same (Action.type a) && JS.truthy (Action.target a) then Some a else None
  | None => None
  end.

Definition isNavigate (t : ActionType) : bool := match t with Navigate => true | _ => false end.
Definition isClick (t : ActionType) : bool := match t with Click => true | _ => false end.
Definition isFill (t : ActionType) : bool := match t with Fill => true | _ => false end.
Definition isExtract (t : ActionType) : bool := match t with Extract => true | _ => false end.

(** A node returns its delta, or [None] when its promise rejects. *)
Definition Outcome : Type := option Delta.

Definition navigateNode (w : World.t) (s : State.t) : Outcome :=
  match guarded isNavigate s with
  | None => Some [NeedsHealing false]
  | Some action =>
      match World.body w with
      | World.Passes =>
          Some [ Url (World.getUrl w);
                 PageTitle (World.getPageTitle w);
                 PageContent (JS.take 10000 (World.getPageContent w));
                 Screenshot (World.capture w);
                 NeedsHealing false;
                 Results [ StepResult.mk action true None (World.elapsed w)
                             (Some (World.capture w)) false ] ]
      | World.Throws error =>
          Some [ LastError (Some error);
                 NeedsHealing true;
                 Results [ StepResult.mk action false (Some error) (World.elapsed w)
                             None false ] ]
      end
  end.

(** The click on a search control that the preceding fill made redundant. *)
Definition isSearchButtonClick (target : string) : bool :=
  let t := JS.toLowerCase target in
  JS.includes t "search" &&
  (JS.includes t "button" || JS.includes t "icon" || JS.includes t "magnifying").

Definition alreadySearched (currentUrl : string) : bool :=
  JS.includes currentUrl "/wiki/" || JS.includes currentUrl "search?" ||
  JS.includes currentUrl "/search/" || JS.includes currentUrl "?q=" ||
  JS.includes currentUrl "?search=".

Definition clickNode (w : World.t) (s : State.t) : Outcome :=
  match guarded isClick s with
  | None => Some [NeedsHealing false]
  | Some action =>
      if World.escapes w then None
      else if isSearchButtonClick (JS.orElse (Action.target action) EmptyString)
              && alreadySearched (World.getUrl w)
      then
        Some [ Screenshot (World.capture w);
               NeedsHealing false;
               Results [ StepResult.mk action true None (World.elapsed w)
                           (Some (World.capture w)) false ] ]
      else
        match World.body w with
        | World.Passes =>
            Some [ Screenshot (World.capture w);
                   PageContent (JS.take 10000 (World.getPageContent w));
                   NeedsHealing false;
                   Results [ StepResult.mk action true None (World.elapsed w)
                               (Some (World.capture w)) (0 <? healingAttempts s) ] ]
        | World.Throws error =>
            Some [ Screenshot (World.capture w);
                   LastError (Some error);
                   NeedsHealing true;
                   HealingAttempts (healingAttempts s + 1);
                   Results [ StepResult.mk action false (Some error) (World.elapsed w)
                               (Some (World.capture w)) (0 <? healingAttempts s) ] ]
        end
  end.

Definition fillNode (w : World.t) (s : State.t) : Outcome :=
  match guarded isFill s with
  | None => Some [NeedsHealing false]
  | Some action =>
      if World.escapes w then None
      else
        match World.body w with
        | World.Passes =>
            Some [ Screenshot (World.capture w);
                   NeedsHealing false;
                   Results [ StepResult.mk action true None (World.elapsed w)
                               (Some (World.capture w)) (0 <? healingAttempts s) ] ]
        | World.Throws error =>
            Some [ Screenshot (World.capture w);
                   LastError (Some error);
                   NeedsHealing true;
                   HealingAttempts (healingAttempts s + 1);
                   Results [ StepResult.mk action false (Some error) (World.elapsed w)
                               (Some (World.capture w)) (0 <? healingAttempts s) ] ]
        end
  end.

(** The value the extract node ends up with: the parsed answer, or the
    answer wrapped as [{ raw: response }] when parsing throws. *)
Definition extractedValue (w : World.t) : JS.JSON :=
  match World.parsed w with
  | Some v => v
  | None => JS.JObj [("raw", JS.JStr (World.completion w))]
  end.

Definition extractNode (w : World.t) (s : State.t) : Outcome :=
  match guarded isExtract s with
  | None => Some [NeedsHealing false]
  | Some action =>
      if World.escapes w then None
      else
        let failure (error : string) : Outcome :=
          Some [ Screenshot (World.capture w);
                 LastError (Some error);
                 NeedsHealing true;
                 Results [ StepResult.mk action false (Some error) (World.elapsed w)
                             (Some (World.capture w)) false ] ] in
        match World.body w with
        | World.Throws error => failure error
        | World.Passes =>
            match extractedValue w with
            | JS.JNull =>
                (* [Object.keys(null)] in the log call throws inside the [try] *)
                failure "TypeError: Cannot convert undefined or null to object"
            | v =>
                Some [ Screenshot (World.capture w);
                       ExtractedData (JS.ownProps v);
                       NeedsHealing false;
                       Results [ StepResult.mk action true None (World.elapsed w)
                                   (Some (World.capture w)) false ] ]
            end
        end
  end.

(** The delay the heal node sleeps before looking at the page. *)
Definition backoffDelay (cfg : HealingConfig.t) (attempts : Z) : Z :=
  match HealingConfig.backoff cfg with
  | Exponential => HealingConfig.baseDelayMs cfg * 2 ^ attempts
  | Linear => HealingConfig.baseDelayMs cfg * (attempts + 1)
  end.

(** The delta of a healing cycle that found [d] on screenshot [shot]. *)
Definition repaired (s : State.t) (action : Action.t) (strategy shot : string)
    (d : DetectedElement.t) (now : Z) : Delta :=
  [ CurrentAction (Some (Action.withTarget action (DetectedElement.selector d)));
    Screenshot shot;
    NeedsHealing true;
    HealingAttempts (healingAttempts s + 1);
    HealingHistory
      [ HealingAttempt.mk (healingAttempts s + 1)
          (JS.orElse (lastError s) "Unknown error") strategy true
          (Some (DetectedElement.selector d)) shot now ] ].

Definition healNode (cfg : HealingConfig.t) (w : World.t) (s : State.t) : Outcome :=
  if HealingConfig.maxRetries cfg <=? healingAttempts s then
    Some [ NeedsHealing false;
           HealingExhausted true;
           HealingHistory
             [ HealingAttempt.mk (healingAttempts s)
                 (JS.orElse (lastError s) "Unknown error") "exhausted" false
                 None (screenshot s) (World.now w) ] ]
  else
    match currentAction s with
    | None => Some [NeedsHealing false]
    | Some action =>
        if negb (JS.truthy (Action.target action)) then Some [NeedsHealing false]
        else if World.escapes w then None
        else if World.ladderThrows w then
          Some [ NeedsHealing true;
                 HealingAttempts (healingAttempts s + 1);
                 HealingHistory
                   [ HealingAttempt.mk (healingAttempts s + 1)
                       (JS.orElse (lastError s) "Unknown error") "error" false
                       None (screenshot s) (World.now w) ] ]
        else
          match accepted (World.found (World.vision w)) with
          | Some d =>
              Some (repaired s action "vision-redetection"
                      (World.shot (World.vision w)) d (World.now w))
          | None =>
          match accepted (World.found (World.scrolled w)) with
          | Some d =>
              Some (repaired s action "scroll-and-detect"
                      (World.shot (World.scrolled w)) d (World.now w))
          | None =>
          match accepted (World.found (World.waited w)) with
          | Some d =>
              Some (repaired s action "wait-and-detect"
                      (World.shot (World.waited w)) d (World.now w))
          | None =>
              Some [ Screenshot (World.shot (World.vision w));
                     NeedsHealing true;
                     HealingAttempts (healingAttempts s + 1);
                     HealingHistory
                       [ HealingAttempt.mk (healingAttempts s + 1)
                           (JS.orElse (lastError s) "Unknown error")
                           "all-strategies-failed" false None
                           (World.shot (World.vision w)) (World.now w) ] ]
          end end end
    end.

End Nodes.

(* ------------------------------------------------------------------------ *)
(** ** The graph ([src/agent/graph.ts]) *)

Module Node.
(** The nodes added to the graph, [END], and [REJECTED] for a run whose
    [graph.invoke] promise rejected because a node threw. *)
Inductive t : Type :=
| plan | router | navigate | click | fill | extract | heal | success | finalize
| END | REJECTED.

Definition isExecutor (n : t) : bool :=
  match n with
  | navigate | click | fill | extract => true
  | _ => false
  end.
End Node.

Module Graph.
Import State.

(** The part of [AgentContext] the graph itself reads. *)
Definition AgentContext : Type := HealingConfig.t.

Definition planNode (w : World.t) (s : State.t) : Nodes.Outcome :=
  match World.planTask w with
  | None => None
  | Some acts =>
      Some [ Actions acts; TotalSteps (JS.length acts); CurrentStep 0 ]
  end.

Definition routerNode (s : State.t) : Delta :=
  if totalSteps s <=? currentStep s then [IsComplete true]
  else [ CurrentAction (JS.index (actions s) (currentStep s));
         NeedsHealing false ].

Definition successNode (s : State.t) : Delta :=
  [ CurrentStep (currentStep s + 1); HealingAttempts 0; NeedsHealing false ].

(** [lastResult?.success ?? false]. *)
Definition lastStepSucceeded (s : State.t) : bool :=
  match JS.index (results s) (JS.length (results s) - 1) with
  | Some r => StepResult.success r
  | None => false
  end.

(** [state.results.map((r) => r.screenshot).filter((s) => !!s)]. *)
Definition keptScreenshots (rs : list StepResult.t) : list string :=
  flat_map (fun r => match StepResult.screenshot r with
                     | Some sh => if JS.truthy (Some sh) then [sh] else []
                     | None => []
                     end) rs.

Definition finalResultOf (s : State.t) : TaskResult.t :=
  let completedSteps := currentStep s in
  let plannedSteps := totalSteps s in
  let success :=
    (plannedSteps <=? completedSteps) ||
    (lastStepSucceeded s && (0 <? JS.keyCount (extractedData s))) in
  let totalDuration :=
    fold_left (fun sum r => sum + StepResult.duration r) (results s) 0 in
  TaskResult.mk success (Some (extractedData s)) (results s) (healingHistory s)
    totalDuration (keptScreenshots (results s)).

Definition finalizeNode (s : State.t) : Delta :=
  [ FinalResult (Some (finalResultOf s)) ].

(** The conditional edge leaving [router]. *)
Definition afterRouter (s : State.t) : Node.t :=
  if isComplete s then Node.finalize
  else match currentAction s with
       | None => Node.finalize
       | Some action =>
           match Action.type action with
           | Navigate => Node.navigate
           | Click => Node.click
           | Fill => Node.fill
           | Extract => Node.extract
           | _ => Node.success
           end
       end.

(** The conditional edge leaving each executor. *)
Definition afterExecutor (s : State.t) : Node.t :=
  if needsHealing s then Node.heal else Node.success.

(** The conditional edge leaving [heal]. *)
Definition afterHeal (context : AgentContext) (s : State.t) : Node.t :=
  if (HealingConfig.maxRetries context <=? healingAttempts s) || negb (needsHealing s)
  then Node.success
  else match currentAction s with
       | None => Node.success
       | Some action =>
           match Action.type action with
           | Click => Node.click
           | Fill => Node.fill
           | _ => Node.success
           end
       end.

(** What the node [n] returns on state [s] in world [w]. *)
Definition activate (context : AgentContext) (n : Node.t) (w : World.t)
    (s : State.t) : Nodes.Outcome :=
  match n with
  | Node.plan => planNode w s
  | Node.router => Some (routerNode s)
  | Node.navigate => Nodes.navigateNode w s
  | Node.click => Nodes.clickNode w s
  | Node.fill => Nodes.fillNode w s
  | Node.extract => Nodes.extractNode w s
  | Node.heal => Nodes.healNode context w s
  | Node.success => Some (successNode s)
  | Node.finalize => Some (finalizeNode s)
  | Node.END | Node.REJECTED => Some []
  end.

(** The edge followed out of [n], decided on the state after the node's
    delta has been reduced into it. *)
Definition edge (context : AgentContext) (n : Node.t) (s : State.t) : Node.t :=
  match n with
  | Node.plan => Node.router
  | Node.router => afterRouter s
  | Node.navigate | Node.click | Node.fill | Node.extract => afterExecutor s
  | Node.heal => afterHeal context s
  | Node.success => Node.router
  | Node.finalize => Node.END
  | Node.END => Node.END
  | Node.REJECTED => Node.REJECTED
  end.

(** A configuration of a run: the node about to run and the state. *)
Definition Config : Type := (Node.t * State.t)%type.

(** One superstep. *)
Definition step (context : AgentContext) (w : World.t) (c : Config) : Config :=
  let '(n, s) := c in
  match activate context n w s with
  | None => (Node.REJECTED, s)
  | Some delta =>
      let s' := State.apply s delta in
      (edge context n s', s')
  end.

(** Supersteps against a scripted environment, one world per activation. *)
Definition run (context : AgentContext) (ws : list World.t) (c : Config) : Config :=
  fold_left (fun c w => step context w c) ws c.

(** [graph.invoke({ task })]: every other channel starts at its default
    and the first node is [plan]. *)
Definition start (task : string) : Config :=
  (Node.plan, State.apply State.default [Task task]).

Definition invoke (context : AgentContext) (task : string) (ws : list World.t) : Config :=
  run context ws (start task).

(** The configurations some run can be in. *)
Definition reachable (context : AgentContext) (c : Config) : Prop :=
  exists task ws, invoke context task ws = c.

(** [agent.run(task)]: the [finalResult] channel once the graph has ended. *)
Definition runResult (c : Config) : option TaskResult.t :=
  match fst c with
  | Node.END => finalResult (snd c)
  | _ => None
  end.

End Graph.

(* ------------------------------------------------------------------------ *)
(** ** Numbers (IEEE 754 binary64) *)

Module Double.

(** A number: a finite value, given by the rational it is (in lowest
    terms wherever an operation produces it), an infinity, or NaN.  The
    two zeros are one value here: nothing in the estimator tells them
    apart, and it never divides by a zero. *)
Inductive t : Type :=
| Finite (q : Q)
| Infinity (negative : bool)
| NaN.

Definition zero : t := Finite 0.
Definition one : t := Finite 1.

(** The double that is the integer [z]; every [z] of magnitude at most
    2^53 is one. *)
Definition ofZ (z : Z) : t := Finite (inject_Z z).

(** The smallest positive double is [2^-1074], and every finite double is
    a whole number of such grains: [grain] of them make 1. *)
Definition grain : Z := 2 ^ 1074.

(** The distance, in grains, between neighbouring doubles around a
    positive value of [s] grains: 53 significant bits, and one grain
    below [2^-1022]. *)
Definition spacing (s : Q) : Z := 2 ^ Z.max (Z.log2 (Qfloor s) - 52) 0.

(** The nearest integer, a tie going to the even one. *)
Definition nearestEven (m : Q) : Z :=
  let f := Qfloor m in
  match (m - inject_Z f ?= 1 # 2)%Q with
  | Lt => f
  | Gt => f + 1
  | Eq => if Z.even f then f else f + 1
  end.

(** The double nearest to a positive rational, in grains, before the
    check for overflow. *)
Definition nearest (x : Q) : Z :=
  let s := (x * inject_Z grain)%Q in
  let u := spacing s in
  nearestEven (s / inject_Z u) * u.

(** [2^1024] in grains: what rounds that far is an infinity. *)
Definition overflow : Z := 2 ^ (1024 + 1074).

(** Round to nearest, ties to even: the double an operation returns for
    the exact result [x]. *)
Definition round (x : Q) : t :=
  match (x ?= 0)%Q with
  | Eq => Finite 0
  | Gt =>
      let y := nearest x in
      if overflow <=? y then Infinity false
      else Finite (Qred (inject_Z y / inject_Z grain))
  | Lt =>
      let y := nearest (- x) in
      if overflow <=? y then Infinity true
      else Finite (Qred (- (inject_Z y / inject_Z grain)))
  end.

(** [x + y], [x - y], [x * y], [x / y]. *)
Definition add (x y : t) : t :=
  match x, y with
  | NaN, _ | _, NaN => NaN
  | Infinity a, Infinity b => if Bool.eqb a b then Infinity a else NaN
  | Infinity a, Finite _ => Infinity a
  | Finite _, Infinity b => Infinity b
  | Finite p, Finite q => round (p + q)
  end.

Definition sub (x y : t) : t :=
  match x, y with
  | NaN, _ | _, NaN => NaN
  | Infinity a, Infinity b => if Bool.eqb a b then NaN else Infinity a
  | Infinity a, Finite _ => Infinity a
  | Finite _, Infinity b => Infinity (negb b)
  | Finite p, Finite q => round (p - q)
  end.

Definition negative (q : Q) : bool :=
  match (q ?= 0)%Q with Lt => true | _ => false end.

Definition mul (x y : t) : t :=
  match x, y with
  | NaN, _ | _, NaN => NaN
  | Infinity a, Infinity b => Infinity (xorb a b)
  | Infinity a, Finite q | Finite q, Infinity a =>
      match (q ?= 0)%Q with
      | Eq => NaN
      | _ => Infinity (xorb a (negative q))
      end
  | Finite p, Finite q => round (p * q)
  end.

Definition div (x y : t) : t :=
  match x, y with
  | NaN, _ | _, NaN => NaN
  | Infinity _, Infinity _ => NaN
  | Infinity a, Finite q => Infinity (xorb a (negative q))
  | Finite _, Infinity _ => Finite 0
  | Finite p, Finite q =>
      match (q ?= 0)%Q with
      | Eq => match (p ?= 0)%Q with
              | Eq => NaN
              | _ => Infinity (negative p)
              end
      | _ => round (p / q)
      end
  end.

(** [x < y], [x === y] and [x <= y]; false whenever NaN is involved. *)
Definition ltb (x y : t) : bool :=
  match x, y with
  | NaN, _ | _, NaN => false
  | Finite p, Finite q => match (p ?= q)%Q with Lt => true | _ => false end
  | Infinity a, Infinity b => a && negb b
  | Infinity a, Finite _ => a
  | Finite _, Infinity b => negb b
  end.

Definition eqb (x y : t) : bool :=
  match x, y with
  | Finite p, Finite q => match (p ?= q)%Q with Eq => true | _ => false end
  | Infinity a, Infinity b => Bool.eqb a b
  | _, _ => false
  end.

Definition leb (x y : t) : bool := ltb x y || eqb x y.

(** The order of the doubles, for the statements: the infinities at the
    two ends, NaN comparable to nothing. *)
Definition le (x y : t) : Prop :=
  match x, y with
  | Finite p, Finite q => (p <= q)%Q
  | Infinity true, NaN => False
  | Infinity true, _ => True
  | Finite _, Infinity false => True
  | Infinity false, Infinity false => True
  | _, _ => False
  end.

(** The integers of magnitude at most 2^53: up to there every integer is
    a double. *)
Definition safe (z : Z) : Prop := - 2 ^ 53 <= z <= 2 ^ 53.

End Double.

(* ------------------------------------------------------------------------ *)
(** ** pass@k metrics ([src/eval/metrics.ts]) *)

Module Metrics.

Definition calculatePassAtK (results : list bool) (k : Z) : bool :=
  let firstK := JS.slice0 results k in
  JS.some (fun success => success) firstK.

(** [for (let i = 0; i < k; i++) ratio *= (n - c - i) / (n - i)], entered
    with the counter at [i]; [None] when [fuel] tests of [i < k] do not
    bring the loop to its end. *)
Fixpoint ratioLoop (fuel : nat) (n c k i ratio : Double.t) : option Double.t :=
  match fuel with
  | O => None
  | S fuel' =>
      if Double.ltb i k then
        ratioLoop fuel' n c k (Double.add i Double.one)
          (Double.mul ratio
             (Double.div (Double.sub (Double.sub n c) i) (Double.sub n i)))
      else Some ratio
  end.

Definition estimatePassAtK (fuel : nat) (n c k : Double.t) : option Double.t :=
  if Double.ltb n k then
    Some (if Double.ltb Double.zero c then Double.one else Double.zero)
  else if Double.eqb c Double.zero then Some Double.zero
  else if Double.leb n c then Some Double.one
  else option_map (Double.sub Double.one)
         (ratioLoop fuel n c k Double.zero Double.one).

End Metrics.

(* ------------------------------------------------------------------------ *)
(** ** Graders ([src/eval/graders.ts]) *)

Module Graders.

(** The [type] of an expected outcome; scenarios read from a suite file
    are not validated, so another string may stand there. *)
Inductive OutcomeType : Type :=
| Contains | Equals | Matches | Exists
| OtherType (name : string).

(** How a call completes: with a value or by throwing. *)
Inductive Thrown : Type := TypeError | SyntaxError.

Inductive Completion (A : Type) : Type :=
| Returns (a : A)
| Throws (e : Thrown).
Arguments Returns {A} a.
Arguments Throws {A} e.

(** [xs.some(p)] for a callback that may throw. *)
Fixpoint someOf {A : Type} (p : A -> Completion bool) (xs : list A) : Completion bool :=
  match xs with
  | [] => Returns false
  | x :: r =>
      match p x with
      | Returns true => Returns true
      | Returns false => someOf p r
      | Throws e => Throws e
      end
  end.

(** What a property access on the extracted data can yield: a value of
    the data, or, through the prototype chain, a method or one of the two
    prototype objects themselves. *)
Inductive Value : Type :=
| Data (v : JS.JSON)
| Function
| ObjectPrototype
| ArrayPrototype.

(** What the graders take from the host: the regular-expression engine,
    [new RegExp(source)] ([None]: the source is rejected with a
    [SyntaxError]) and [regex.test(subject)], a function of the two for a
    regex that carries no [g] or [y] flag; [String.prototype.toLowerCase];
    and the names of the methods of [Object.prototype] and of
    [Array.prototype], whose string-keyed members are methods apart from
    the [__proto__] accessor and the [length] of [Array.prototype]. *)
Record Host : Type := {
  RegExp : Type;
  newRegExp : string -> option RegExp;
  test : RegExp -> string -> bool;
  toLowerCase : string -> string;
  objectMethod : string -> bool;
  arrayMethod : string -> bool
}.

Section WithHost.

Variable host : Host.

(** [Object.prototype[key]] for a receiver whose prototype is [proto]. *)
Definition inObjectPrototype (proto : Value) (key : string) : option Value :=
  if String.eqb key "__proto__" then Some proto
  else if objectMethod host key then Some Function
  else None.

(** A key missing from an array itself is looked up in [Array.prototype]
    and then in [Object.prototype]. *)
Definition inArrayPrototype (key : string) : option Value :=
  if arrayMethod host key then Some Function
  else inObjectPrototype ArrayPrototype key.

(** [current[key]] for a [current] with [typeof current === 'object'] that
    is not [null]: an own property first, then the prototype chain. *)
Definition member (current : Value) (key : string) : option Value :=
  match current with
  | Data (JS.JObj o) =>
      match JS.getProp o key with
      | Some x => Some (Data x)
      | None => inObjectPrototype ObjectPrototype key
      end
  | Data (JS.JArr items) =>
      if String.eqb key "length" then Some (Data (JS.JNum (JS.ofZ (JS.length items))))
      else match JS.getItem items 0 key with
           | Some x => Some (Data x)
           | None => inArrayPrototype key
           end
  | ArrayPrototype =>
      if String.eqb key "length" then Some (Data (JS.JNum "0"))
      else if arrayMethod host key then Some Function
      else inObjectPrototype ObjectPrototype key
  | ObjectPrototype => inObjectPrototype (Data JS.JNull) key
  | _ => None
  end.

(** [typeof v === 'object'] (true of [null], arrays and objects, false of
    functions). *)
Definition isObjectType (v : Value) : bool :=
  match v with
  | Data (JS.JNull | JS.JArr _ | JS.JObj _) => true
  | ObjectPrototype | ArrayPrototype => true
  | _ => false
  end.

(** The path walk of [getNestedField]; [None] is [undefined]. *)
Fixpoint walk (current : option Value) (parts : list string) : option Value :=
  match parts with
  | [] => current
  | part :: rest =>
      match current with
      | None => None
      | Some (Data JS.JNull) => None
      | Some v => if isObjectType v then walk (member v part) rest else None
      end
  end.

Definition getNestedField (obj : JS.Obj) (path : string) : option Value :=
  walk (Some (Data (JS.JObj obj))) (JS.splitDots path).

(** [JSON.stringify(v)]: [undefined] (here [None]) for a function; the
    prototype objects have no enumerable property and no element. *)
Definition stringify (v : Value) : option string :=
  match v with
  | Data x => Some (JS.stringify x)
  | Function => None
  | ObjectPrototype => Some "{}"
  | ArrayPrototype => Some "[]"
  end.

(** [value?: string | RegExp]. *)
Inductive Pattern : Type :=
| Text (s : string)
| Regex (r : RegExp host).

Record ExpectedOutcome : Type := expect {
  type : OutcomeType;
  field : option string;
  value : option Pattern
}.

(** [!!expected.value]. *)
Definition truthyValue (v : option Pattern) : bool :=
  match v with
  | Some (Text s) => JS.truthy (Some s)
  | Some (Regex _) => true
  | None => false
  end.

(** [value.toLowerCase()] where [value] was cast to [string]. *)
Definition lowered (v : Pattern) : Completion string :=
  match v with
  | Text s => Returns (toLowerCase host s)
  | Regex _ => Throws TypeError
  end.

(** [haystack.toLowerCase().includes(value.toLowerCase())]. *)
Definition includesLowered (haystack : string) (v : Pattern) : Completion bool :=
  match lowered v with
  | Returns needle => Returns (JS.includes (toLowerCase host haystack) needle)
  | Throws e => Throws e
  end.

Definition checkContains (data : option JS.Obj) (field : string) (v : Pattern)
    : Completion bool :=
  match data with
  | None => Returns false
  | Some obj =>
      match getNestedField obj field with
      | None => Returns false
      | Some (Data (JS.JStr s)) => includesLowered s v
      | Some (Data (JS.JArr items)) =>
          someOf (fun item =>
                    match item with
                    | JS.JStr s => includesLowered s v
                    | _ => includesLowered (JS.stringify item) v
                    end) items
      | Some ArrayPrototype => Returns false
      | Some fieldValue =>
          match stringify fieldValue with
          | Some text => includesLowered text v
          | None => Throws TypeError
          end
      end
  end.

(** [text === value] where [value] was cast to [string]. *)
Definition strictEquals (text : string) (v : Pattern) : bool :=
  match v with
  | Text s => String.eqb text s
  | Regex _ => false
  end.

Definition checkEquals (data : option JS.Obj) (field : string) (v : Pattern)
    : Completion bool :=
  match data with
  | None => Returns false
  | Some obj =>
      match getNestedField obj field with
      | None => Returns false
      | Some (Data (JS.JStr s)) => Returns (strictEquals s v)
      | Some fieldValue =>
          match stringify fieldValue with
          | Some text => Returns (strictEquals text v)
          | None => Returns false
          end
      end
  end.

Definition checkMatches (data : option JS.Obj) (field : string) (pattern : Pattern)
    : Completion bool :=
  match data with
  | None => Returns false
  | Some obj =>
      match getNestedField obj field with
      | None => Returns false
      | Some fieldValue =>
          let compiled :=
            match pattern with
            | Text source => newRegExp host source
            | Regex r => Some r
            end in
          match compiled with
          | None => Throws SyntaxError
          | Some regex =>
              match fieldValue with
              | Data (JS.JStr s) => Returns (test host regex s)
              | Data (JS.JArr items) =>
                  Returns (JS.some (fun item =>
                                      match item with
                                      | JS.JStr s => test host regex s
                                      | _ => test host regex (JS.stringify item)
                                      end) items)
              | ArrayPrototype => Returns false
              | _ =>
                  Returns (test host regex
                             (JS.orElse (stringify fieldValue) "undefined"))
              end
          end
      end
  end.

(** [if (!expected.field || !expected.value) return result.success;
    return check(result.data, expected.field, expected.value)]. *)
Definition checked (expected : ExpectedOutcome) (success : bool)
    (check : string -> Pattern -> Completion bool) : Completion bool :=
  match field expected, value expected with
  | Some f, Some v =>
      if negb (JS.truthy (Some f)) || negb (truthyValue (Some v))
      then Returns success
      else check f v
  | _, _ => Returns success
  end.

Definition gradeResult (result : option TaskResult.t) (expected : ExpectedOutcome)
    : Completion bool :=
  match result with
  | None => Returns false
  | Some result =>
      if negb (TaskResult.success result) then Returns false
      else
        match type expected with
        | Exists =>
            Returns (TaskResult.success result &&
                     ((0 <? JS.keyCount (JS.orElse (TaskResult.data result) []))
                      || (0 <? JS.length (TaskResult.steps result))))
        | Contains =>
            checked expected (TaskResult.success result)
              (checkContains (TaskResult.data result))
        | Equals =>
            checked expected (TaskResult.success result)
              (checkEquals (TaskResult.data result))
        | Matches =>
            checked expected (TaskResult.success result)
              (checkMatches (TaskResult.data result))
        | OtherType _ => Returns (TaskResult.success result)
        end
  end.

End WithHost.

Arguments Text {host} s.
Arguments Regex {host} r.
Arguments expect {host} type field value.
Arguments type {host} e.
Arguments field {host} e.
Arguments value {host} e.
Arguments truthyValue {host} v.
Arguments strictEquals {host} text v.
Arguments checked {host} expected success check.

(** The string-keyed methods of the standard [Object.prototype] and
    [Array.prototype]. *)
Definition objectMethods : list string :=
  ["constructor"; "hasOwnProperty"; "isPrototypeOf"; "propertyIsEnumerable";
   "toLocaleString"; "toString"; "valueOf"; "__defineGetter__";
   "__defineSetter__"; "__lookupGetter__"; "__lookupSetter__"].

Definition arrayMethods : list string :=
  ["constructor"; "at"; "concat"; "copyWithin"; "entries"; "every"; "fill";
   "filter"; "find"; "findIndex"; "findLast"; "findLastIndex"; "flat";
   "flatMap"; "forEach"; "includes"; "indexOf"; "join"; "keys";
   "lastIndexOf"; "map"; "pop"; "push"; "reduce"; "reduceRight"; "reverse";
   "shift"; "slice"; "some"; "sort"; "splice"; "toLocaleString";
   "toReversed"; "toSorted"; "toSpliced"; "toString"; "unshift"; "values";
   "with"].

Definition named (names : list string) (key : string) : bool :=
  existsb (String.eqb key) names.

(** A host to run the graders on examples: the standard prototypes, the
    lower-casing of ASCII text, and an engine restricted to literal
    sources, which searches the subject for the source as it stands and so
    agrees with the real engine on sources free of metacharacters. *)
Definition literalHost : Host := {|
  RegExp := string;
  newRegExp := fun source => Some source;
  test := fun source subject => JS.includes subject source;
  toLowerCase := JS.toLowerCase;
  objectMethod := named objectMethods;
  arrayMethod := named arrayMethods
|}.

End Graders.

(* ------------------------------------------------------------------------ *)
(** ** Rates and aggregates ([src/eval/metrics.ts], continued) *)

Module Aggregates.

(** One round of [for (const results of scenarioResults.values())]:
    the two counters after looking at [results]. *)
Definition countScenario (k : Z) (counts : Double.t * Double.t) (results : list bool)
    : Double.t * Double.t :=
  let '(passCount, totalCount) := counts in
  ((if Metrics.calculatePassAtK results k then Double.add passCount Double.one
    else passCount),
   Double.add totalCount Double.one).

(** [calculatePassAtKRate]; the map is the list of its entries in
    insertion order. *)
Definition calculatePassAtKRate (scenarioResults : list (string * list bool)) (k : Z)
    : Double.t :=
  let '(passCount, totalCount) :=
    fold_left (countScenario k) (map snd scenarioResults) (Double.zero, Double.zero) in
  if Double.eqb totalCount Double.zero then Double.zero
  else Double.div passCount totalCount.

(** An element of the argument of [calculateAggregateMetrics]. *)
Record Sample : Type := sample {
  success : bool;
  duration : Double.t;
  healingUsed : bool
}.

Record AggregateMetrics : Type := mk {
  passAt1 : Double.t;
  passAt3 : Double.t;
  passAt5 : Double.t;
  successRate : Double.t;
  avgDuration : Double.t;
  healingRate : Double.t
}.

(** [results.length > 0 ? total / results.length : 0]. *)
Definition perResult {A : Type} (total : Double.t) (results : list A) : Double.t :=
  if 0 <? JS.length results then Double.div total (Double.ofZ (JS.length results))
  else Double.zero.

Definition calculateAggregateMetrics (results : list Sample) : AggregateMetrics :=
  let successes := filter success results in
  let healed := filter healingUsed results in
  let successBools := map success results in
  {| passAt1 := if Metrics.calculatePassAtK successBools 1 then Double.one else Double.zero;
     passAt3 := if Metrics.calculatePassAtK successBools 3 then Double.one else Double.zero;
     passAt5 := if Metrics.calculatePassAtK successBools 5 then Double.one else Double.zero;
     successRate := perResult (Double.ofZ (JS.length successes)) results;
     avgDuration :=
       perResult (fold_left (fun sum r => Double.add sum (duration r)) results Double.zero)
         results;
     healingRate := perResult (Double.ofZ (JS.length healed)) results |}.

End Aggregates.

(* ------------------------------------------------------------------------ *)
(** ** The evaluation runner ([src/eval/runner.ts]) *)

Module Runner.

(** An element of [runResults]. *)
Record RunResult : Type := runResult {
  success : bool;
  duration : Double.t;
  error : option string
}.

(** What one pass through the [try] block meets: [agent.run] resolves
    with a result, [elapsed] being [Date.now() - startTime], or something
    in the block rejects, [error] being the text [String(error)] gives.
    [createAgent] and [agent.close], which sit outside the [try], are
    taken to resolve. *)
Inductive Attempt : Type :=
| Resolved (result : option TaskResult.t) (elapsed : Double.t)
| Rejected (error : string).

(** [arr.indexOf(e)]; -1 when [e] is absent. *)
Fixpoint indexOf (arr : list string) (e : string) : Z :=
  match arr with
  | [] => -1
  | x :: rest =>
      if String.eqb x e then 0
      else let i := indexOf rest e in if i <? 0 then -1 else i + 1
  end.

(** [arr.filter((e, i, arr) => arr.indexOf(e) === i)], run from index [i]
    over the remaining elements [rest] of [arr]. *)
Fixpoint firstOccurrences (arr : list string) (i : Z) (rest : list string) : list string :=
  match rest with
  | [] => []
  | e :: rest' =>
      if indexOf arr e =? i then e :: firstOccurrences arr (i + 1) rest'
      else firstOccurrences arr (i + 1) rest'
  end.

(** [passAtK[k] = v] on a [Record<number, boolean>], for integer keys. *)
Fixpoint setKey (o : list (Z * bool)) (k : Z) (v : bool) : list (Z * bool) :=
  match o with
  | [] => [(k, v)]
  | (k', v') :: rest =>
      if k' =? k then (k', v) :: rest else (k', v') :: setKey rest k v
  end.

(** [passAtK[k]]; [None] is [undefined]. *)
Fixpoint getKey (o : list (Z * bool)) (k : Z) : option bool :=
  match o with
  | [] => None
  | (k', v) :: rest => if k' =? k then Some v else getKey rest k
  end.

Record EvalResult : Type := evalResult {
  scenario : string;
  attempts : Z;
  successes : Z;
  failures : Z;
  passAtK : list (Z * bool);
  avgDuration : Double.t;
  errors : list string
}.

Record Summary : Type := summary {
  totalScenarios : Z;
  passAt1 : Double.t;
  passAt3 : Double.t;
  passAt5 : Double.t;
  meanDuration : Double.t
}.

Section WithHost.

(** The host of the graders, and the text [String(error)] gives for an
    error thrown by a grader. *)
Variable host : Graders.Host.
Variable describe : Graders.Thrown -> string.

Record EvalScenario : Type := evalScenario {
  name : string;
  expectedOutcome : Graders.ExpectedOutcome host
}.

(** The body of the loop over runs: what is pushed on [runResults]. *)
Definition runOnce (s : EvalScenario) (a : Attempt) : RunResult :=
  match a with
  | Resolved result elapsed =>
      match Graders.gradeResult host result (expectedOutcome s) with
      | Graders.Returns true => runResult true elapsed None
      | Graders.Returns false =>
          runResult false elapsed (Some "Did not meet expected outcome")
      | Graders.Throws e => runResult false Double.zero (Some (describe e))
      end
  | Rejected err => runResult false Double.zero (Some err)
  end.

(** [for (let run = 0; run < runsPerScenario; run++)] for an integer
    [runsPerScenario], the attempt of run [i] being [supply i]. *)
Definition runAll (runsPerScenario : Z) (s : EvalScenario) (supply : nat -> Attempt)
    : list RunResult :=
  map (fun i => runOnce s (supply i)) (seq 0 (Z.to_nat runsPerScenario)).

(** The entry pushed on [results] for one scenario. *)
Definition summarise (kValues : list Z) (runsPerScenario : Z) (s : EvalScenario)
    (runResults : list RunResult) : EvalResult :=
  let successCount := JS.length (filter success runResults) in
  let failureCount := JS.length (filter (fun r => negb (success r)) runResults) in
  let avg :=
    Double.div
      (fold_left (fun sum r => Double.add sum (duration r)) runResults Double.zero)
      (Double.ofZ (JS.length runResults)) in
  let table :=
    fold_left (fun o k =>
                 setKey o k (Metrics.calculatePassAtK (map success runResults) k))
      kValues [] in
  let texts :=
    flat_map (fun r => match error r with
                       | Some e => if JS.truthy (Some e) then [e] else []
                       | None => []
                       end) runResults in
  evalResult (name s) runsPerScenario successCount failureCount table avg
    (firstOccurrences texts 0 texts).

(** [results.filter((r) => r.passAtK[k]).length / totalScenarios]. *)
Definition passRate (results : list EvalResult) (k : Z) : Double.t :=
  Double.div
    (Double.ofZ
       (JS.length (filter (fun r => match getKey (passAtK r) k with
                                    | Some true => true
                                    | _ => false
                                    end) results)))
    (Double.ofZ (JS.length results)).

Definition summaryOf (results : list EvalResult) : Summary :=
  summary (JS.length results) (passRate results 1) (passRate results 3)
    (passRate results 5)
    (Double.div
       (fold_left (fun sum r => Double.add sum (avgDuration r)) results Double.zero)
       (Double.ofZ (JS.length results))).

(** [runEvaluation]: the entries of the report and its summary, for
    scenarios that come with the attempts their runs meet. *)
Definition runEvaluation (kValues : list Z) (runsPerScenario : Z)
    (scenarios : list (EvalScenario * (nat -> Attempt))) : list EvalResult * Summary :=
  let results :=
    map (fun '(s, supply) =>
           summarise kValues runsPerScenario s (runAll runsPerScenario s supply))
      scenarios in
  (results, summaryOf results).

End WithHost.

Arguments evalScenario {host} name expectedOutcome.
Arguments name {host} e.
Arguments expectedOutcome {host} e.
Arguments summarise {host} kValues runsPerScenario s runResults.

End Runner.


(* ------------------------------------------------------------------------ *)
(** * Vocabulary of the properties *)

(** ** Runs *)

(** The last recorded step result succeeded. *)
Definition lastRecordedSucceeded (s : State.t) : Prop :=
  exists front r, State.results s = front ++ [r] /\ StepResult.success r = true.

(** The action types that have an executor, and those that have none. *)
Definition hasExecutor (t : ActionType) : Prop :=
  t = Navigate \/ t = Click \/ t = Fill \/ t = Extract.

Definition hasNoExecutor (t : ActionType) : Prop :=
  t = Wait \/ t = Screenshot \/ exists name, t = Unlisted name.

(** The state in which the router is re-entered after skipping [a]: the
    cursor moved, the retry counter and the healing flag are cleared, [a]
    is left in [currentAction], every other channel is as before. *)
Definition skipped (s : State.t) (a : Action.t) : State.t :=
  {| State.task := State.task s;
     State.currentStep := State.currentStep s + 1;
     State.totalSteps := State.totalSteps s;
     State.url := State.url s;
     State.pageTitle := State.pageTitle s;
     State.pageContent := State.pageContent s;
     State.screenshot := State.screenshot s;
     State.actions := State.actions s;
     State.results := State.results s;
     State.lastError := State.lastError s;
     State.healingAttempts := 0;
     State.healingHistory := State.healingHistory s;
     State.currentAction := Some a;
     State.extractedData := State.extractedData s;
     State.finalResult := State.finalResult s;
     State.needsHealing := false;
     State.isComplete := State.isComplete s;
     State.failedSteps := State.failedSteps s;
     State.healingExhausted := State.healingExhausted s |}.

(** Where the retry counter can stand at each node. *)
Definition counterAt (context : Graph.AgentContext) (n : Node.t) (s : State.t) : Prop :=
  match n with
  | Node.plan | Node.router | Node.finalize =>
      State.healingAttempts s = 0
  | Node.navigate | Node.click | Node.fill | Node.extract =>
      0 <= State.healingAttempts s < HealingConfig.maxRetries context
  | Node.heal | Node.success | Node.END | Node.REJECTED =>
      0 <= State.healingAttempts s <= HealingConfig.maxRetries context
  end.

(** The completion flag is raised by the router on its way to finalize and
    nowhere else. *)
Definition flagAt (n : Node.t) (s : State.t) : Prop :=
  match n with
  | Node.finalize | Node.END => True
  | _ => State.isComplete s = false
  end.

(** The delta of a heal activation that finds the counter at the ceiling. *)
Definition exhaustedDelta (s : State.t) (now : Z) : State.Delta :=
  [ State.NeedsHealing false;
    State.HealingExhausted true;
    State.HealingHistory
      [ HealingAttempt.mk (State.healingAttempts s)
          (JS.orElse (State.lastError s) "Unknown error") "exhausted" false
          None (State.screenshot s) now ] ].

(** The nodes activated, in order, when [ws] is played from [c]. *)
Fixpoint visited (context : Graph.AgentContext) (ws : list World.t) (c : Graph.Config)
    : list Node.t :=
  match ws with
  | [] => []
  | w :: rest => fst c :: visited context rest (Graph.step context w c)
  end.

Definition isHeal (n : Node.t) : bool :=
  match n with Node.heal => true | _ => false end.

(** How many of the activations were healing cycles. *)
Definition healingCycles (context : Graph.AgentContext) (ws : list World.t)
    (c : Graph.Config) : nat :=
  List.length (filter isHeal (visited context ws c)).

(** [now] holds [k] entries more than [before]. *)
Definition added {A : Type} (now before : list A) (k : nat) : Prop :=
  List.length now = (List.length before + k)%nat.

(** All of [rs] record a failed attempt. *)
Definition allFailed (rs : list StepResult.t) : Prop :=
  Forall (fun r => StepResult.success r = false) rs.

(** Since [c0], the results have grown by [k] entries, all of them failed
    attempts. *)
Definition failedSince (c0 c : Graph.Config) (k : nat) : Prop :=
  exists failed,
    State.results (snd c) = State.results (snd c0) ++ failed /\
    List.length failed = k /\ allFailed failed.

(** Bookkeeping inside one plan step that started at [c0] and has seen
    [m] healing cycles: what has been recorded when the run stands at [c]. *)
Definition tally (c0 : Graph.Config) (m : nat) (c : Graph.Config) : Prop :=
  match fst c with
  | Node.navigate | Node.click | Node.fill | Node.extract =>
      failedSince c0 c m /\
      added (State.healingHistory (snd c)) (State.healingHistory (snd c0)) m
  | Node.heal =>
      failedSince c0 c (m + 1) /\
      added (State.healingHistory (snd c)) (State.healingHistory (snd c0)) m /\
      exists a, State.currentAction (snd c) = Some a /\ JS.truthy (Action.target a) = true
  | Node.success | Node.REJECTED => True
  | _ => False
  end.

(** ** Metrics *)

(** Some element among the first [k] attempts is a success. *)
Definition someOfFirst (results : list bool) (k : Z) : Prop :=
  exists i, 0 <= i < k /\ JS.index results i = Some true.

(** One factor of the running product, [(n - c - i) / (n - i)], each
    operation rounded. *)
Definition factor (n c i : Double.t) : Double.t :=
  Double.div (Double.sub (Double.sub n c) i) (Double.sub n i).

(** The integers [from], [from + 1], ..., [count] of them. *)
Fixpoint indices (from : Z) (count : nat) : list Z :=
  match count with
  | O => []
  | S count' => from :: indices (from + 1) count'
  end.

(** The product of the factors for the indices in [over], multiplied one
    after the other onto [ratio], each product rounded. *)
Definition runningProduct (n c : Z) (over : list Z) (ratio : Double.t) : Double.t :=
  fold_left (fun ratio i =>
               Double.mul ratio (factor (Double.ofZ n) (Double.ofZ c) (Double.ofZ i)))
    over ratio.

(** The rounding checked against the Standard Library's specification of
    IEEE 754 arithmetic ([SpecFloat], precision 53, exponents up to 1024):
    the value of a specified float, the float of an integer, and the test
    that an operation of [Double] and the specified operation agree on
    every pair of operands out of a list. *)
Definition ofSpec (f : spec_float) : Double.t :=
  match f with
  | S754_zero _ => Double.Finite 0
  | S754_infinity s => Double.Infinity s
  | S754_nan => Double.NaN
  | S754_finite s m e =>
      let v := if 0 <=? e then inject_Z (Zpos m * 2 ^ e)
               else (inject_Z (Zpos m) / inject_Z (2 ^ (- e)))%Q in
      Double.Finite (Qred (if s then - v else v)%Q)
  end.

Definition binary64 (z : Z) : spec_float := binary_normalize 53 1024 z 0 false.

Definition sameDouble (x y : Double.t) : bool :=
  match x, y with
  | Double.Finite a, Double.Finite b => Qeq_bool a b
  | Double.Infinity s, Double.Infinity s' => Bool.eqb s s'
  | Double.NaN, Double.NaN => true
  | _, _ => false
  end.

Definition agree (operands : list (Double.t * spec_float))
    (mine : Double.t -> Double.t -> Double.t)
    (theirs : spec_float -> spec_float -> spec_float) : bool :=
  forallb (fun p =>
             sameDouble (mine (fst (fst p)) (fst (snd p)))
               (ofSpec (theirs (snd (fst p)) (snd (snd p)))))
    (list_prod operands operands).

(** Integers, and the quotients of small integers that the estimator
    multiplies. *)
Definition integers : list (Double.t * spec_float) :=
  map (fun z => (Double.ofZ z, binary64 z))
    [-7; 1; 3; 5; 10; 2 ^ 53 - 1].

Definition fractions : list (Double.t * spec_float) :=
  map (fun p => (Double.div (Double.ofZ (fst p)) (Double.ofZ (snd p)),
                 SFdiv 53 1024 (binary64 (fst p)) (binary64 (snd p))))
    (list_prod [1; 2; 4] [5; 7]).

(** The exponent of the spacing, and rounding in grains. *)
Definition exponent (s : Q) : Z := Z.max (Z.log2 (Qfloor s) - 52) 0.

Definition nearestScaled (s : Q) : Z :=
  Double.nearestEven (s / inject_Z (Double.spacing s)) * Double.spacing s.

(** While [0 <= c <= n], on entering the loop body with the counter at
    [j]: the ratio lies in the unit interval, and it is zero once the
    counter has passed [n - c]. *)
Definition unitState (n c j : Z) (r : Double.t) : Prop :=
  exists v, r = Double.Finite v /\ (0 <= v <= 1)%Q /\ (j <= n - c \/ (v == 0)%Q).

(** ** Graders *)

(** The text a grader compares for a resolved value: a string as it is,
    anything else through [JSON.stringify]. *)
Definition textOf (v : JS.JSON) : string :=
  match v with
  | JS.JStr s => s
  | _ => JS.stringify v
  end.

(** The texts a scanning grader looks at: the elements of an array, or the
    value itself. *)
Definition candidates (v : JS.JSON) : list string :=
  match v with
  | JS.JArr items => map textOf items
  | _ => [textOf v]
  end.

(** Grading on the example host. *)
Definition gradeLiteral (result : option TaskResult.t) (type : Graders.OutcomeType)
    (field value : string) : Graders.Completion bool :=
  Graders.gradeResult Graders.literalHost result
    (Graders.expect type (Some field) (Some (Graders.Text value))).

(* ------------------------------------------------------------------------ *)
(** * Inputs of the examples *)

Definition threeRetries : HealingConfig.t := HealingConfig.mk true 3 Exponential 1000.
Definition oneRetry : HealingConfig.t := HealingConfig.mk true 1 Linear 500.

Definition openSite : Action.t := Action.mk Navigate (Some "https://example.com") None None.
Definition fillSearch : Action.t := Action.mk Fill (Some "the query box") (Some "cats") None.
Definition extractHeadlines : Action.t := Action.mk Extract (Some "all headlines") None None.
Definition waitForLoad : Action.t := Action.mk Wait (Some "page load") None None.
Definition clickNowhere : Action.t := Action.mk Click None None None.

Definition queryBox : DetectedElement.t := DetectedElement.mk "#q" (9 # 10).
Definition headlineList : DetectedElement.t := DetectedElement.mk "ul.headlines" (9 # 10).

(** A state at the end of a two-step plan that extracted nothing. *)
Definition noData : State.t :=
  State.apply State.default [State.TotalSteps 2; State.CurrentStep 2].

(** The run of [waitForLoad; extractHeadlines] right after planning. *)
Definition newsPlanned : Graph.Config :=
  Graph.invoke threeRetries "read the news" [World.planning [waitForLoad; extractHeadlines]].

(** With a single retry: the fill has failed once and the heal node is
    about to run with the counter at the ceiling. *)
Definition atCeiling : Graph.Config :=
  Graph.invoke oneRetry "search cats"
    [World.planning [fillSearch]; World.calm; World.failing "no such input"].

(** A failed attempt followed by a healing cycle that finds a candidate. *)
Definition failThenHeal (a : Action.t) (d : DetectedElement.t) : Graph.Config :=
  Graph.invoke threeRetries "task"
    [World.planning [a]; World.calm; World.failing "timeout"; World.seeing d].

(** The worlds of a whole run of a plan with a single action. *)
Definition targetlessWorlds : list World.t :=
  [World.planning [clickNowhere]; World.calm; World.calm; World.calm; World.calm; World.calm].

(** A candidate that the vision model reports with an empty selector,
    and the worlds of a run in which the fill fails once and the heal node
    accepts that candidate. *)
Definition blankCandidate : DetectedElement.t := DetectedElement.mk EmptyString (9 # 10).

Definition blankRepairWorlds : list World.t :=
  [World.planning [fillSearch]; World.calm; World.failing "no such input";
   World.seeing blankCandidate; World.calm; World.calm; World.calm; World.calm].

(** The fill executor about to run for the first step of a plan. *)
Definition fillAboutToRun : Graph.Config :=
  Graph.invoke threeRetries "search cats" [World.planning [fillSearch]; World.calm].

(** Extracted data with a title, a list of tags and a nested object, in a
    run that succeeded and in one that did not. *)
Definition pageData : JS.Obj :=
  [ ("title", JS.JStr "Hello World");
    ("tags", JS.JArr [JS.JStr "red"; JS.JStr "blue"]);
    ("meta", JS.JObj [("author", JS.JObj [("name", JS.JStr "Ada")])]) ].

Definition passedRun : TaskResult.t :=
  TaskResult.mk true (Some pageData) [] [] 0 [].

Definition failedRun : TaskResult.t :=
  TaskResult.mk false (Some pageData) [] [] 0 [].


(* ------------------------------------------------------------------------ *)
(** * Vocabulary of the further properties *)

(** ** Runs *)

(** Two actions that differ in their target at most. *)
Definition sameButTarget (a b : Action.t) : Prop :=
  Action.type a = Action.type b /\ Action.value a = Action.value b /\
  Action.timeout a = Action.timeout b.

(** The action types a node inside a plan step can be working on. *)
Definition worksOn (n : Node.t) (t : ActionType) : Prop :=
  match n with
  | Node.navigate => t = Navigate
  | Node.click => t = Click
  | Node.fill => t = Fill
  | Node.extract => t = Extract
  | Node.heal => hasExecutor t
  | _ => True
  end.

(** The nodes between two visits of the router. *)
Definition insideStep (n : Node.t) : bool :=
  match n with
  | Node.navigate | Node.click | Node.fill | Node.extract | Node.heal | Node.success => true
  | _ => false
  end.

(** The run has come to rest. *)
Definition atRest (n : Node.t) : bool :=
  match n with
  | Node.END | Node.REJECTED => true
  | _ => false
  end.

(** The shape of the state at each node of a run: the cursor stays within
    the plan, and inside a step the current action is the planned action
    at the cursor, up to its target. *)
Definition shape (c : Graph.Config) : Prop :=
  let n := fst c in
  let s := snd c in
  0 <= State.currentStep s <= State.totalSteps s /\
  State.totalSteps s = JS.length (State.actions s) /\
  match n with
  | Node.plan => State.actions s = [] /\ State.isComplete s = false
  | Node.router => State.isComplete s = false
  | Node.navigate | Node.click | Node.fill | Node.extract | Node.heal | Node.success =>
      State.isComplete s = false /\
      State.currentStep s < State.totalSteps s /\
      exists planned a,
        JS.index (State.actions s) (State.currentStep s) = Some planned /\
        State.currentAction s = Some a /\
        sameButTarget a planned /\ worksOn n (Action.type a)
  | Node.finalize => State.currentStep s = State.totalSteps s
  | Node.END =>
      State.currentStep s = State.totalSteps s /\
      State.finalResult s = Some (Graph.finalResultOf s)
  | Node.REJECTED => True
  end.

(** The supersteps one plan step can take at most, for a retry ceiling
    [K]: router, then executor and heal in turn, then success. *)
Definition stepBudget (K : Z) : Z := K + K + 4.

(** An upper bound on the supersteps left before the run comes to rest,
    for a retry ceiling [K]. *)
Definition stepsLeft (K : Z) (c : Graph.Config) : Z :=
  let s := snd c in
  let rest := State.totalSteps s - State.currentStep s in
  let spare := K - State.healingAttempts s in
  match fst c with
  | Node.END | Node.REJECTED => 0
  | Node.finalize => 1
  | Node.router => rest * stepBudget K + 2
  | Node.success => (rest - 1) * stepBudget K + 3
  | Node.heal => (rest - 1) * stepBudget K + 4 + (spare + spare)
  | Node.navigate | Node.click | Node.fill | Node.extract =>
      (rest - 1) * stepBudget K + 5 + (spare + spare)
  | Node.plan => 0
  end.

(** The invariant of a run for a given context: the shape of the state
    and the standing of the retry counter. *)
Definition sound (context : Graph.AgentContext) (c : Graph.Config) : Prop :=
  shape c /\ counterAt context (fst c) (snd c).

(** Inputs of the examples: a run of a three-action plan in which the fill
    fails once and is repaired, stopped after [n] supersteps. *)
Definition searchWorlds : list World.t :=
  [ World.planning [openSite; fillSearch; extractHeadlines];
    World.calm; World.calm; World.calm;
    World.calm; World.failing "no such input"; World.seeing queryBox; World.calm; World.calm;
    World.calm; World.answering (JS.JObj [("headlines", JS.JArr [JS.JStr "Cats!"])]);
    World.calm; World.calm; World.calm ].

Definition searchRun (n : nat) : Graph.Config :=
  Graph.invoke threeRetries "search cats" (firstn n searchWorlds).
(** A step result as the executors write them: for an action with an
    executor and a non-empty target, with an error text exactly when the
    attempt failed, and marked as healed by click and fill only. *)
Definition wellFormedResult (r : StepResult.t) : Prop :=
  hasExecutor (Action.type (StepResult.action r)) /\
  JS.truthy (Action.target (StepResult.action r)) = true /\
  (StepResult.success r = true <-> StepResult.error r = None) /\
  (StepResult.healingUsed r = true ->
   Action.type (StepResult.action r) = Click \/ Action.type (StepResult.action r) = Fill).

(** A healing attempt as the heal node writes them. *)
Definition wellFormedAttempt (context : Graph.AgentContext) (a : HealingAttempt.t) : Prop :=
  1 <= HealingAttempt.attemptNumber a <= HealingConfig.maxRetries context /\
  (HealingAttempt.elementFound a = true <-> HealingAttempt.newSelector a <> None) /\
  (HealingAttempt.elementFound a = true <->
   In (HealingAttempt.strategy a)
     ["vision-redetection"; "scroll-and-detect"; "wait-and-detect"]) /\
  In (HealingAttempt.strategy a)
    ["vision-redetection"; "scroll-and-detect"; "wait-and-detect";
     "all-strategies-failed"; "error"; "exhausted"].

Definition wellRecorded (context : Graph.AgentContext) (c : Graph.Config) : Prop :=
  counterAt context (fst c) (snd c) /\
  Forall wellFormedResult (State.results (snd c)) /\
  Forall (wellFormedAttempt context) (State.healingHistory (snd c)).
(** ** Rates *)

(** The scenarios among [entries] that pass at [k]. *)
Definition passing (k : Z) (entries : list (list bool)) : Z :=
  JS.length (filter (fun results => Metrics.calculatePassAtK results k) entries).

(** ** The runner *)

(** The elements of [rest] that occur neither in [seen] nor earlier in
    [rest]. *)
Fixpoint fresh (seen rest : list string) : list string :=
  match rest with
  | [] => []
  | e :: rest' =>
      if existsb (String.eqb e) seen then fresh (seen ++ [e]) rest'
      else e :: fresh (seen ++ [e]) rest'
  end.

(** The error texts of the runs of a scenario. *)
Definition errorTexts (runResults : list Runner.RunResult) : list string :=
  flat_map (fun r => match Runner.error r with
                     | Some e => if JS.truthy (Some e) then [e] else []
                     | None => []
                     end) runResults.

(** Inputs of the examples: a scenario and the attempts of its runs. *)
Definition titleScenario : Runner.EvalScenario Graders.literalHost :=
  Runner.evalScenario "title"
    (Graders.expect Graders.Contains (Some "title") (Some (Graders.Text "hello"))).

Definition threeAttempts (i : nat) : Runner.Attempt :=
  match i with
  | O => Runner.Rejected "Error: net::ERR_ABORTED"
  | S O => Runner.Resolved (Some passedRun) (Double.ofZ 1200)
  | _ => Runner.Rejected "Error: net::ERR_ABORTED"
  end.

Definition describeThrown (e : Graders.Thrown) : string :=
  match e with
  | Graders.TypeError => "TypeError"
  | Graders.SyntaxError => "SyntaxError"
  end.

(** ** Further inputs of the examples *)

Definition twoRetries : HealingConfig.t := HealingConfig.mk true 2 Exponential 1000.

(** With a ceiling [cfg]: the fill has failed once, and the heal node has
    found the input on its first look. *)
Definition failThenHealWith (cfg : HealingConfig.t) : Graph.Config :=
  Graph.invoke cfg "search cats"
    [World.planning [fillSearch]; World.calm; World.failing "no such input";
     World.seeing queryBox].

(* ------------------------------------------------------------------------ *)
(** * Properties *)

Arguments JS.take : simpl never.
Arguments JS.index : simpl never.
Arguments Nodes.isSearchButtonClick : simpl never.
Arguments Nodes.alreadySearched : simpl never.

(** Boolean comparisons met in the nodes, as propositions. *)
Ltac reflect_tests :=
  repeat match goal with
    | H : (_ <=? _) = true |- _ => apply Z.leb_le in H
    | H : (_ <=? _) = false |- _ => apply Z.leb_gt in H
    | H : (_ <? _) = true |- _ => apply Z.ltb_lt in H
    | H : (_ <? _) = false |- _ => apply Z.ltb_ge in H
    | H : (_ || _) = true |- _ => apply orb_true_iff in H
    | H : (_ || _) = false |- _ => apply orb_false_iff in H as [? ?]
    | H : (_ && _) = true |- _ => apply andb_true_iff in H as [? ?]
    | H : negb _ = true |- _ => apply negb_true_iff in H
    | H : negb _ = false |- _ => apply negb_false_iff in H
    end.

(** Case analysis on whatever test or lookup a node is stuck on. *)
Ltac split_node :=
  repeat match goal with
    | |- context [match ?x with _ => _ end] =>
        lazymatch x with
        | context [match _ with _ => _ end] => fail
        | _ => destruct x eqn:?
        end; cbn in *
    end.

(** Unfolding one superstep down to the delta of the node that runs. *)
Ltac open_step :=
  unfold Graph.step;
  cbn [Graph.activate];
  unfold Graph.planNode, Graph.routerNode, Graph.successNode,
    Graph.finalizeNode, Nodes.navigateNode, Nodes.clickNode, Nodes.fillNode,
    Nodes.extractNode, Nodes.healNode, Nodes.repaired.

Ltac open_edge :=
  cbn [fst snd Graph.edge];
  unfold Graph.afterRouter, Graph.afterExecutor, Graph.afterHeal.

(** ** Indexing *)

Lemma index_last {A : Type} (front : list A) (x : A) :
  JS.index (front ++ [x]) (JS.length (front ++ [x]) - 1) = Some x.
Proof.
  unfold JS.index, JS.length.
  rewrite length_app; simpl List.length.
  destruct (Z.ltb_spec (Z.of_nat (List.length front + 1) - 1) 0) as [H | H]; [lia |].
  replace (Z.to_nat (Z.of_nat (List.length front + 1) - 1)) with (List.length front) by lia.
  rewrite nth_error_app2 by lia.
  now rewrite Nat.sub_diag.
Qed.

Lemma index_last_nil {A : Type} :
  JS.index (@nil A) (JS.length (@nil A) - 1) = None.
Proof. reflexivity. Qed.

Lemma list_snoc_cases {A : Type} (l : list A) :
  l = [] \/ exists front x, l = front ++ [x].
Proof.
  destruct l as [| a l] using rev_ind; [now left | right; eauto].
Qed.

Lemma keyCount_positive (o : JS.Obj) : (0 <? JS.keyCount o) = true <-> o <> [].
Proof.
  unfold JS.keyCount, JS.length.
  destruct o as [| p o]; simpl List.length.
  - split; [discriminate | congruence].
  - split; [discriminate | intros _; apply Z.ltb_lt; lia].
Qed.

(** ** The finalize node *)

Lemma lastStepSucceeded_spec (s : State.t) :
  Graph.lastStepSucceeded s = true <-> lastRecordedSucceeded s.
Proof.
  unfold Graph.lastStepSucceeded, lastRecordedSucceeded.
  destruct (list_snoc_cases (State.results s)) as [E | (front & r & E)]; rewrite E.
  - rewrite index_last_nil. split; [discriminate |].
    intros (f & r & H & _). now destruct f.
  - rewrite index_last. split.
    + intros H. now exists front, r.
    + intros (f & r' & H & Hs). apply app_inj_tail in H as [_ <-]. exact Hs.
Qed.

(** C1.  The finalize transition ends the run with a task result whose
    [success] flag is true exactly when the cursor reached [totalSteps], or
    the last recorded step result succeeded and the extracted data is not
    empty.  In particular: cursor = totalSteps with no extracted data gives
    true; cursor < totalSteps with no data and a failed last step gives
    false. *)
Theorem finalize_success_rule (context : Graph.AgentContext) (w : World.t) (s : State.t) :
  exists result,
    Graph.runResult (Graph.step context w (Node.finalize, s)) = Some result /\
    (TaskResult.success result = true <->
       State.totalSteps s <= State.currentStep s \/
       (lastRecordedSucceeded s /\ State.extractedData s <> [])) /\
    (State.currentStep s = State.totalSteps s -> State.extractedData s = [] ->
       TaskResult.success result = true) /\
    (State.currentStep s < State.totalSteps s -> State.extractedData s = [] ->
       ~ lastRecordedSucceeded s -> TaskResult.success result = false).
Proof.
  exists (Graph.finalResultOf s).
  assert (Hiff : TaskResult.success (Graph.finalResultOf s) = true <->
                 State.totalSteps s <= State.currentStep s \/
                 (lastRecordedSucceeded s /\ State.extractedData s <> [])).
  { cbn [Graph.finalResultOf TaskResult.success].
    rewrite orb_true_iff, andb_true_iff, Z.leb_le,
      lastStepSucceeded_spec, keyCount_positive.
    reflexivity. }
  split; [reflexivity |].
  split; [exact Hiff |].
  split.
  - intros Hc _. apply Hiff. left. lia.
  - intros Hc He Hl. apply not_true_is_false. intros E.
    apply Hiff in E as [H | [H _]]; [lia | exact (Hl H)].
Qed.

Lemma finalize_success_rule_witness :
  exists result,
    Graph.runResult (Graph.step threeRetries World.calm (Node.finalize, noData))
    = Some result /\
    TaskResult.success result = true.
Proof.
  destruct (finalize_success_rule threeRetries World.calm noData)
    as (result & Hr & _ & Hfull & _).
  exists result. split; [exact Hr |].
  apply Hfull; reflexivity.
Defined.

(** ** Invariants of a run *)

Lemma reachable_ind (context : Graph.AgentContext) (P : Graph.Config -> Prop) :
  (forall task, P (Graph.start task)) ->
  (forall w c, P c -> P (Graph.step context w c)) ->
  forall c, Graph.reachable context c -> P c.
Proof.
  intros Hstart Hstep c (task & ws & <-).
  unfold Graph.invoke. generalize (Hstart task). generalize (Graph.start task).
  induction ws as [| w ws IH]; intros c Hc; [exact Hc |].
  apply IH, Hstep, Hc.
Qed.

Lemma flag_reachable (context : Graph.AgentContext) (c : Graph.Config) :
  Graph.reachable context c -> flagAt (fst c) (snd c).
Proof.
  revert c. apply reachable_ind; [reflexivity |].
  intros w [n s]. cbn [fst snd]. intros Hf.
  destruct n; cbn [flagAt] in Hf;
    open_step; split_node; open_edge; cbn; split_node;
    cbn [flagAt]; assumption || reflexivity || exact I.
Qed.

Lemma counter_reachable (context : Graph.AgentContext) (c : Graph.Config) :
  1 <= HealingConfig.maxRetries context ->
  Graph.reachable context c -> counterAt context (fst c) (snd c).
Proof.
  intros Hmax. revert c. apply reachable_ind; [reflexivity |].
  intros w [n s]. cbn [fst snd]. intros Hc.
  destruct n; cbn [counterAt] in Hc;
    open_step; split_node; open_edge; cbn; split_node; reflect_tests;
    cbn [counterAt]; assumption || lia.
Qed.

(** ** Routing *)

(** C10.  When the planner answers with an empty action list, the run goes
    plan, router, finalize and ends: the result has [success = true], no
    steps, no extracted data, no healing attempts, duration 0 (and no
    screenshots), whatever the healing configuration and the task. *)
Theorem empty_plan_finalizes
    (context : Graph.AgentContext) (task : string) (w1 w2 w3 : World.t) :
  World.planTask w1 = Some [] ->
  fst (Graph.invoke context task [w1]) = Node.router /\
  fst (Graph.invoke context task [w1; w2]) = Node.finalize /\
  fst (Graph.invoke context task [w1; w2; w3]) = Node.END /\
  Graph.runResult (Graph.invoke context task [w1; w2; w3])
  = Some (TaskResult.mk true (Some []) [] [] 0 []).
Proof.
  intros Hplan.
  unfold Graph.invoke, Graph.run, Graph.start, Graph.step.
  cbn [fold_left Graph.activate].
  unfold Graph.planNode. rewrite Hplan.
  repeat split; reflexivity.
Qed.

Lemma empty_plan_finalizes_witness :
  Graph.runResult
    (Graph.invoke threeRetries "do nothing" [World.planning []; World.calm; World.calm])
  = Some (TaskResult.mk true (Some []) [] [] 0 []).
Proof.
  apply (empty_plan_finalizes threeRetries "do nothing"
           (World.planning []) World.calm World.calm).
  reflexivity.
Defined.

(** C9.  A planned action of type wait or screenshot is not executed: in
    every run that has the router pick such an action, the router's
    default branch leads to the success node, and the router is re-entered
    with the cursor advanced, no step result appended and no channel fed
    from the browser touched, in whatever world the two nodes run; an
    action of an unknown type is treated in exactly the same way. *)
Theorem wait_and_screenshot_are_skipped
    (context : Graph.AgentContext) (w1 w2 : World.t) (s : State.t) (a : Action.t) :
  Graph.reachable context (Node.router, s) ->
  State.currentStep s < State.totalSteps s ->
  JS.index (State.actions s) (State.currentStep s) = Some a ->
  hasNoExecutor (Action.type a) ->
  fst (Graph.step context w1 (Node.router, s)) = Node.success /\
  Graph.run context [w1; w2] (Node.router, s) = (Node.router, skipped s a).
Proof.
  intros Hreach Hlt Hat Hno.
  apply flag_reachable in Hreach as Hdone.
  cbn [fst snd flagAt] in Hdone.
  unfold Graph.run, Graph.step.
  cbn [fold_left Graph.activate].
  unfold Graph.routerNode.
  destruct (Z.leb_spec (State.totalSteps s) (State.currentStep s)) as [H | _]; [lia |].
  rewrite Hat.
  cbn [Graph.edge].
  assert (Hedge : Graph.afterRouter
                    (State.apply s [State.CurrentAction (Some a); State.NeedsHealing false])
                  = Node.success).
  { unfold Graph.afterRouter. cbn. rewrite Hdone.
    destruct Hno as [E | [E | [name E]]]; rewrite E; reflexivity. }
  rewrite Hedge. split; reflexivity.
Qed.

Lemma wait_and_screenshot_are_skipped_witness :
  Graph.run threeRetries [World.failing "offline"; World.failing "offline"] newsPlanned
  = (Node.router, skipped (snd newsPlanned) waitForLoad).
Proof.
  apply (wait_and_screenshot_are_skipped threeRetries
           (World.failing "offline") (World.failing "offline")
           (snd newsPlanned) waitForLoad).
  - exists "read the news", [World.planning [waitForLoad; extractHeadlines]]. reflexivity.
  - vm_compute. reflexivity.
  - reflexivity.
  - left. reflexivity.
Defined.

(** ** The retry counter *)

Lemma cursor_step (context : Graph.AgentContext) (w : World.t) (c : Graph.Config) :
  fst c <> Node.plan ->
  fst (Graph.step context w c) <> Node.plan /\
  State.currentStep (snd c) <= State.currentStep (snd (Graph.step context w c)) /\
  (fst c = Node.success ->
   State.currentStep (snd (Graph.step context w c)) = State.currentStep (snd c) + 1).
Proof.
  destruct c as [n s]. cbn [fst snd]. intros Hn.
  destruct n; try congruence;
    open_step; split_node; open_edge; cbn; split_node;
    repeat split; try discriminate; try lia.
Qed.

Lemma cursor_run (context : Graph.AgentContext) (ws : list World.t) (c : Graph.Config) :
  fst c <> Node.plan ->
  State.currentStep (snd c) <= State.currentStep (snd (Graph.run context ws c)).
Proof.
  revert c. induction ws as [| w ws IH]; intros c Hn; [cbn; lia |].
  cbn [Graph.run fold_left].
  destruct (cursor_step context w c Hn) as (Hn' & Hle & _).
  specialize (IH _ Hn'). unfold Graph.run in IH. lia.
Qed.

Lemma exhausted_step (context : Graph.AgentContext) (w : World.t) (s : State.t) :
  HealingConfig.maxRetries context <= State.healingAttempts s ->
  Graph.step context w (Node.heal, s)
  = (Node.success, State.apply s (exhaustedDelta s (World.now w))).
Proof.
  intros Hmax. open_step.
  destruct (Z.leb_spec (HealingConfig.maxRetries context) (State.healingAttempts s)); [| lia].
  open_edge. cbn. now rewrite orb_true_r.
Qed.

Lemma signalled_failure_counts (context : Graph.AgentContext) (w : World.t)
    (n : Node.t) (s : State.t) :
  n = Node.click \/ n = Node.fill \/ n = Node.heal ->
  fst (Graph.step context w (n, s)) <> Node.REJECTED ->
  State.needsHealing (snd (Graph.step context w (n, s))) = true ->
  State.healingAttempts (snd (Graph.step context w (n, s))) = State.healingAttempts s + 1.
Proof.
  intros [-> | [-> | ->]];
    open_step; split_node; open_edge; cbn; split_node;
    intros; try discriminate; try reflexivity; try congruence.
Qed.

(** C2.  With [maxRetries] between 1 and 10, the retry counter of every
    reachable run state is at most [maxRetries].  When the heal node runs
    with the counter at the ceiling it only logs an [exhausted] attempt and
    clears the healing flag, looking at nothing in its world but the clock;
    the run moves to the success node, and every later activation of the
    heal node belongs to a later step.  A click, fill or heal activation
    that signals [needsHealing] has raised the counter by one. *)
Theorem healing_counter_bounded (context : Graph.AgentContext) (c : Graph.Config) :
  HealingConfig.valid context ->
  Graph.reachable context c ->
  State.healingAttempts (snd c) <= HealingConfig.maxRetries context /\
  (fst c = Node.heal ->
   HealingConfig.maxRetries context <= State.healingAttempts (snd c) ->
   forall w,
     Graph.step context w c
     = (Node.success, State.apply (snd c) (exhaustedDelta (snd c) (World.now w))) /\
     forall ws,
       fst (Graph.run context ws (Graph.step context w c)) = Node.heal ->
       State.currentStep (snd c)
       < State.currentStep (snd (Graph.run context ws (Graph.step context w c)))) /\
  (fst c = Node.click \/ fst c = Node.fill \/ fst c = Node.heal ->
   forall w,
     fst (Graph.step context w c) <> Node.REJECTED ->
     State.needsHealing (snd (Graph.step context w c)) = true ->
     State.healingAttempts (snd (Graph.step context w c))
     = State.healingAttempts (snd c) + 1).
Proof.
  intros [Hlow _] Hreach.
  pose proof (counter_reachable context c Hlow Hreach) as Hcount.
  destruct c as [n s]. cbn [fst snd] in *.
  split; [destruct n; cbn [counterAt] in Hcount; lia |].
  split.
  - intros -> Hceil w.
    rewrite (exhausted_step context w s Hceil).
    split; [reflexivity |].
    intros ws Hheal.
    destruct ws as [| w' ws]; [discriminate Hheal |].
    cbn [Graph.run fold_left] in *.
    set (c1 := (Node.success, State.apply s (exhaustedDelta s (World.now w)))) in *.
    destruct (cursor_step context w' c1) as (Hn & _ & Hinc); [discriminate |].
    specialize (Hinc eq_refl).
    pose proof (cursor_run context ws (Graph.step context w' c1) Hn) as Hle.
    unfold Graph.run in Hle.
    assert (State.currentStep (snd c1) = State.currentStep s) by reflexivity.
    lia.
  - intros Hn w. apply signalled_failure_counts. exact Hn.
Qed.

Lemma healing_counter_bounded_witness :
  State.healingAttempts (snd atCeiling) <= 1 /\
  Graph.step oneRetry World.calm atCeiling
  = (Node.success, State.apply (snd atCeiling) (exhaustedDelta (snd atCeiling) 0)).
Proof.
  assert (Hvalid : HealingConfig.valid oneRetry) by (unfold HealingConfig.valid; cbn; lia).
  assert (Hreach : Graph.reachable oneRetry atCeiling).
  { exists "search cats",
      [World.planning [fillSearch]; World.calm; World.failing "no such input"].
    reflexivity. }
  destruct (healing_counter_bounded oneRetry atCeiling Hvalid Hreach) as (Hle & Hex & _).
  split; [exact Hle |].
  apply (Hex eq_refl); vm_compute; discriminate.
Defined.

(** ** Re-dispatch after healing *)

(** With retries left and the healing flag up, the edge out of [heal]
    leads back to the executor for click and fill, and to the success node
    for every other action type. *)
Lemma heal_redispatch (context : Graph.AgentContext) (s : State.t) (a : Action.t) :
  State.needsHealing s = true ->
  State.healingAttempts s < HealingConfig.maxRetries context ->
  State.currentAction s = Some a ->
  Graph.afterHeal context s
  = match Action.type a with
    | Click => Node.click
    | Fill => Node.fill
    | _ => Node.success
    end.
Proof.
  intros Hflag Hleft Hact. unfold Graph.afterHeal.
  rewrite Hflag, Hact.
  destruct (Z.leb_spec (HealingConfig.maxRetries context) (State.healingAttempts s)); [lia |].
  reflexivity.
Qed.

(** C3, evaluated.  An extract (and likewise a navigate) fails once, the
    heal node finds a candidate with confidence 0.9 and puts the repaired
    action in [currentAction] with the healing flag up and one of three
    retries used; the run then stands at the success node, not at the
    executor of the failed action.  The same worlds around a fill lead
    back to the fill executor. *)
Theorem healed_extract_and_navigate_are_not_retried :
  (fst (failThenHeal extractHeadlines headlineList) = Node.success /\
   State.currentAction (snd (failThenHeal extractHeadlines headlineList))
   = Some (Action.withTarget extractHeadlines "ul.headlines") /\
   State.needsHealing (snd (failThenHeal extractHeadlines headlineList)) = true /\
   State.healingAttempts (snd (failThenHeal extractHeadlines headlineList)) = 1 /\
   map HealingAttempt.strategy
     (State.healingHistory (snd (failThenHeal extractHeadlines headlineList)))
   = ["vision-redetection"]) /\
  (fst (failThenHeal openSite headlineList) = Node.success /\
   State.currentAction (snd (failThenHeal openSite headlineList))
   = Some (Action.withTarget openSite "ul.headlines") /\
   State.needsHealing (snd (failThenHeal openSite headlineList)) = true /\
   State.healingAttempts (snd (failThenHeal openSite headlineList)) = 1) /\
  fst (failThenHeal fillSearch queryBox) = Node.fill.
Proof. vm_compute. repeat split; reflexivity. Qed.

(** ** Step results and healing attempts per plan step *)

Lemma run_snoc (context : Graph.AgentContext) (ws : list World.t) (w : World.t)
    (c : Graph.Config) :
  Graph.run context (ws ++ [w]) c = Graph.step context w (Graph.run context ws c).
Proof. unfold Graph.run. now rewrite fold_left_app. Qed.

Lemma visited_snoc (context : Graph.AgentContext) (ws : list World.t) (w : World.t)
    (c : Graph.Config) :
  visited context (ws ++ [w]) c
  = visited context ws c ++ [fst (Graph.run context ws c)].
Proof.
  revert c. induction ws as [| w' ws IH]; intros c; [reflexivity |].
  cbn [app visited]. now rewrite IH.
Qed.

Lemma healingCycles_snoc (context : Graph.AgentContext) (ws : list World.t)
    (w : World.t) (c : Graph.Config) :
  healingCycles context (ws ++ [w]) c
  = (healingCycles context ws c
     + if isHeal (fst (Graph.run context ws c)) then 1 else 0)%nat.
Proof.
  unfold healingCycles. rewrite visited_snoc, filter_app, length_app.
  cbn [filter]. now destruct (isHeal _).
Qed.

Lemma guarded_some (same : ActionType -> bool) (s : State.t) (a : Action.t) :
  Nodes.guarded same s = Some a ->
  State.currentAction s = Some a /\ same (Action.type a) = true /\
  JS.truthy (Action.target a) = true.
Proof.
  unfold Nodes.guarded.
  destruct (State.currentAction s) as [a' |]; [| discriminate].
  destruct (same (Action.type a') && JS.truthy (Action.target a')) eqn:E; [| discriminate].
  intros [= <-]. apply andb_true_iff in E. tauto.
Qed.

Ltac count_entries :=
  cbn [tally fst snd] in *; unfold added in *;
  cbn [State.apply State.results State.healingHistory State.currentAction
       State.appended State.replaced fold_left] in *;
  repeat rewrite length_app in *; cbn [List.length] in *.

(** One more failed attempt at the end of the results. *)
Lemma failedSince_snoc (c0 : Graph.Config) (n n' : Node.t) (s s' : State.t)
    (r : StepResult.t) (m m' : nat) :
  failedSince c0 (n, s) m ->
  State.results s' = State.results s ++ [r] ->
  StepResult.success r = false ->
  m' = (m + 1)%nat ->
  failedSince c0 (n', s') m'.
Proof.
  intros (failed & Hres & Hlen & Hall) Hs' Hr ->.
  exists (failed ++ [r]). cbn [snd] in *.
  rewrite Hs', Hres, app_assoc, length_app. cbn [List.length].
  repeat split; [lia |].
  apply Forall_app. split; [exact Hall | repeat constructor; exact Hr].
Qed.

(** The failed attempts stay as they are while the results do. *)
Lemma failedSince_keep (c0 : Graph.Config) (n n' : Node.t) (s s' : State.t) (m m' : nat) :
  failedSince c0 (n, s) m ->
  State.results s' = State.results s ->
  m' = m ->
  failedSince c0 (n', s') m'.
Proof.
  intros (failed & Hres & Hlen & Hall) Hs' ->.
  exists failed. cbn [snd] in *. rewrite Hs'. auto.
Qed.

Lemma tally_step (context : Graph.AgentContext) (w : World.t)
    (c0 c : Graph.Config) (m : nat) :
  tally c0 m c ->
  fst c <> Node.success ->
  tally c0 (m + if isHeal (fst c) then 1 else 0) (Graph.step context w c).
Proof.
  destruct c as [n s]. cbn [fst snd]. intros Ht Hn.
  destruct n; cbn [tally fst snd] in Ht; try contradiction; try congruence;
    cbn [isHeal].
  (* the four executors *)
  1-4: destruct Ht as [Hr Hh];
       open_step; split_node; open_edge; cbn [State.apply State.needsHealing
         State.replaced fold_left]; cbn [tally fst snd];
       try exact I;
       (split;
        [ eapply failedSince_snoc; [exact Hr | reflexivity | reflexivity | lia]
        | count_entries; split; [lia |];
          match goal with
          | G : Nodes.guarded _ _ = Some ?a |- _ =>
              apply guarded_some in G as (G1 & _ & G2); exists a; split; assumption
          end ]).
  (* the heal node *)
  - destruct Ht as (Hr & Hh & a & Ha & Htarget).
    open_step. rewrite Ha, Htarget. cbn [negb].
    split_node; open_edge; cbn; split_node; cbn [tally fst snd];
      try exact I;
      (split;
       [ eapply failedSince_keep; [exact Hr | reflexivity | lia]
       | count_entries; lia ]).
  (* a rejected run stays rejected *)
  - exact I.
Qed.

Lemma tally_run (context : Graph.AgentContext) (ws : list World.t) (c0 : Graph.Config) :
  Node.isExecutor (fst c0) = true ->
  Forall (fun n => n <> Node.success) (visited context ws c0) ->
  tally c0 (healingCycles context ws c0) (Graph.run context ws c0).
Proof.
  intros Hstart.
  induction ws as [| w ws IH] using rev_ind; intros Hpath.
  - cbn. destruct c0 as [[] s]; try discriminate Hstart; cbn;
      (split; [exists []; rewrite app_nil_r; repeat split; constructor
              | unfold added; lia]).
  - rewrite visited_snoc in Hpath. apply Forall_app in Hpath as [Hpath Hlast].
    apply Forall_inv in Hlast.
    rewrite run_snoc, healingCycles_snoc.
    apply tally_step; [apply IH, Hpath | exact Hlast].
Qed.

(** What an executor records on its way to the success node is a success:
    the failure branches all raise the healing flag, which leads to the
    heal node. *)
Lemma executor_verdict (context : Graph.AgentContext) (w : World.t) (c : Graph.Config)
    (r : StepResult.t) :
  Node.isExecutor (fst c) = true ->
  fst (Graph.step context w c) = Node.success ->
  State.results (snd (Graph.step context w c)) = State.results (snd c) ++ [r] ->
  StepResult.success r = true.
Proof.
  destruct c as [n s]. cbn [fst snd]. intros Hn.
  destruct n; try discriminate Hn; open_step; split_node; open_edge;
    cbn [State.apply State.needsHealing State.results State.replaced State.appended
         fold_left fst snd];
    intros Hnext Hres; try discriminate Hnext;
    try (apply app_inv_head in Hres; injection Hres as <-; reflexivity);
    exfalso; apply (f_equal (@List.length _)) in Hres; rewrite length_app in Hres;
    cbn [List.length] in Hres; lia.
Qed.

Lemma executor_keeps_history (context : Graph.AgentContext) (w : World.t) (c : Graph.Config) :
  Node.isExecutor (fst c) = true ->
  State.healingHistory (snd (Graph.step context w c)) = State.healingHistory (snd c).
Proof.
  destruct c as [n s]. cbn [fst snd]. intros Hn.
  destruct n; try discriminate Hn; open_step; split_node; reflexivity.
Qed.

Lemma executor_keeps_cursor (context : Graph.AgentContext) (w : World.t) (c : Graph.Config) :
  Node.isExecutor (fst c) = true ->
  State.currentStep (snd (Graph.step context w c)) = State.currentStep (snd c).
Proof.
  destruct c as [n s]. cbn [fst snd]. intros Hn.
  destruct n; try discriminate Hn; open_step; split_node; reflexivity.
Qed.

(** The router sends an action that has an executor to that executor. *)
Lemma router_dispatch (context : Graph.AgentContext) (w : World.t) (s : State.t)
    (a : Action.t) :
  State.isComplete s = false ->
  State.currentStep s < State.totalSteps s ->
  JS.index (State.actions s) (State.currentStep s) = Some a ->
  hasExecutor (Action.type a) ->
  exists n,
    Graph.step context w (Node.router, s)
    = (n, State.apply s [State.CurrentAction (Some a); State.NeedsHealing false]) /\
    Node.isExecutor n = true /\
    Graph.activate context n
    = match Action.type a with
      | Navigate => fun w s => Nodes.navigateNode w s
      | Click => fun w s => Nodes.clickNode w s
      | Fill => fun w s => Nodes.fillNode w s
      | _ => fun w s => Nodes.extractNode w s
      end.
Proof.
  intros Hdone Hlt Hat Hhas.
  open_step.
  destruct (Z.leb_spec (State.totalSteps s) (State.currentStep s)) as [H | _]; [lia |].
  rewrite Hat. open_edge. cbn. rewrite Hdone.
  destruct Hhas as [E | [E | [E | E]]]; rewrite E; eexists; repeat split; reflexivity.
Qed.

(** An executor that runs on its own kind of action with a target and
    leaves the healing flag down has recorded one successful result. *)
Lemma quiet_executor_records_one (context : Graph.AgentContext) (w : World.t)
    (n : Node.t) (s : State.t) (a : Action.t) :
  State.currentAction s = Some a ->
  JS.truthy (Action.target a) = true ->
  Graph.activate context n
  = match Action.type a with
    | Navigate => fun w s => Nodes.navigateNode w s
    | Click => fun w s => Nodes.clickNode w s
    | Fill => fun w s => Nodes.fillNode w s
    | _ => fun w s => Nodes.extractNode w s
    end ->
  hasExecutor (Action.type a) ->
  Node.isExecutor n = true ->
  fst (Graph.step context w (n, s)) = Node.success ->
  exists r,
    State.results (snd (Graph.step context w (n, s))) = State.results s ++ [r] /\
    StepResult.action r = a /\ StepResult.success r = true.
Proof.
  intros Hact Htarget Hrun Hhas Hn.
  unfold Graph.step. rewrite Hrun.
  assert (Hedge : forall s', Graph.edge context n s' = Graph.afterExecutor s')
    by (intros s'; destruct n; try discriminate Hn; reflexivity).
  destruct Hhas as [E | [E | [E | E]]]; rewrite E;
    unfold Nodes.navigateNode, Nodes.clickNode, Nodes.fillNode, Nodes.extractNode,
      Nodes.guarded;
    rewrite Hact, E, Htarget; cbn [Nodes.isNavigate Nodes.isClick Nodes.isFill
      Nodes.isExtract andb];
    split_node; cbn [fst snd]; try rewrite Hedge; unfold Graph.afterExecutor; cbn;
    intros Hnext; try discriminate Hnext;
    eexists; repeat split; reflexivity.
Qed.

(** C4, as the code has it.  (1) In a run, a step whose action has an
    executor and a non-empty target, and whose executor returns without
    signalling [needsHealing], adds exactly one step result (a successful
    one, for that action) and no healing attempt before the router is
    entered again with the cursor advanced.  (2) From the first activation
    of a step's executor on, as long as the success node has not been
    reached: if after [m] healing cycles an executor activation records a
    result [r] and hands over to the success node, then what the step has
    added to the results is [m] failed attempts followed by [r], [r] is a
    success, and the step has added [m] healing attempts to the history. *)
Theorem step_result_accounting (context : Graph.AgentContext) :
  (forall (w1 w2 w3 : World.t) (s : State.t) (a : Action.t),
     Graph.reachable context (Node.router, s) ->
     State.currentStep s < State.totalSteps s ->
     JS.index (State.actions s) (State.currentStep s) = Some a ->
     hasExecutor (Action.type a) ->
     JS.truthy (Action.target a) = true ->
     fst (Graph.run context [w1; w2] (Node.router, s)) = Node.success ->
     exists r,
       fst (Graph.run context [w1; w2; w3] (Node.router, s)) = Node.router /\
       State.results (snd (Graph.run context [w1; w2; w3] (Node.router, s)))
       = State.results s ++ [r] /\
       StepResult.action r = a /\ StepResult.success r = true /\
       State.healingHistory (snd (Graph.run context [w1; w2; w3] (Node.router, s)))
       = State.healingHistory s /\
       State.currentStep (snd (Graph.run context [w1; w2; w3] (Node.router, s)))
       = State.currentStep s + 1) /\
  (forall (ws : list World.t) (w : World.t) (c0 : Graph.Config) (r : StepResult.t),
     Node.isExecutor (fst c0) = true ->
     Forall (fun n => n <> Node.success) (visited context ws c0) ->
     Node.isExecutor (fst (Graph.run context ws c0)) = true ->
     fst (Graph.step context w (Graph.run context ws c0)) = Node.success ->
     State.results (snd (Graph.step context w (Graph.run context ws c0)))
     = State.results (snd (Graph.run context ws c0)) ++ [r] ->
     (exists failed,
        State.results (snd (Graph.step context w (Graph.run context ws c0)))
        = State.results (snd c0) ++ failed ++ [r] /\
        List.length failed = healingCycles context ws c0 /\
        allFailed failed) /\
     StepResult.success r = true /\
     added (State.results (snd (Graph.step context w (Graph.run context ws c0))))
       (State.results (snd c0)) (healingCycles context ws c0 + 1) /\
     added (State.healingHistory (snd (Graph.step context w (Graph.run context ws c0))))
       (State.healingHistory (snd c0)) (healingCycles context ws c0)).
Proof.
  split.
  - intros w1 w2 w3 s a Hreach Hlt Hat Hhas Htarget Hquiet.
    apply flag_reachable in Hreach as Hdone.
    cbn [fst snd flagAt] in Hdone.
    destruct (router_dispatch context w1 s a Hdone Hlt Hat Hhas)
      as (n & Hstep & Hn & Hrun).
    unfold Graph.run in *. cbn [fold_left] in *. rewrite Hstep in *.
    set (s1 := State.apply s [State.CurrentAction (Some a); State.NeedsHealing false]) in *.
    destruct (quiet_executor_records_one context w2 n s1 a eq_refl Htarget Hrun Hhas Hn Hquiet)
      as (r & Hres & Hra & Hrs).
    pose proof (executor_keeps_history context w2 (n, s1) Hn) as Hhist.
    pose proof (executor_keeps_cursor context w2 (n, s1) Hn) as Hcur.
    destruct (Graph.step context w2 (n, s1)) as [n2 s2] eqn:E2.
    cbn [fst snd] in *. subst n2.
    exists r. cbn. rewrite Hres, Hhist, Hcur.
    repeat split; assumption || reflexivity.
  - intros ws w c0 r Hstart Hpath Hexec Hnext Hres.
    pose proof (tally_run context ws c0 Hstart Hpath) as Ht.
    pose proof (executor_keeps_history context w _ Hexec) as Hhist.
    pose proof (executor_verdict context w _ r Hexec Hnext Hres) as Hok.
    assert (Hsince : failedSince c0 (Graph.run context ws c0) (healingCycles context ws c0) /\
                     added (State.healingHistory (snd (Graph.run context ws c0)))
                       (State.healingHistory (snd c0)) (healingCycles context ws c0)).
    { destruct (Graph.run context ws c0) as [n s]. cbn [fst snd] in *.
      destruct n; try discriminate Hexec; exact Ht. }
    destruct Hsince as [(failed & Hfailed & Hlen & Hall) Hh].
    split; [| split; [exact Hok | split]].
    + exists failed. rewrite Hres, Hfailed, app_assoc. auto.
    + unfold added. rewrite Hres, Hfailed, !length_app. cbn [List.length]. lia.
    + unfold added in *. rewrite Hhist. exact Hh.
Qed.

(** One failed fill, one healing cycle, one successful fill: the results
    grow by the failed attempt and then the success, the history by one
    healing attempt; and a later step that runs without healing adds one
    result. *)
Lemma step_result_accounting_witness :
  (exists failed r,
     State.results
       (snd (Graph.run threeRetries
               [World.failing "no such input"; World.seeing queryBox; World.calm]
               fillAboutToRun))
     = State.results (snd fillAboutToRun) ++ failed ++ [r] /\
     List.length failed = 1%nat /\ allFailed failed /\ StepResult.success r = true) /\
  added (State.healingHistory
           (snd (Graph.run threeRetries
                   [World.failing "no such input"; World.seeing queryBox; World.calm]
                   fillAboutToRun)))
    (State.healingHistory (snd fillAboutToRun)) 1 /\
  exists r,
    State.results (snd (Graph.run threeRetries [World.calm; World.calm; World.calm]
                          (Graph.invoke threeRetries "search cats"
                             [World.planning [fillSearch]])))
    = [r].
Proof.
  destruct (step_result_accounting threeRetries) as [Hone Hmany].
  assert (H2 := Hmany [World.failing "no such input"; World.seeing queryBox] World.calm
                  fillAboutToRun
                  (StepResult.mk (Action.withTarget fillSearch "#q") true None 0
                     (Some "png") true)).
  cbv beta in H2.
  destruct H2 as ((failed & Hres & Hlen & Hall) & Hok & _ & Hh).
  - reflexivity.
  - vm_compute. repeat constructor; discriminate.
  - vm_compute. reflexivity.
  - vm_compute. reflexivity.
  - vm_compute. reflexivity.
  - split; [| split; [exact Hh |]].
    + exists failed.
      exists (StepResult.mk (Action.withTarget fillSearch "#q") true None 0
                (Some "png") true).
      repeat split; assumption.
    + destruct (Hone World.calm World.calm World.calm
                  (snd (Graph.invoke threeRetries "search cats" [World.planning [fillSearch]]))
                  fillSearch) as (r & _ & Hres1 & _).
      * exists "search cats", [World.planning [fillSearch]]. reflexivity.
      * vm_compute. reflexivity.
      * reflexivity.
      * right. right. left. reflexivity.
      * reflexivity.
      * vm_compute. reflexivity.
      * exists r. exact Hres1.
Defined.

(** C4 as stated fails.  The click executor runs on an action without
    target, returns without signalling [needsHealing], and the step leaves
    no step result behind.  And a step can go through a healing cycle and
    see its executor return without [needsHealing] while the only result it
    leaves is the failed one: the heal node accepts a candidate whose
    selector is empty, and the fill executor then stops at its guard. *)
Lemma targetless_step_records_nothing :
  visited threeRetries targetlessWorlds (Graph.start "press it")
  = [Node.plan; Node.router; Node.click; Node.success; Node.router; Node.finalize] /\
  fst (Graph.invoke threeRetries "press it" targetlessWorlds) = Node.END /\
  State.results (snd (Graph.invoke threeRetries "press it" targetlessWorlds)) = [] /\
  State.healingHistory (snd (Graph.invoke threeRetries "press it" targetlessWorlds)) = [] /\
  ~ (exists r, State.results (snd (Graph.invoke threeRetries "press it" targetlessWorlds))
               = [r]) /\
  visited threeRetries blankRepairWorlds (Graph.start "search cats")
  = [Node.plan; Node.router; Node.fill; Node.heal; Node.fill; Node.success;
     Node.router; Node.finalize] /\
  fst (Graph.invoke threeRetries "search cats" blankRepairWorlds) = Node.END /\
  map StepResult.success
    (State.results (snd (Graph.invoke threeRetries "search cats" blankRepairWorlds)))
  = [false] /\
  map HealingAttempt.strategy
    (State.healingHistory (snd (Graph.invoke threeRetries "search cats" blankRepairWorlds)))
  = ["vision-redetection"].
Proof.
  vm_compute.
  repeat split; try reflexivity.
  intros [r H]. discriminate H.
Qed.

(** ** pass@k on raw attempts *)

Lemma existsb_firstn (l : list bool) (n : nat) :
  existsb (fun success => success) (firstn n l) = true <->
  exists i, (i < n)%nat /\ nth_error l i = Some true.
Proof.
  revert n. induction l as [| b l IH]; intros n.
  - rewrite firstn_nil. cbn. split; [discriminate |].
    intros (i & _ & H). now destruct i.
  - destruct n as [| n]; cbn [firstn existsb].
    + split; [discriminate | intros (i & H & _); lia].
    + rewrite orb_true_iff, IH. split.
      * intros [-> | (i & Hi & Hn)].
        -- exists 0%nat. split; [lia | reflexivity].
        -- exists (S i). split; [lia | exact Hn].
      * intros ([| i] & Hi & Hn).
        -- left. now injection Hn.
        -- right. exists i. split; [lia | exact Hn].
Qed.

Lemma slice0_nonneg {A : Type} (xs : list A) (k : Z) :
  0 <= k -> JS.slice0 xs k = firstn (Z.to_nat k) xs.
Proof.
  intros Hk. unfold JS.slice0, JS.length.
  destruct (Z.ltb_spec k 0) as [H | _]; [lia |].
  destruct (Z.le_ge_cases k (Z.of_nat (List.length xs))) as [H | H].
  - now rewrite Z.min_l.
  - rewrite Z.min_r by exact H. rewrite Nat2Z.id.
    rewrite firstn_all. symmetry. apply firstn_all2. lia.
Qed.

Lemma calculatePassAtK_spec (results : list bool) (k : Z) :
  0 <= k ->
  Metrics.calculatePassAtK results k = true <-> someOfFirst results k.
Proof.
  intros Hk. unfold Metrics.calculatePassAtK, JS.some, someOfFirst.
  rewrite slice0_nonneg by exact Hk. rewrite existsb_firstn.
  unfold JS.index. split.
  - intros (i & Hi & Hn). exists (Z.of_nat i). split; [lia |].
    destruct (Z.ltb_spec (Z.of_nat i) 0); [lia |]. now rewrite Nat2Z.id.
  - intros (i & Hi & Hn).
    destruct (Z.ltb_spec i 0); [discriminate |].
    exists (Z.to_nat i). split; [lia | exact Hn].
Qed.

(** C6, as the code has it.  For a count [k >= 0], [calculatePassAtK] is
    true exactly when some element among the first [k] attempts is true,
    and so for [0 <= k1 <= k2] a pass at [k1] is a pass at [k2]. *)
Theorem passAtK_monotone (results : list bool) (k1 k2 : Z) :
  0 <= k1 -> k1 <= k2 ->
  (Metrics.calculatePassAtK results k1 = true ->
   Metrics.calculatePassAtK results k2 = true) /\
  (Metrics.calculatePassAtK results k1 = true <-> someOfFirst results k1) /\
  (Metrics.calculatePassAtK results k2 = true <-> someOfFirst results k2).
Proof.
  intros H1 H12.
  pose proof (calculatePassAtK_spec results k1 H1) as S1.
  pose proof (calculatePassAtK_spec results k2 (Z.le_trans _ _ _ H1 H12)) as S2.
  split; [| split; assumption].
  intros Hp. apply S2. apply S1 in Hp as (i & Hi & Hn).
  exists i. split; [lia | exact Hn].
Qed.

Lemma passAtK_monotone_witness :
  Metrics.calculatePassAtK [false; true; false] 2 = true /\
  Metrics.calculatePassAtK [false; true; false] 5 = true.
Proof.
  destruct (passAtK_monotone [false; true; false] 2 5) as (Hmono & _); [lia | lia |].
  split; [reflexivity | apply Hmono; reflexivity].
Defined.

(** C6 as stated fails below zero: [slice(0, -1)] drops the last attempt
    only, so a list passes at [k = -1] and not at [k = 0]. *)
Lemma passAtK_negative_k :
  -1 <= 0 /\
  Metrics.calculatePassAtK [true; false] (-1) = true /\
  Metrics.calculatePassAtK [true; false] 0 = false /\
  ~ someOfFirst [true; false] (-1).
Proof.
  repeat split; try reflexivity; try lia.
  intros (i & Hi & _). lia.
Qed.

(** ** The estimator of pass@k *)

Module DoubleFacts.
Import Double.

Lemma nearestEven_bounds (m : Q) : Qfloor m <= nearestEven m <= Qfloor m + 1.
Proof.
  unfold nearestEven.
  destruct (_ ?= _)%Q; [destruct (Z.even _) | |]; lia.
Qed.

Lemma nearestEven_comp (m1 m2 : Q) : (m1 == m2)%Q -> nearestEven m1 = nearestEven m2.
Proof.
  intros E. unfold nearestEven.
  rewrite (Qfloor_comp _ _ E).
  assert (E' : (m1 - inject_Z (Qfloor m2) == m2 - inject_Z (Qfloor m2))%Q)
    by (rewrite E; reflexivity).
  now rewrite (Qcompare_comp _ _ E' (1 # 2) (1 # 2) (Qeq_refl _)).
Qed.

Lemma nearestEven_Z (z : Z) : nearestEven (inject_Z z) = z.
Proof.
  unfold nearestEven. rewrite Qfloor_Z.
  assert (E : (inject_Z z - inject_Z z ?= 1 # 2)%Q = Lt).
  { apply Qlt_alt. setoid_replace (inject_Z z - inject_Z z)%Q with 0%Q by ring.
    reflexivity. }
  now rewrite E.
Qed.

Lemma nearestEven_mono (m1 m2 : Q) : (m1 <= m2)%Q -> nearestEven m1 <= nearestEven m2.
Proof.
  intros H.
  pose proof (Qfloor_resp_le _ _ H) as Hf.
  destruct (Z.eq_dec (Qfloor m1) (Qfloor m2)) as [E | N].
  - unfold nearestEven. rewrite E.
    destruct (Qcompare_spec (m1 - inject_Z (Qfloor m2)) (1 # 2)) as [H1 | H1 | H1];
      destruct (Qcompare_spec (m2 - inject_Z (Qfloor m2)) (1 # 2)) as [H2 | H2 | H2];
      try destruct (Z.even _); try lia; exfalso; lra.
  - pose proof (nearestEven_bounds m1). pose proof (nearestEven_bounds m2). lia.
Qed.

Lemma spacing_exponent (s : Q) : spacing s = 2 ^ exponent s.
Proof. reflexivity. Qed.

Lemma exponent_nonneg (s : Q) : 0 <= exponent s.
Proof. unfold exponent. lia. Qed.

Lemma spacing_pos (s : Q) : 0 < spacing s.
Proof. rewrite spacing_exponent. apply Z.pow_pos_nonneg; [lia | apply exponent_nonneg]. Qed.

Lemma exponent_mono (s1 s2 : Q) : (s1 <= s2)%Q -> exponent s1 <= exponent s2.
Proof.
  intros H. unfold exponent.
  pose proof (Z.log2_le_mono _ _ (Qfloor_resp_le _ _ H)). lia.
Qed.

Lemma inject_Z_pos (z : Z) : 0 < z -> (0 < inject_Z z)%Q.
Proof. intros H. change 0%Q with (inject_Z 0). now rewrite <- Zlt_Qlt. Qed.

Lemma inject_Z_nonzero (z : Z) : 0 < z -> ~ (inject_Z z == 0)%Q.
Proof.
  intros H C. apply inject_Z_pos in H. rewrite C in H. now apply Qlt_irrefl in H.
Qed.

(** Below the top of its binade. *)
Lemma below_binade_top (s : Q) : (0 <= s)%Q -> (s <= inject_Z (2 ^ 53 * spacing s))%Q.
Proof.
  intros Hs.
  assert (Hf : 0 <= Qfloor s).
  { change 0 with (Qfloor (inject_Z 0)). rewrite Qfloor_Z.
    rewrite <- (Qfloor_Z 0). now apply Qfloor_resp_le. }
  rewrite spacing_exponent, <- Z.pow_add_r by (try lia; apply exponent_nonneg).
  assert (Hlt : Qfloor s + 1 <= 2 ^ (53 + exponent s)).
  { destruct (Z.eq_dec (Qfloor s) 0) as [E | N].
    - rewrite E. pose proof (exponent_nonneg s).
      assert (2 ^ 0 <= 2 ^ (53 + exponent s)) by (apply Z.pow_le_mono_r; lia).
      change (2 ^ 0) with 1 in *. lia.
    - destruct (Z.log2_spec (Qfloor s)) as [_ Hup]; [lia |].
      assert (2 ^ Z.succ (Z.log2 (Qfloor s)) <= 2 ^ (53 + exponent s)).
      { apply Z.pow_le_mono_r; [lia |]. unfold exponent. lia. }
      lia. }
  apply Qlt_le_weak.
  apply Qlt_le_trans with (inject_Z (Qfloor s + 1)); [apply Qlt_floor |].
  now rewrite <- Zle_Qle.
Qed.

(** Above the bottom of its binade, for the normal numbers. *)
Lemma above_binade_bottom (s : Q) :
  0 < exponent s -> (inject_Z (2 ^ 52 * spacing s) <= s)%Q.
Proof.
  intros He.
  assert (E : exponent s = Z.log2 (Qfloor s) - 52) by (unfold exponent in *; lia).
  rewrite spacing_exponent, <- Z.pow_add_r by lia.
  assert (Hpos : 0 < Qfloor s).
  { destruct (Z_lt_le_dec 0 (Qfloor s)) as [H | H]; [exact H |].
    rewrite (Z.log2_nonpos _ H) in E. lia. }
  destruct (Z.log2_spec (Qfloor s) Hpos) as [Hlow _].
  replace (52 + exponent s) with (Z.log2 (Qfloor s)) by lia.
  apply Qle_trans with (inject_Z (Qfloor s)); [now rewrite <- Zle_Qle | apply Qfloor_le].
Qed.

Lemma nearestScaled_mono (s1 s2 : Q) :
  (0 <= s1)%Q -> (s1 <= s2)%Q -> nearestScaled s1 <= nearestScaled s2.
Proof.
  intros H0 H.
  pose proof (exponent_mono _ _ H) as He.
  pose proof (spacing_pos s1) as Hu1. pose proof (spacing_pos s2) as Hu2.
  unfold nearestScaled.
  destruct (Z.eq_dec (exponent s1) (exponent s2)) as [E | N].
  - rewrite !spacing_exponent, E. rewrite <- spacing_exponent.
    apply Z.mul_le_mono_nonneg_r; [lia |].
    apply nearestEven_mono.
    apply Qle_shift_div_l; [now apply inject_Z_pos |].
    setoid_replace (s1 / inject_Z (spacing s2) * inject_Z (spacing s2))%Q with s1; [exact H |].
    field. now apply inject_Z_nonzero.
  - assert (Hup : nearestEven (s1 / inject_Z (spacing s1)) <= 2 ^ 53).
    { rewrite <- (nearestEven_Z (2 ^ 53)). apply nearestEven_mono.
      apply Qle_shift_div_r; [now apply inject_Z_pos |].
      rewrite <- inject_Z_mult. now apply below_binade_top. }
    assert (Hlow : 2 ^ 52 <= nearestEven (s2 / inject_Z (spacing s2))).
    { rewrite <- (nearestEven_Z (2 ^ 52)) at 1. apply nearestEven_mono.
      apply Qle_shift_div_l; [now apply inject_Z_pos |].
      rewrite <- inject_Z_mult. apply above_binade_bottom.
      pose proof (exponent_nonneg s1). lia. }
    assert (Hpow : 2 ^ 53 * spacing s1 <= 2 ^ 52 * spacing s2).
    { rewrite !spacing_exponent, <- !Z.pow_add_r by (try lia; apply exponent_nonneg).
      apply Z.pow_le_mono_r; lia. }
    nia.
Qed.

Lemma nearestScaled_comp (s1 s2 : Q) : (s1 == s2)%Q -> nearestScaled s1 = nearestScaled s2.
Proof.
  intros E. unfold nearestScaled, spacing. rewrite (Qfloor_comp _ _ E).
  f_equal. apply nearestEven_comp. now rewrite E.
Qed.

Lemma nearestScaled_nonneg (s : Q) : (0 <= s)%Q -> 0 <= nearestScaled s.
Proof.
  intros H. unfold nearestScaled.
  pose proof (spacing_pos s) as Hu.
  assert (0 <= nearestEven (s / inject_Z (spacing s))).
  { rewrite <- (nearestEven_Z 0). apply nearestEven_mono.
    apply Qle_shift_div_l; [now apply inject_Z_pos |].
    change (inject_Z 0) with 0%Q. now rewrite Qmult_0_l. }
  nia.
Qed.

(** An integer number of grains that its own spacing divides is a double. *)
Lemma nearestScaled_fixed (S : Z) :
  (spacing (inject_Z S) | S) -> nearestScaled (inject_Z S) = S.
Proof.
  intros [q Hq]. unfold nearestScaled.
  pose proof (spacing_pos (inject_Z S)) as Hu.
  rewrite (nearestEven_comp _ (inject_Z q)); [rewrite nearestEven_Z; lia |].
  rewrite Hq at 1. rewrite inject_Z_mult. field.
  now apply inject_Z_nonzero.
Qed.

Lemma grain_pos : 0 < grain.
Proof. reflexivity. Qed.

Lemma safe_below_overflow : 2 ^ 53 * grain < overflow.
Proof. reflexivity. Qed.

Lemma grain_power : grain = 2 ^ 1074.
Proof. reflexivity. Qed.

Lemma nearest_scaled (x : Q) : nearest x = nearestScaled (x * inject_Z grain).
Proof. reflexivity. Qed.

Global Opaque grain overflow.

Lemma scale_nonneg (x : Q) : (0 <= x)%Q -> (0 <= x * inject_Z grain)%Q.
Proof.
  intros H. pose proof (inject_Z_pos _ grain_pos) as Hg.
  apply Qmult_le_0_compat; [exact H | now apply Qlt_le_weak].
Qed.

Lemma nearest_mono (x y : Q) : (0 <= x)%Q -> (x <= y)%Q -> nearest x <= nearest y.
Proof.
  intros H0 H. rewrite !nearest_scaled.
  apply nearestScaled_mono; [now apply scale_nonneg |].
  apply Qmult_le_compat_r; [exact H |].
  apply Qlt_le_weak, inject_Z_pos, grain_pos.
Qed.

Lemma nearest_nonneg (x : Q) : (0 <= x)%Q -> 0 <= nearest x.
Proof. intros H. rewrite nearest_scaled. now apply nearestScaled_nonneg, scale_nonneg. Qed.

Lemma nearest_comp (x y : Q) : (x == y)%Q -> nearest x = nearest y.
Proof. intros E. rewrite !nearest_scaled. apply nearestScaled_comp. now rewrite E. Qed.

Lemma grains_le (a b : Z) :
  a <= b -> (inject_Z a / inject_Z grain <= inject_Z b / inject_Z grain)%Q.
Proof.
  intros H. pose proof (inject_Z_pos _ grain_pos) as Hg.
  apply Qmult_le_compat_r; [now rewrite <- Zle_Qle |].
  now apply Qlt_le_weak, Qinv_lt_0_compat.
Qed.

Lemma grains_nonneg (a : Z) : 0 <= a -> (0 <= inject_Z a / inject_Z grain)%Q.
Proof.
  intros H. pose proof (grains_le 0 a H) as H'.
  unfold Qdiv in H' at 1. change (inject_Z 0) with 0%Q in H'.
  now rewrite Qmult_0_l in H'.
Qed.

Lemma round_comp (x y : Q) : (x == y)%Q -> round x = round y.
Proof.
  intros E. unfold round.
  rewrite (Qcompare_comp _ _ E 0%Q 0%Q (Qeq_refl _)).
  assert (E' : (- x == - y)%Q) by now rewrite E.
  now rewrite (nearest_comp _ _ E), (nearest_comp _ _ E').
Qed.

Lemma round_zero : round 0 = Finite 0.
Proof. reflexivity. Qed.

(** Rounding keeps the order. *)
Lemma round_mono (x y : Q) : (x <= y)%Q -> le (round x) (round y).
Proof.
  intros H. unfold round.
  destruct (Qcompare_spec x 0) as [Hx | Hx | Hx];
    destruct (Qcompare_spec y 0) as [Hy | Hy | Hy];
    try (exfalso; lra); cbv zeta.
  - cbn [le]. lra.
  - pose proof (nearest_nonneg y (Qlt_le_weak _ _ Hy)) as Hn.
    destruct (overflow <=? nearest y); cbn [le]; [exact I |].
    rewrite Qred_correct. now apply grains_nonneg.
  - assert (H0 : (0 <= - x)%Q) by lra.
    pose proof (nearest_nonneg _ H0) as Hn.
    destruct (overflow <=? nearest (- x)); cbn [le]; [exact I |].
    rewrite Qred_correct. pose proof (grains_nonneg _ Hn). lra.
  - assert (H0 : (0 <= - y)%Q) by lra.
    assert (H1 : (- y <= - x)%Q) by lra.
    pose proof (nearest_mono _ _ H0 H1) as Hn.
    destruct (Z.leb_spec overflow (nearest (- x))) as [Ox | Ox];
      destruct (Z.leb_spec overflow (nearest (- y))) as [Oy | Oy];
      cbn [le]; try exact I; try lia.
    rewrite !Qred_correct. pose proof (grains_le _ _ Hn). lra.
  - assert (H0 : (0 <= - x)%Q) by lra.
    pose proof (nearest_nonneg _ H0) as Hn.
    pose proof (nearest_nonneg y (Qlt_le_weak _ _ Hy)) as Hm.
    destruct (overflow <=? nearest (- x)); destruct (overflow <=? nearest y);
      cbn [le]; try exact I.
    rewrite !Qred_correct.
    pose proof (grains_nonneg _ Hn). pose proof (grains_nonneg _ Hm). lra.
  - pose proof (nearest_mono _ _ (Qlt_le_weak _ _ Hx) H) as Hn.
    destruct (Z.leb_spec overflow (nearest x)) as [Ox | Ox];
      destruct (Z.leb_spec overflow (nearest y)) as [Oy | Oy];
      cbn [le]; try exact I; try lia.
    rewrite !Qred_correct. now apply grains_le.
Qed.

Lemma Qred_inject_Z (z : Z) : Qred (inject_Z z) = inject_Z z.
Proof.
  unfold Qred, inject_Z.
  pose proof (Z.ggcd_gcd z 1) as Hg.
  pose proof (Z.ggcd_correct_divisors z 1) as Hd.
  destruct (Z.ggcd z 1) as [g [a b]]. cbn [fst snd] in *.
  rewrite Z.gcd_1_r in Hg. subst g. destruct Hd as [Ha Hb].
  replace a with z by lia. replace b with 1 by lia. reflexivity.
Qed.

Lemma nearest_integer (z : Z) :
  0 < z <= 2 ^ 53 -> nearest (inject_Z z) = z * grain.
Proof.
  intros Hz. rewrite nearest_scaled.
  rewrite (nearestScaled_comp _ (inject_Z (z * grain)))
    by (now rewrite inject_Z_mult).
  apply nearestScaled_fixed.
  rewrite spacing_exponent. unfold exponent. rewrite Qfloor_Z, grain_power.
  rewrite Z.log2_mul_pow2 by lia.
  assert (Hl : Z.log2 z <= 53).
  { rewrite <- (Z.log2_pow2 53) by lia. apply Z.log2_le_mono. lia. }
  pose proof (Z.log2_nonneg z) as Hl0.
  replace (Z.max (1074 + Z.log2 z - 52) 0) with (1022 + Z.log2 z) by lia.
  destruct (Z.eq_dec (Z.log2 z) 53) as [E | N].
  - assert (Ez : z = 2 ^ 53).
    { destruct (Z.log2_spec z) as [Hlow _]; [lia |]. rewrite E in Hlow. lia. }
    rewrite E, Ez. exists (2 ^ 52). rewrite <- !Z.pow_add_r by lia. reflexivity.
  - exists (z * 2 ^ (52 - Z.log2 z)).
    rewrite <- Z.mul_assoc, <- Z.pow_add_r by lia.
    do 2 f_equal. lia.
Qed.

(** Every integer of magnitude at most 2^53 is a double. *)
Lemma round_integer (z : Z) : safe z -> round (inject_Z z) = ofZ z.
Proof.
  intros [Hlow Hup]. unfold round, ofZ.
  pose proof safe_below_overflow as Hov. pose proof grain_pos as Hg.
  destruct (Qcompare_spec (inject_Z z) 0) as [E | Hneg | Hpos]; cbv zeta.
  - assert (Ez : z = 0) by (unfold Qeq in E; cbn in E; lia).
    now rewrite Ez.
  - change 0%Q with (inject_Z 0) in Hneg. rewrite <- Zlt_Qlt in Hneg.
    rewrite (nearest_comp _ (inject_Z (- z))) by (now rewrite inject_Z_opp).
    rewrite nearest_integer by lia.
    destruct (Z.leb_spec overflow (- z * grain)) as [O | O]; [nia |].
    f_equal. rewrite <- (Qred_inject_Z z). apply Qred_complete.
    rewrite !inject_Z_mult, inject_Z_opp. field. now apply inject_Z_nonzero.
  - change 0%Q with (inject_Z 0) in Hpos. rewrite <- Zlt_Qlt in Hpos.
    rewrite nearest_integer by lia.
    destruct (Z.leb_spec overflow (z * grain)) as [O | O]; [nia |].
    f_equal. rewrite <- (Qred_inject_Z z). apply Qred_complete.
    rewrite !inject_Z_mult. field. now apply inject_Z_nonzero.
Qed.

Lemma le_refl (q : Q) : le (Finite q) (Finite q).
Proof. cbn. lra. Qed.

Lemma le_trans (x y z : t) : le x y -> le y z -> le x z.
Proof.
  destruct x as [p | [] |], y as [q | [] |], z as [r | [] |]; cbn; try tauto.
  intros; lra.
Qed.

(** A value rounded between two doubles is finite and lies between them. *)
Lemma round_between (a b q : Q) :
  round a = Finite a -> round b = Finite b ->
  (a <= q <= b)%Q ->
  exists v, round q = Finite v /\ (a <= v <= b)%Q.
Proof.
  intros Ha Hb [Hlow Hup].
  pose proof (round_mono _ _ Hlow) as H1. pose proof (round_mono _ _ Hup) as H2.
  rewrite Ha in H1. rewrite Hb in H2.
  destruct (round q) as [v | [] |]; cbn in *; try contradiction.
  exists v. split; [reflexivity | split; assumption].
Qed.

Lemma inject_Z_compare (a b : Z) : (inject_Z a ?= inject_Z b)%Q = (a ?= b).
Proof. unfold Qcompare, inject_Z. cbn. now rewrite !Z.mul_1_r. Qed.

Lemma ltb_ofZ (a b : Z) : ltb (ofZ a) (ofZ b) = (a <? b).
Proof. unfold ltb, ofZ, Z.ltb. now rewrite inject_Z_compare. Qed.

Lemma eqb_ofZ (a b : Z) : eqb (ofZ a) (ofZ b) = (a =? b).
Proof.
  unfold eqb, ofZ. rewrite inject_Z_compare.
  destruct (Z.compare_spec a b), (Z.eqb_spec a b); try reflexivity; lia.
Qed.

Lemma leb_ofZ (a b : Z) : leb (ofZ a) (ofZ b) = (a <=? b).
Proof.
  unfold leb. rewrite ltb_ofZ, eqb_ofZ.
  destruct (Z.ltb_spec a b), (Z.eqb_spec a b), (Z.leb_spec a b); try reflexivity; lia.
Qed.

Lemma estimate_integers (fuel : nat) (n c k : Z) :
  Metrics.estimatePassAtK fuel (ofZ n) (ofZ c) (ofZ k)
  = if n <? k then Some (if 0 <? c then one else zero)
    else if c =? 0 then Some zero
    else if n <=? c then Some one
    else option_map (sub one) (Metrics.ratioLoop fuel (ofZ n) (ofZ c) (ofZ k) zero one).
Proof.
  unfold Metrics.estimatePassAtK.
  change zero with (ofZ 0). rewrite !ltb_ofZ, eqb_ofZ, leb_ofZ. reflexivity.
Qed.

Lemma sub_integers (a b : Z) : safe (a - b) -> sub (ofZ a) (ofZ b) = ofZ (a - b).
Proof.
  intros H. unfold sub, ofZ at 1 2.
  rewrite (round_comp _ (inject_Z (a - b))); [now apply round_integer |].
  unfold Z.sub. now rewrite inject_Z_plus, inject_Z_opp.
Qed.

Lemma add_one (j : Z) : safe (j + 1) -> add (ofZ j) one = ofZ (j + 1).
Proof.
  intros H. unfold add, one, ofZ at 1.
  rewrite (round_comp _ (inject_Z (j + 1))); [now apply round_integer |].
  now rewrite inject_Z_plus.
Qed.

(** The loop multiplies the factors for i = j, j+1, ..., k-1 onto the ratio. *)
Lemma loop_product (n c k : Z) (count : nat) :
  forall (fuel : nat) (j : Z) (ratio : Double.t),
    0 <= j -> k <= 2 ^ 53 -> Z.of_nat count = Z.max (k - j) 0 ->
    (count < fuel)%nat ->
    Metrics.ratioLoop fuel (ofZ n) (ofZ c) (ofZ k) (ofZ j) ratio
    = Some (runningProduct n c (indices j count) ratio).
Proof.
  induction count as [| count IH]; intros fuel j ratio Hj Hk Hcount Hfuel;
    (destruct fuel as [| fuel]; [lia |]); cbn [Metrics.ratioLoop]; rewrite ltb_ofZ.
  - destruct (Z.ltb_spec j k); [lia | reflexivity].
  - destruct (Z.ltb_spec j k); [| lia].
    rewrite add_one by (unfold safe; lia).
    rewrite IH by lia. reflexivity.
Qed.

Lemma round_pow54 : round (inject_Z (2 ^ 54)) = Finite (inject_Z (2 ^ 54)).
Proof. vm_compute. reflexivity. Qed.

Lemma round_neg_pow54 : round (inject_Z (- 2 ^ 54)) = Finite (inject_Z (- 2 ^ 54)).
Proof. vm_compute. reflexivity. Qed.

Lemma inject_Z_minus (a b : Z) : (inject_Z (a - b) == inject_Z a - inject_Z b)%Q.
Proof. unfold Z.sub, Qminus. now rewrite inject_Z_plus, inject_Z_opp. Qed.

Lemma round_one : round 1 = Finite 1.
Proof. vm_compute. reflexivity. Qed.

Lemma round_never_NaN (q : Q) : round q <> NaN.
Proof.
  unfold round. destruct (q ?= 0)%Q; cbv zeta; try destruct (_ <=? _); discriminate.
Qed.

Lemma div_by_integer (b : Q) (d : Z) :
  0 < d -> div (Finite b) (ofZ d) = round (b / inject_Z d).
Proof.
  intros Hd. unfold div, ofZ.
  assert (E : (inject_Z d ?= 0)%Q = Gt).
  { change 0%Q with (inject_Z 0). rewrite inject_Z_compare. now apply Z.compare_gt_iff. }
  now rewrite E.
Qed.

Lemma quotient_le (a b : Q) (d : Z) :
  0 < d -> (a <= b)%Q -> (a / inject_Z d <= b / inject_Z d)%Q.
Proof.
  intros Hd H. apply Qmult_le_compat_r; [exact H |].
  now apply Qlt_le_weak, Qinv_lt_0_compat, inject_Z_pos.
Qed.

Lemma quotient_self (d : Z) : 0 < d -> (inject_Z d / inject_Z d == 1)%Q.
Proof. intros Hd. field. now apply inject_Z_nonzero. Qed.

Lemma quotient_zero (d : Z) : (0 / inject_Z d == 0)%Q.
Proof. unfold Qdiv. apply Qmult_0_l. Qed.

(** Dividing by an integer that is at least one does not take a value out
    of a symmetric interval. *)
Lemma quotient_bounded (b m : Q) (d : Z) :
  1 <= d -> (- m <= b <= m)%Q -> (- m <= b / inject_Z d <= m)%Q.
Proof.
  intros Hd [Hlow Hup].
  assert (Hpos : (0 < inject_Z d)%Q) by (apply inject_Z_pos; lia).
  assert (Hone : (1 <= inject_Z d)%Q) by (change 1%Q with (inject_Z 1); rewrite <- Zle_Qle; lia).
  assert (Hm : (0 <= m)%Q) by lra.
  generalize dependent (inject_Z d). intros D HD H1.
  split.
  - apply Qle_shift_div_l; [exact HD |]. nra.
  - apply Qle_shift_div_r; [exact HD |]. nra.
Qed.

Section Factors.

Variable n : Z.
Hypothesis Hn : 0 <= n <= 2 ^ 53.

(** With [0 <= c <= n] the subtractions are exact. *)
Lemma factor_exact (c j : Z) :
  0 <= c <= n -> 0 <= j < n ->
  factor (ofZ n) (ofZ c) (ofZ j)
  = round (inject_Z (n - c - j) / inject_Z (n - j)).
Proof.
  intros Hc Hj. unfold factor.
  rewrite !sub_integers by (unfold safe; lia).
  apply div_by_integer. lia.
Qed.

Lemma factor_unit (c j : Z) :
  0 <= c <= n -> 0 <= j < n -> j <= n - c ->
  exists f, factor (ofZ n) (ofZ c) (ofZ j) = Finite f /\ (0 <= f <= 1)%Q.
Proof.
  intros Hc Hj Hle. rewrite factor_exact by assumption.
  apply round_between; [apply round_zero | apply round_one |].
  split.
  - rewrite <- (quotient_zero (n - j)). apply quotient_le; [lia |].
    change 0%Q with (inject_Z 0). rewrite <- Zle_Qle. lia.
  - rewrite <- (quotient_self (n - j)) by lia. apply quotient_le; [lia |].
    rewrite <- Zle_Qle. lia.
Qed.

Lemma factor_vanishes (c j : Z) :
  0 <= c <= n -> 0 <= j < n -> j = n - c ->
  factor (ofZ n) (ofZ c) (ofZ j) = Finite 0.
Proof.
  intros Hc Hj E. rewrite factor_exact by assumption.
  replace (n - c - j) with 0 by lia.
  rewrite (round_comp _ 0); [apply round_zero | apply quotient_zero].
Qed.

(** In general the numerator is rounded twice; it stays finite. *)
Lemma factor_finite (c j : Z) :
  safe c -> 0 <= j < n ->
  exists a b f,
    sub (ofZ n) (ofZ c) = Finite a /\
    sub (Finite a) (ofZ j) = Finite b /\
    factor (ofZ n) (ofZ c) (ofZ j) = Finite f /\
    round (inject_Z n - inject_Z c) = Finite a /\
    round (a - inject_Z j) = Finite b /\
    round (b / inject_Z (n - j)) = Finite f.
Proof.
  intros [Hc1 Hc2] Hj.
  assert (S53 : round (inject_Z (- 2 ^ 53)) = Finite (inject_Z (- 2 ^ 53)))
    by (apply round_integer; unfold safe; lia).
  destruct (round_between (inject_Z (- 2 ^ 53)) (inject_Z (2 ^ 54))
              (inject_Z n - inject_Z c) S53 round_pow54) as (a & Ha & Ha1 & Ha2).
  { rewrite <- inject_Z_minus, <- !Zle_Qle. lia. }
  destruct (round_between (inject_Z (- 2 ^ 54)) (inject_Z (2 ^ 54))
              (a - inject_Z j) round_neg_pow54 round_pow54) as (b & Hb & Hb1 & Hb2).
  { assert (H0 : (inject_Z 0 <= inject_Z j)%Q) by (rewrite <- Zle_Qle; lia).
    assert (H1 : (inject_Z j <= inject_Z (2 ^ 53))%Q) by (rewrite <- Zle_Qle; lia).
    assert (E1 : (inject_Z (- 2 ^ 54) == inject_Z (- 2 ^ 53) - inject_Z (2 ^ 53))%Q)
      by reflexivity.
    change (inject_Z 0) with 0%Q in H0.
    assert (G : forall A J L M H : Q,
               (L <= A)%Q -> (A <= H)%Q -> (0 <= J)%Q -> (J <= M)%Q ->
               (L - M <= A - J <= H)%Q) by (intros; split; lra).
    rewrite E1. now apply G. }
  destruct (round_between (inject_Z (- 2 ^ 54)) (inject_Z (2 ^ 54))
              (b / inject_Z (n - j)) round_neg_pow54 round_pow54) as (f & Hf & Hf1 & Hf2).
  { rewrite inject_Z_opp in *. apply quotient_bounded; [lia | split; assumption]. }
  exists a, b, f. unfold factor.
  assert (EA : sub (ofZ n) (ofZ c) = Finite a) by exact Ha.
  assert (EB : sub (Finite a) (ofZ j) = Finite b) by exact Hb.
  rewrite EA, EB, (sub_integers n j) by (unfold safe; lia).
  rewrite div_by_integer by lia.
  repeat split; assumption.
Qed.

(** More successes make no factor larger. *)
Lemma factor_antitone (c1 c2 j : Z) :
  safe c1 -> safe c2 -> c1 <= c2 -> 0 <= j < n ->
  le (factor (ofZ n) (ofZ c2) (ofZ j)) (factor (ofZ n) (ofZ c1) (ofZ j)).
Proof.
  intros H1 H2 Hle Hj.
  destruct (factor_finite c1 j H1 Hj) as (a1 & b1 & f1 & _ & _ & -> & Ra1 & Rb1 & Rf1).
  destruct (factor_finite c2 j H2 Hj) as (a2 & b2 & f2 & _ & _ & -> & Ra2 & Rb2 & Rf2).
  assert (Ha : (a2 <= a1)%Q).
  { assert (H : le (round (inject_Z n - inject_Z c2)) (round (inject_Z n - inject_Z c1))).
    { apply round_mono. rewrite <- !inject_Z_minus, <- Zle_Qle. lia. }
    now rewrite Ra1, Ra2 in H. }
  assert (Hb : (b2 <= b1)%Q).
  { assert (H : le (round (a2 - inject_Z j)) (round (a1 - inject_Z j))).
    { apply round_mono. generalize dependent (inject_Z j). intros. lra. }
    now rewrite Rb1, Rb2 in H. }
  assert (H : le (round (b2 / inject_Z (n - j))) (round (b1 / inject_Z (n - j)))).
  { apply round_mono, quotient_le; [lia | exact Hb]. }
  now rewrite Rf1, Rf2 in H.
Qed.

(** With a negative [c] every factor is at least one. *)
Lemma factor_above_one (c j : Z) :
  safe c -> c < 0 -> 0 <= j < n ->
  exists f, factor (ofZ n) (ofZ c) (ofZ j) = Finite f /\ (1 <= f)%Q.
Proof.
  intros Hs Hc Hj.
  destruct (factor_finite c j Hs Hj) as (a & b & f & _ & _ & -> & Ra & Rb & Rf).
  exists f. split; [reflexivity |].
  assert (Ha : (inject_Z n <= a)%Q).
  { assert (H : le (round (inject_Z n)) (round (inject_Z n - inject_Z c))).
    { apply round_mono. rewrite <- !inject_Z_minus, <- Zle_Qle. lia. }
    rewrite Ra, round_integer in H by (unfold safe; lia). exact H. }
  assert (Hb : (inject_Z (n - j) <= b)%Q).
  { assert (H : le (round (inject_Z (n - j))) (round (a - inject_Z j))).
    { apply round_mono. rewrite inject_Z_minus.
      generalize dependent (inject_Z j). generalize dependent (inject_Z n). intros. lra. }
    rewrite Rb, round_integer in H by (unfold safe; lia). exact H. }
  assert (H : le (round 1) (round (b / inject_Z (n - j)))).
  { apply round_mono. rewrite <- (quotient_self (n - j)) by lia.
    apply quotient_le; [lia | exact Hb]. }
  now rewrite Rf, round_one in H.
Qed.

End Factors.

Lemma le_top (x : t) : x <> NaN -> le x (Infinity false).
Proof. destruct x as [q | [] |]; cbn; tauto. Qed.

Lemma le_bottom (x : t) : x <> NaN -> le (Infinity true) x.
Proof. destruct x as [q | [] |]; cbn; tauto. Qed.

Lemma mul_finite (p q : Q) : mul (Finite p) (Finite q) = round (p * q).
Proof. reflexivity. Qed.

Lemma sub_finite (p q : Q) : sub (Finite p) (Finite q) = round (p - q).
Proof. reflexivity. Qed.

Lemma runningProduct_cons (n c j : Z) (count : nat) (ratio : t) :
  runningProduct n c (indices j (S count)) ratio
  = runningProduct n c (indices (j + 1) count)
      (mul ratio (factor (ofZ n) (ofZ c) (ofZ j))).
Proof. reflexivity. Qed.

Section Products.

Variable n : Z.
Hypothesis Hn : 0 <= n <= 2 ^ 53.

Lemma unit_step (c j : Z) (r : t) :
  0 <= c <= n -> 0 <= j < n -> unitState n c j r ->
  unitState n c (j + 1) (mul r (factor (ofZ n) (ofZ c) (ofZ j))).
Proof.
  intros Hc Hj (v & -> & Hv & [Hle | Hz]).
  - destruct (Z.eq_dec j (n - c)) as [E | N].
    + rewrite factor_vanishes, mul_finite by assumption.
      rewrite (round_comp _ 0) by ring. rewrite round_zero.
      exists 0%Q. split; [reflexivity | split; [lra | right; reflexivity]].
    + destruct (factor_unit n Hn c j Hc Hj Hle) as (f & -> & Hf).
      rewrite mul_finite.
      destruct (round_between 0 1 (v * f) round_zero round_one) as (v' & -> & Hv');
        [split; nra |].
      exists v'. split; [reflexivity | split; [exact Hv' | left; lia]].
  - destruct (factor_finite n Hn c j) as (_ & _ & f & _ & _ & -> & _);
      [unfold safe; lia | exact Hj |].
    rewrite mul_finite, (round_comp _ 0) by (rewrite Hz; ring).
    rewrite round_zero. exists 0%Q. split; [reflexivity | split; [lra | right; reflexivity]].
Qed.

Lemma unit_product (c : Z) (count : nat) :
  forall (j : Z) (r : t),
    0 <= c <= n -> 0 <= j -> j + Z.of_nat count <= n -> unitState n c j r ->
    unitState n c (j + Z.of_nat count) (runningProduct n c (indices j count) r).
Proof.
  induction count as [| count IH]; intros j r Hc Hj Hend Hr.
  - cbn [indices runningProduct fold_left]. now rewrite Z.add_0_r.
  - rewrite runningProduct_cons.
    replace (j + Z.of_nat (S count)) with (j + 1 + Z.of_nat count) by lia.
    apply IH; try lia. apply unit_step; [exact Hc | lia | exact Hr].
Qed.

Lemma antitone_step (c1 c2 j : Z) (r1 r2 : t) :
  0 <= c1 -> c1 <= c2 -> c2 <= n -> 0 <= j < n ->
  unitState n c1 j r1 -> unitState n c2 j r2 -> le r2 r1 ->
  le (mul r2 (factor (ofZ n) (ofZ c2) (ofZ j)))
    (mul r1 (factor (ofZ n) (ofZ c1) (ofZ j))).
Proof.
  intros H1 H12 H2 Hj S1 S2 Hle.
  pose proof (unit_step c1 j r1 (conj H1 (Z.le_trans _ _ _ H12 H2)) Hj S1)
    as (v1' & E1' & Hv1' & _).
  destruct S1 as (v1 & -> & Hv1 & C1). destruct S2 as (v2 & -> & Hv2 & [C2 | C2]).
  - destruct (factor_unit n Hn c1 j) as (f1 & F1 & Hf1); [lia | exact Hj | lia |].
    destruct (factor_unit n Hn c2 j) as (f2 & F2 & Hf2); [lia | exact Hj | lia |].
    pose proof (factor_antitone n Hn c1 c2 j) as Hanti.
    rewrite F1, F2 in *. rewrite !mul_finite. apply round_mono.
    cbn [le] in Hle, Hanti.
    assert (f2 <= f1)%Q by (apply Hanti; unfold safe; lia).
    nra.
  - destruct (factor_finite n Hn c2 j) as (_ & _ & f2 & _ & _ & -> & _);
      [unfold safe; lia | exact Hj |].
    rewrite mul_finite, (round_comp _ 0) by (rewrite C2; ring).
    rewrite round_zero, E1'. cbn [le]. tauto.
Qed.

Lemma antitone_product (c1 c2 : Z) (count : nat) :
  forall (j : Z) (r1 r2 : t),
    0 <= c1 -> c1 <= c2 -> c2 <= n -> 0 <= j -> j + Z.of_nat count <= n ->
    unitState n c1 j r1 -> unitState n c2 j r2 -> le r2 r1 ->
    le (runningProduct n c2 (indices j count) r2)
      (runningProduct n c1 (indices j count) r1).
Proof.
  induction count as [| count IH]; intros j r1 r2 H1 H12 H2 Hj Hend S1 S2 Hle.
  - exact Hle.
  - rewrite !runningProduct_cons.
    apply IH; try lia.
    + apply unit_step; [lia | lia | exact S1].
    + apply unit_step; [lia | lia | exact S2].
    + apply antitone_step; try assumption; lia.
Qed.

(** With negative counts of successes the ratio stays at or above one,
    and may overflow. *)
Lemma above_step (c1 c2 j : Z) (r1 r2 : t) :
  safe c1 -> safe c2 -> c1 <= c2 -> c2 < 0 -> 0 <= j < n ->
  le one r2 -> le r2 r1 ->
  le one (mul r2 (factor (ofZ n) (ofZ c2) (ofZ j))) /\
  le (mul r2 (factor (ofZ n) (ofZ c2) (ofZ j)))
    (mul r1 (factor (ofZ n) (ofZ c1) (ofZ j))).
Proof.
  intros S1 S2 H12 Hneg Hj Hone Hle.
  destruct (factor_above_one n Hn c1 j) as (f1 & F1 & Hf1); [exact S1 | lia | exact Hj |].
  destruct (factor_above_one n Hn c2 j) as (f2 & F2 & Hf2); [exact S2 | lia | exact Hj |].
  pose proof (factor_antitone n Hn c1 c2 j S1 S2 H12 Hj) as Hanti.
  rewrite F1, F2 in *. cbn [le] in Hanti.
  assert (Hinf : forall f, (1 <= f)%Q -> mul (Infinity false) (Finite f) = Infinity false).
  { intros f Hf. unfold mul, negative.
    assert (E : (f ?= 0)%Q = Gt) by (apply Qgt_alt; lra). now rewrite E. }
  destruct r2 as [v2 | [] |]; cbn [le one] in Hone; try contradiction;
    destruct r1 as [v1 | [] |]; cbn [le] in Hle; try contradiction.
  - rewrite !mul_finite. split.
    + unfold one. rewrite <- round_one. apply round_mono. nra.
    + apply round_mono. nra.
  - rewrite mul_finite, Hinf by exact Hf1. split.
    + unfold one. rewrite <- round_one. apply round_mono. nra.
    + apply le_top, round_never_NaN.
  - rewrite !Hinf by assumption. cbn [le one]. tauto.
Qed.

Lemma above_product (c1 c2 : Z) (count : nat) :
  forall (j : Z) (r1 r2 : t),
    safe c1 -> safe c2 -> c1 <= c2 -> c2 < 0 -> 0 <= j -> j + Z.of_nat count <= n ->
    le one r2 -> le r2 r1 ->
    le one (runningProduct n c2 (indices j count) r2) /\
    le (runningProduct n c2 (indices j count) r2)
      (runningProduct n c1 (indices j count) r1).
Proof.
  induction count as [| count IH]; intros j r1 r2 S1 S2 H12 Hneg Hj Hend Hone Hle.
  - split; assumption.
  - rewrite !runningProduct_cons.
    destruct (above_step c1 c2 j r1 r2) as [Hone' Hle']; try assumption; [lia |].
    apply IH; try assumption; lia.
Qed.

End Products.

(** One minus a ratio. *)
Lemma complement_antitone (p1 p2 : t) :
  le zero p2 -> le p2 p1 -> le (sub one p1) (sub one p2).
Proof.
  intros H0 Hle.
  destruct p2 as [v2 | [] |]; cbn [le zero] in H0; try contradiction;
    destruct p1 as [v1 | [] |]; cbn [le] in Hle; try contradiction.
  - unfold one. rewrite !sub_finite. apply round_mono. lra.
  - unfold one at 1. cbn [sub negb]. apply le_bottom.
    unfold one. rewrite sub_finite. apply round_never_NaN.
  - exact I.
Qed.

Lemma complement_unit (p : t) :
  (exists v, p = Finite v /\ (0 <= v <= 1)%Q) ->
  le zero (sub one p) /\ le (sub one p) one.
Proof.
  intros (v & -> & Hv). unfold one at 1 2. rewrite sub_finite.
  destruct (round_between 0 1 (1 - v) round_zero round_one) as (w & -> & Hw);
    [split; lra |].
  cbn [le zero one]. tauto.
Qed.

Lemma complement_nonpositive (p : t) : le one p -> le (sub one p) zero.
Proof.
  intros H.
  destruct p as [v | [] |]; cbn [le one] in H; try contradiction.
  - unfold one, zero. rewrite sub_finite, <- round_zero. apply round_mono. lra.
  - exact I.
Qed.

Lemma unit_start (n c : Z) : 0 <= c <= n -> unitState n c 0 one.
Proof. intros H. exists 1%Q. split; [reflexivity | split; [lra | left; lia]]. Qed.

Lemma Qcompare_refl (q : Q) : (q ?= q)%Q = Eq.
Proof. apply Qeq_alt. reflexivity. Qed.

(** The estimate for [k <= n], [c <> 0] and [c < n]. *)
Lemma estimate_product (fuel : nat) (n c k : Z) :
  n <= 2 ^ 53 -> k <= n -> c <> 0 -> c < n -> (Z.to_nat k < fuel)%nat ->
  Metrics.estimatePassAtK fuel (ofZ n) (ofZ c) (ofZ k)
  = Some (sub one (runningProduct n c (indices 0 (Z.to_nat k)) one)).
Proof.
  intros Hn Hk Hc Hcn Hfuel. rewrite estimate_integers.
  destruct (Z.ltb_spec n k); [lia |].
  destruct (Z.eqb_spec c 0); [lia |].
  destruct (Z.leb_spec n c); [lia |].
  change zero with (ofZ 0).
  rewrite (loop_product n c k (Z.to_nat k)) by lia.
  reflexivity.
Qed.

Section Monotone.

Variables n k : Z.
Variable fuel : nat.
Hypothesis Hn : 0 <= n <= 2 ^ 53.
Hypothesis Hfuel : (Z.to_nat k < fuel)%nat.

Lemma estimate_returns (c : Z) :
  exists v, Metrics.estimatePassAtK fuel (ofZ n) (ofZ c) (ofZ k) = Some v.
Proof.
  rewrite estimate_integers.
  destruct (n <? k) eqn:E1; [eexists; reflexivity |].
  destruct (c =? 0); [eexists; reflexivity |].
  destruct (n <=? c); [eexists; reflexivity |].
  apply Z.ltb_ge in E1.
  change zero with (ofZ 0).
  rewrite (loop_product n c k (Z.to_nat k)) by lia.
  eexists; reflexivity.
Qed.

(** With [0 <= c] the estimate lies between zero and one. *)
Lemma estimate_unit (c : Z) (v : t) :
  0 <= c -> safe c ->
  Metrics.estimatePassAtK fuel (ofZ n) (ofZ c) (ofZ k) = Some v ->
  le zero v /\ le v one.
Proof.
  intros Hc Hs. rewrite estimate_integers.
  destruct (Z.ltb_spec n k) as [Hk | Hk].
  { destruct (0 <? c); intros [= <-]; cbn; split; lra. }
  destruct (Z.eqb_spec c 0) as [E | N].
  { intros [= <-]; cbn; split; lra. }
  destruct (Z.leb_spec n c) as [L | L].
  { intros [= <-]; cbn; split; lra. }
  change zero with (ofZ 0) at 1.
  rewrite (loop_product n c k (Z.to_nat k)) by lia.
  intros [= <-]. apply complement_unit.
  destruct (unit_product n Hn c (Z.to_nat k) 0 one) as (p & Hp & Hrange & _);
    [lia | lia | lia | apply unit_start; lia |].
  exists p. split; assumption.
Qed.

(** With [c < 0] the estimate is at most zero. *)
Lemma estimate_nonpositive (c : Z) (v : t) :
  c < 0 -> safe c ->
  Metrics.estimatePassAtK fuel (ofZ n) (ofZ c) (ofZ k) = Some v ->
  le v zero.
Proof.
  intros Hc Hs. rewrite estimate_integers.
  destruct (Z.ltb_spec n k) as [Hk | Hk].
  { destruct (Z.ltb_spec 0 c); [lia |]. intros [= <-]. cbn. lra. }
  destruct (Z.eqb_spec c 0) as [E | N]; [lia |].
  destruct (Z.leb_spec n c) as [L | L]; [lia |].
  change zero with (ofZ 0) at 1.
  rewrite (loop_product n c k (Z.to_nat k)) by lia.
  intros [= <-]. apply complement_nonpositive.
  destruct (above_product n Hn c c (Z.to_nat k) 0 one one) as [H _];
    try assumption; try lia; cbn; lra.
Qed.

Lemma estimate_monotone (c1 c2 : Z) (v1 v2 : t) :
  safe c1 -> safe c2 -> c1 <= c2 ->
  Metrics.estimatePassAtK fuel (ofZ n) (ofZ c1) (ofZ k) = Some v1 ->
  Metrics.estimatePassAtK fuel (ofZ n) (ofZ c2) (ofZ k) = Some v2 ->
  le v1 v2.
Proof.
  intros S1 S2 H12 E1 E2.
  destruct (Z_lt_le_dec c1 0) as [N1 | P1].
  - pose proof (estimate_nonpositive c1 v1 N1 S1 E1) as Hlow.
    destruct (Z_lt_le_dec c2 0) as [N2 | P2].
    + (* both negative *)
      revert E1 E2. rewrite !estimate_integers.
      destruct (Z.ltb_spec n k) as [Hk | Hk].
      { destruct (Z.ltb_spec 0 c1); [lia |]. destruct (Z.ltb_spec 0 c2); [lia |].
        intros [= <-] [= <-]. cbn. lra. }
      destruct (Z.eqb_spec c1 0); [lia |]. destruct (Z.eqb_spec c2 0); [lia |].
      destruct (Z.leb_spec n c1); [lia |]. destruct (Z.leb_spec n c2); [lia |].
      change zero with (ofZ 0).
      rewrite !(loop_product n _ k (Z.to_nat k)) by lia.
      intros [= <-] [= <-].
      destruct (above_product n Hn c1 c2 (Z.to_nat k) 0 one one) as [Hone Hle];
        try assumption; try lia; try (cbn; lra).
      apply complement_antitone; [| exact Hle].
      apply le_trans with one; [cbn; lra | exact Hone].
    + destruct (estimate_unit c2 v2 P2 S2 E2) as [Hup _].
      apply le_trans with zero; assumption.
  - assert (P2 : 0 <= c2) by lia.
    destruct (estimate_unit c1 v1 P1 S1 E1) as [Hlow1 Hup1].
    destruct (estimate_unit c2 v2 P2 S2 E2) as [Hlow2 Hup2].
    revert E1 E2. rewrite !estimate_integers.
    destruct (Z.ltb_spec n k) as [Hk | Hk].
    { destruct (Z.ltb_spec 0 c1); destruct (Z.ltb_spec 0 c2); try lia;
        intros [= <-] [= <-]; cbn; lra. }
    destruct (Z.eqb_spec c1 0) as [Z1 | Z1].
    { intros [= <-] _. exact Hlow2. }
    destruct (Z.eqb_spec c2 0) as [Z2 | Z2]; [lia |].
    destruct (Z.leb_spec n c2) as [L2 | L2].
    { intros _ [= <-]. exact Hup1. }
    destruct (Z.leb_spec n c1) as [L1 | L1]; [lia |].
    change zero with (ofZ 0).
    rewrite !(loop_product n _ k (Z.to_nat k)) by lia.
    intros [= <-] [= <-].
    destruct (unit_product n Hn c2 (Z.to_nat k) 0 one) as (p2 & Hp2 & Hrange2 & _);
      [lia | lia | lia | apply unit_start; lia |].
    apply complement_antitone.
    + rewrite Hp2. cbn. lra.
    + apply antitone_product; try lia; try (apply unit_start; lia). cbn. lra.
Qed.

End Monotone.

(** Past 2^53 the counter of the loop stops growing. *)
Lemma counter_sticks : add (ofZ (2 ^ 53)) one = ofZ (2 ^ 53).
Proof. vm_compute. reflexivity. Qed.

Lemma loop_runs_on (n c : Double.t) (k : Z) (fuel : nat) :
  2 ^ 53 < k ->
  forall (j : Z) (ratio : Double.t),
    0 <= j <= 2 ^ 53 -> Metrics.ratioLoop fuel n c (ofZ k) (ofZ j) ratio = None.
Proof.
  intros Hk. induction fuel as [| fuel IH]; intros j ratio Hj; [reflexivity |].
  cbn [Metrics.ratioLoop]. rewrite ltb_ofZ.
  destruct (Z.ltb_spec j k); [| lia].
  destruct (Z.eq_dec j (2 ^ 53)) as [E | N].
  - rewrite E at 1. rewrite counter_sticks. apply IH. lia.
  - rewrite add_one by (unfold safe; lia). apply IH. lia.
Qed.

End DoubleFacts.

(** On these operands the four operations of [Double] return what the
    Standard Library's specification of binary64 arithmetic returns. *)
Lemma rounding_agrees_with_binary64 :
  agree integers Double.add (SFadd 53 1024) = true /\
  agree integers Double.sub (SFsub 53 1024) = true /\
  agree integers Double.mul (SFmul 53 1024) = true /\
  agree integers Double.div (SFdiv 53 1024) = true /\
  agree fractions Double.mul (SFmul 53 1024) = true /\
  agree fractions Double.sub (SFsub 53 1024) = true.
Proof. vm_compute. repeat split; reflexivity. Qed.

(** C5, as the code has it, with the code's arithmetic: every operation
    rounded to the nearest double.  For all numbers [n] and [k],
    [estimatePassAtK n 0 k] is 0; [estimatePassAtK n n k] is 1 whenever
    [n > 0]; with [n < k] the result is 1 for [c > 0] and 0 otherwise.  For
    integers of magnitude at most 2^53, and with fuel for the [k] rounds of
    the loop: for [n >= 0] the call returns for every [c], and the result
    does not decrease when [c] grows; and in the remaining case ([k <= n],
    [c] not zero and below [n]) the result is one minus the product of the
    factors [(n-c-i)/(n-i)] for [i] from 0 to [k-1], multiplied from left
    to right, each subtraction, division and multiplication rounded. *)
Theorem estimatePassAtK_laws :
  (forall (fuel : nat) (n k : Double.t),
     Metrics.estimatePassAtK fuel n Double.zero k = Some Double.zero) /\
  (forall (fuel : nat) (n k : Double.t),
     Double.ltb Double.zero n = true ->
     Metrics.estimatePassAtK fuel n n k = Some Double.one) /\
  (forall (fuel : nat) (n c k : Double.t),
     Double.ltb n k = true ->
     Metrics.estimatePassAtK fuel n c k
     = Some (if Double.ltb Double.zero c then Double.one else Double.zero)) /\
  (forall (fuel : nat) (n c1 c2 k : Z),
     0 <= n -> Double.safe n -> Double.safe c1 -> Double.safe c2 -> Double.safe k ->
     c1 <= c2 ->
     (Z.to_nat k < fuel)%nat ->
     exists v1 v2,
       Metrics.estimatePassAtK fuel (Double.ofZ n) (Double.ofZ c1) (Double.ofZ k)
       = Some v1 /\
       Metrics.estimatePassAtK fuel (Double.ofZ n) (Double.ofZ c2) (Double.ofZ k)
       = Some v2 /\
       Double.le v1 v2) /\
  (forall (fuel : nat) (n c k : Z),
     Double.safe n -> Double.safe c -> Double.safe k ->
     k <= n -> c <> 0 -> c < n ->
     (Z.to_nat k < fuel)%nat ->
     Metrics.estimatePassAtK fuel (Double.ofZ n) (Double.ofZ c) (Double.ofZ k)
     = Some (Double.sub Double.one
               (runningProduct n c (indices 0 (Z.to_nat k)) Double.one))).
Proof.
  split; [| split; [| split; [| split]]].
  - intros fuel n k. unfold Metrics.estimatePassAtK.
    destruct (Double.ltb n k); reflexivity.
  - intros fuel n k Hn. unfold Metrics.estimatePassAtK. rewrite Hn.
    destruct (Double.ltb n k); [reflexivity |].
    destruct n as [q | [] |]; unfold Double.zero, Double.ltb in Hn; cbn [negb] in Hn;
      try discriminate.
    + unfold Double.leb, Double.eqb, Double.ltb, Double.zero.
      destruct (Qcompare_spec 0 q) as [H | H | H]; try discriminate.
      assert (E : (q ?= 0)%Q = Gt) by now apply Qgt_alt.
      rewrite E, DoubleFacts.Qcompare_refl. reflexivity.
    + reflexivity.
  - intros fuel n c k Hlt. unfold Metrics.estimatePassAtK. now rewrite Hlt.
  - intros fuel n c1 c2 k Hn0 Sn S1 S2 Sk H12 Hfuel.
    assert (Hn : 0 <= n <= 2 ^ 53) by (unfold Double.safe in Sn; lia).
    destruct (DoubleFacts.estimate_returns n k fuel Hn Hfuel c1) as [v1 E1].
    destruct (DoubleFacts.estimate_returns n k fuel Hn Hfuel c2) as [v2 E2].
    exists v1, v2. split; [exact E1 | split; [exact E2 |]].
    exact (DoubleFacts.estimate_monotone n k fuel Hn Hfuel c1 c2 v1 v2 S1 S2 H12 E1 E2).
  - intros fuel n c k Sn Sc Sk Hk Hc Hcn Hfuel.
    apply DoubleFacts.estimate_product; try assumption. unfold Double.safe in Sn. lia.
Qed.

(** Five samples: with all five correct the estimate is 1; with [k = 3]
    the estimate for two correct samples is not below the one for a single
    correct sample; with [k = 1] and one correct sample it is one minus
    the single factor. *)
Lemma estimatePassAtK_laws_witness :
  Metrics.estimatePassAtK 4 (Double.ofZ 5) (Double.ofZ 5) (Double.ofZ 3)
  = Some Double.one /\
  (exists v1 v2,
     Metrics.estimatePassAtK 4 (Double.ofZ 5) (Double.ofZ 1) (Double.ofZ 3) = Some v1 /\
     Metrics.estimatePassAtK 4 (Double.ofZ 5) (Double.ofZ 2) (Double.ofZ 3) = Some v2 /\
     Double.le v1 v2) /\
  Metrics.estimatePassAtK 2 (Double.ofZ 5) (Double.ofZ 1) (Double.ofZ 1)
  = Some (Double.sub Double.one (runningProduct 5 1 (indices 0 1) Double.one)).
Proof.
  destruct estimatePassAtK_laws as (_ & Hfull & _ & Hmono & Hprod).
  split; [apply Hfull; reflexivity |].
  split.
  - apply Hmono; unfold Double.safe; lia.
  - apply (Hprod 2%nat 5 1 1); unfold Double.safe; lia.
Defined.

(** The two triples worked out in the specification, as the code
    computes them: (5, 3, 3) gives 1, and (5, 1, 1) gives the double
    written 0.19999999999999996, one minus the double nearest to 4/5. *)
Lemma estimatePassAtK_examples :
  Metrics.estimatePassAtK 4 (Double.ofZ 5) (Double.ofZ 3) (Double.ofZ 3)
  = Some Double.one /\
  Metrics.estimatePassAtK 2 (Double.ofZ 5) (Double.ofZ 1) (Double.ofZ 1)
  = Some (Double.Finite (900719925474099 # 4503599627370496)) /\
  Double.round (4 # 5) = Double.Finite (3602879701896397 # 4503599627370496).
Proof. vm_compute. repeat split; reflexivity. Qed.

(** C5 as stated fails.  With no samples, [estimatePassAtK n n k] is 0,
    not 1.  For a negative [n] the result can drop when [c] grows.  The
    running product is a product of doubles: for (5, 1, 1) the code
    returns a double below 1/5, which is neither the exact value of the
    product form nor the double nearest to it.  And past 2^53 the loop
    counter no longer grows, so that for [k = 2^53 + 2] the loop does not
    come to an end, whatever the fuel. *)
Lemma estimatePassAtK_without_samples :
  Metrics.estimatePassAtK 1 Double.zero Double.zero Double.one = Some Double.zero /\
  Metrics.estimatePassAtK 1 Double.zero Double.zero Double.zero = Some Double.zero /\
  Metrics.estimatePassAtK 1 (Double.ofZ (-1)) (Double.ofZ (-1)) (Double.ofZ (-2))
  = Some Double.one /\
  Metrics.estimatePassAtK 1 (Double.ofZ (-1)) (Double.ofZ 0) (Double.ofZ (-2))
  = Some Double.zero /\
  ~ Double.le Double.one Double.zero /\
  Metrics.estimatePassAtK 2 (Double.ofZ 5) (Double.ofZ 1) (Double.ofZ 1)
  = Some (Double.Finite (900719925474099 # 4503599627370496)) /\
  (900719925474099 # 4503599627370496 < 1 # 5)%Q /\
  Double.round (1 # 5) = Double.Finite (3602879701896397 # 18014398509481984) /\
  (forall fuel : nat,
     Metrics.estimatePassAtK fuel (Double.ofZ (2 ^ 53 + 2)) (Double.ofZ 1)
       (Double.ofZ (2 ^ 53 + 2))
     = None).
Proof.
  split; [vm_compute; reflexivity |].
  split; [vm_compute; reflexivity |].
  split; [vm_compute; reflexivity |].
  split; [vm_compute; reflexivity |].
  split; [intros H; vm_compute in H; now apply H |].
  split; [vm_compute; reflexivity |].
  split; [reflexivity |].
  split; [vm_compute; reflexivity |].
  intros fuel. rewrite DoubleFacts.estimate_integers.
  replace (2 ^ 53 + 2 <? 2 ^ 53 + 2) with false by (symmetry; apply Z.ltb_irrefl).
  replace (1 =? 0) with false by reflexivity.
  replace (2 ^ 53 + 2 <=? 1) with false by reflexivity.
  change Double.zero with (Double.ofZ 0).
  rewrite DoubleFacts.loop_runs_on by lia. reflexivity.
Qed.

(** ** Graders *)

Section Grading.

Variable host : Graders.Host.

Lemma scan_contains (needle : string) (items : list JS.JSON) :
  Graders.someOf
    (fun item =>
       match item with
       | JS.JStr s => Graders.includesLowered host s (Graders.Text needle)
       | _ => Graders.includesLowered host (JS.stringify item) (Graders.Text needle)
       end) items
  = Graders.Returns
      (existsb (fun t => JS.includes (Graders.toLowerCase host t)
                           (Graders.toLowerCase host needle))
         (map textOf items)).
Proof.
  induction items as [| item items IH]; [reflexivity |].
  cbn [Graders.someOf map existsb].
  assert (E : match item with
              | JS.JStr s => Graders.includesLowered host s (Graders.Text needle)
              | _ => Graders.includesLowered host (JS.stringify item) (Graders.Text needle)
              end
              = Graders.Returns
                  (JS.includes (Graders.toLowerCase host (textOf item))
                     (Graders.toLowerCase host needle)))
    by (destruct item; reflexivity).
  rewrite E, IH.
  now destruct (JS.includes (Graders.toLowerCase host (textOf item))
                  (Graders.toLowerCase host needle)).
Qed.

Lemma scan_matches (regex : Graders.RegExp host) (items : list JS.JSON) :
  JS.some (fun item =>
             match item with
             | JS.JStr s => Graders.test host regex s
             | _ => Graders.test host regex (JS.stringify item)
             end) items
  = existsb (Graders.test host regex) (map textOf items).
Proof.
  unfold JS.some. induction items as [| item items IH]; [reflexivity |].
  cbn [map existsb]. rewrite IH. now destruct item.
Qed.

Lemma checkContains_resolved (obj : JS.Obj) (f needle : string) (x : JS.JSON) :
  Graders.getNestedField host obj f = Some (Graders.Data x) ->
  Graders.checkContains host (Some obj) f (Graders.Text needle)
  = Graders.Returns
      (existsb (fun t => JS.includes (Graders.toLowerCase host t)
                           (Graders.toLowerCase host needle))
         (candidates x)).
Proof.
  intros Hx. unfold Graders.checkContains. rewrite Hx.
  destruct x;
    try (unfold Graders.stringify, Graders.includesLowered, Graders.lowered, candidates;
         cbn [existsb]; now rewrite orb_false_r).
  apply scan_contains.
Qed.

Lemma checkEquals_resolved (obj : JS.Obj) (f text : string) (x : JS.JSON) :
  Graders.getNestedField host obj f = Some (Graders.Data x) ->
  Graders.checkEquals host (Some obj) f (Graders.Text text)
  = Graders.Returns (String.eqb (textOf x) text).
Proof.
  intros Hx. unfold Graders.checkEquals. rewrite Hx. now destruct x.
Qed.

Lemma checkMatches_resolved (obj : JS.Obj) (f : string) (x : JS.JSON)
    (pattern : Graders.Pattern host) (regex : Graders.RegExp host) :
  Graders.getNestedField host obj f = Some (Graders.Data x) ->
  match pattern with
  | Graders.Text source => Graders.newRegExp host source
  | Graders.Regex r => Some r
  end = Some regex ->
  Graders.checkMatches host (Some obj) f pattern
  = Graders.Returns (existsb (Graders.test host regex) (candidates x)).
Proof.
  intros Hx Hc. unfold Graders.checkMatches. rewrite Hx, Hc.
  destruct x;
    try (unfold candidates, Graders.stringify, JS.orElse; cbn [existsb];
         now rewrite orb_false_r).
  now rewrite scan_matches.
Qed.

(** With the run successful and field and value set, the grade is the
    verdict of the check for the outcome type. *)
Lemma grade_dispatch (r : TaskResult.t) (f : string) (v : Graders.Pattern host) :
  TaskResult.success r = true ->
  JS.truthy (Some f) = true ->
  Graders.truthyValue (Some v) = true ->
  Graders.gradeResult host (Some r)
    (Graders.expect Graders.Contains (Some f) (Some v))
  = Graders.checkContains host (TaskResult.data r) f v /\
  Graders.gradeResult host (Some r)
    (Graders.expect Graders.Equals (Some f) (Some v))
  = Graders.checkEquals host (TaskResult.data r) f v /\
  Graders.gradeResult host (Some r)
    (Graders.expect Graders.Matches (Some f) (Some v))
  = Graders.checkMatches host (TaskResult.data r) f v.
Proof.
  intros Hs Hf Hv. unfold Graders.gradeResult, Graders.checked.
  rewrite Hs. cbn [negb Graders.type Graders.field Graders.value].
  rewrite Hf, Hv. cbn [negb orb]. repeat split.
Qed.

End Grading.

(** C7, as the code has it.  For a successful run graded on a non-empty
    field path and a non-empty value, on any host: a path that resolves to
    [undefined] makes contains, equals and matches fail.  When the path
    resolves to a value of the data, contains looks for the expected value
    as a substring with both sides lower-cased, in each element of an array
    or in the value itself, so that expected values with the same
    lower-casing grade alike; equals compares the value as it stands (a
    string with exact case, anything else, arrays included, through its
    serialisation); matches runs the regular expression on each element of
    an array or on the value itself, and throws when the source does not
    compile. *)
Theorem grading_by_field
    (host : Graders.Host) (r : TaskResult.t) (obj : JS.Obj) (f : string) :
  TaskResult.success r = true ->
  TaskResult.data r = Some obj ->
  JS.truthy (Some f) = true ->
  (Graders.getNestedField host obj f = None ->
   forall (ty : Graders.OutcomeType) (v : Graders.Pattern host),
     ty = Graders.Contains \/ ty = Graders.Equals \/ ty = Graders.Matches ->
     Graders.truthyValue (Some v) = true ->
     Graders.gradeResult host (Some r) (Graders.expect ty (Some f) (Some v))
     = Graders.Returns false) /\
  (forall (x : JS.JSON) (text : string),
     Graders.getNestedField host obj f = Some (Graders.Data x) ->
     JS.truthy (Some text) = true ->
     Graders.gradeResult host (Some r)
       (Graders.expect Graders.Contains (Some f) (Some (Graders.Text text)))
     = Graders.Returns
         (existsb (fun t => JS.includes (Graders.toLowerCase host t)
                              (Graders.toLowerCase host text))
            (candidates x)) /\
     (forall text', JS.truthy (Some text') = true ->
        Graders.toLowerCase host text' = Graders.toLowerCase host text ->
        Graders.gradeResult host (Some r)
          (Graders.expect Graders.Contains (Some f) (Some (Graders.Text text')))
        = Graders.gradeResult host (Some r)
            (Graders.expect Graders.Contains (Some f) (Some (Graders.Text text)))) /\
     Graders.gradeResult host (Some r)
       (Graders.expect Graders.Equals (Some f) (Some (Graders.Text text)))
     = Graders.Returns (String.eqb (textOf x) text) /\
     Graders.gradeResult host (Some r)
       (Graders.expect Graders.Matches (Some f) (Some (Graders.Text text)))
     = match Graders.newRegExp host text with
       | Some regex =>
           Graders.Returns (existsb (Graders.test host regex) (candidates x))
       | None => Graders.Throws Graders.SyntaxError
       end) /\
  (forall (x : JS.JSON) (regex : Graders.RegExp host),
     Graders.getNestedField host obj f = Some (Graders.Data x) ->
     Graders.gradeResult host (Some r)
       (Graders.expect Graders.Matches (Some f) (Some (Graders.Regex regex)))
     = Graders.Returns (existsb (Graders.test host regex) (candidates x))).
Proof.
  intros Hs Hd Hf.
  split; [| split].
  - intros Hnone ty v Hty Hv.
    destruct (grade_dispatch host r f v Hs Hf Hv) as (Hc & He & Hm).
    destruct Hty as [-> | [-> | ->]].
    + rewrite Hc, Hd. unfold Graders.checkContains. now rewrite Hnone.
    + rewrite He, Hd. unfold Graders.checkEquals. now rewrite Hnone.
    + rewrite Hm, Hd. unfold Graders.checkMatches. now rewrite Hnone.
  - intros x text Hx Ht.
    destruct (grade_dispatch host r f (Graders.Text text) Hs Hf Ht)
      as (Hc & He & Hm).
    rewrite Hc, He, Hm, Hd.
    rewrite (checkContains_resolved host obj f text x Hx).
    rewrite (checkEquals_resolved host obj f text x Hx).
    repeat split.
    + intros text' Ht' Hlow.
      destruct (grade_dispatch host r f (Graders.Text text') Hs Hf Ht')
        as (Hc' & _ & _).
      rewrite Hc', Hd, (checkContains_resolved host obj f text' x Hx).
      now rewrite Hlow.
    + destruct (Graders.newRegExp host text) as [regex |] eqn:E.
      * apply (checkMatches_resolved host obj f x (Graders.Text text) regex Hx E).
      * unfold Graders.checkMatches. now rewrite Hx, E.
  - intros x regex Hx.
    destruct (grade_dispatch host r f (Graders.Regex regex) Hs Hf eq_refl)
      as (_ & _ & Hm).
    rewrite Hm, Hd.
    apply (checkMatches_resolved host obj f x (Graders.Regex regex) regex Hx eq_refl).
Qed.

Lemma grading_by_field_witness :
  gradeLiteral (Some passedRun) Graders.Contains "meta.author.name" "ADA"
  = gradeLiteral (Some passedRun) Graders.Contains "meta.author.name" "ada" /\
  gradeLiteral (Some passedRun) Graders.Contains "tags.1" "BLUE" = Graders.Returns true /\
  gradeLiteral (Some passedRun) Graders.Equals "tags.length" "2" = Graders.Returns true /\
  gradeLiteral (Some passedRun) Graders.Equals "meta.editor.name" "Ada"
  = Graders.Returns false.
Proof.
  destruct (grading_by_field Graders.literalHost
              passedRun pageData "meta.author.name" eq_refl eq_refl eq_refl)
    as (_ & Hres & _).
  destruct (Hres (JS.JStr "Ada") "ada" eq_refl eq_refl) as (_ & Hcase & _).
  destruct (grading_by_field Graders.literalHost
              passedRun pageData "tags.1" eq_refl eq_refl eq_refl)
    as (_ & Hres1 & _).
  destruct (Hres1 (JS.JStr "blue") "BLUE" eq_refl eq_refl) as (Hcontains & _).
  destruct (grading_by_field Graders.literalHost
              passedRun pageData "tags.length" eq_refl eq_refl eq_refl)
    as (_ & Hres2 & _).
  destruct (Hres2 (JS.JNum "2") "2" eq_refl eq_refl) as (_ & _ & Hequals & _).
  destruct (grading_by_field Graders.literalHost
              passedRun pageData "meta.editor.name" eq_refl eq_refl eq_refl)
    as (Hnone & _).
  split; [exact (Hcase "ADA" eq_refl eq_refl) |].
  split; [exact Hcontains |].
  split; [exact Hequals |].
  exact (Hnone eq_refl Graders.Equals (Graders.Text "Ada")
           (or_intror (or_introl eq_refl)) eq_refl).
Defined.

(** C7 as stated fails.  Equals compares strings with exact case and does
    not look into arrays, where contains does both.  With an empty
    expected value the path is never consulted.  And a path that names no
    key of the data can still resolve, through the prototype chain, to a
    method: contains then throws a [TypeError], equals is false, and
    matches tests the text [undefined]. *)
Lemma equals_is_exact :
  gradeLiteral (Some passedRun) Graders.Equals "title" "hello world"
  = Graders.Returns false /\
  gradeLiteral (Some passedRun) Graders.Contains "title" "hello world"
  = Graders.Returns true /\
  gradeLiteral (Some passedRun) Graders.Equals "tags" "red" = Graders.Returns false /\
  gradeLiteral (Some passedRun) Graders.Contains "tags" "red" = Graders.Returns true /\
  Graders.getNestedField Graders.literalHost pageData "missing" = None /\
  gradeLiteral (Some passedRun) Graders.Contains "missing" EmptyString
  = Graders.Returns true /\
  JS.getProp pageData "constructor" = None /\
  Graders.getNestedField Graders.literalHost pageData "constructor"
  = Some Graders.Function /\
  gradeLiteral (Some passedRun) Graders.Contains "constructor" "object"
  = Graders.Throws Graders.TypeError /\
  gradeLiteral (Some passedRun) Graders.Equals "constructor" "object"
  = Graders.Returns false /\
  gradeLiteral (Some passedRun) Graders.Matches "tags.push" "undefined"
  = Graders.Returns true.
Proof. repeat split; reflexivity. Qed.

(** C8.  Whatever the host and the expected outcome, a missing result and
    a result whose [success] flag is false are graded false. *)
Theorem failed_run_never_passes
    (host : Graders.Host) (expected : Graders.ExpectedOutcome host) :
  Graders.gradeResult host None expected = Graders.Returns false /\
  forall r : TaskResult.t,
    TaskResult.success r = false ->
    Graders.gradeResult host (Some r) expected = Graders.Returns false.
Proof.
  split; [reflexivity |].
  intros r Hr. unfold Graders.gradeResult. now rewrite Hr.
Qed.

(** The data of [failedRun] contains the expected title, and the run is
    graded false all the same. *)
Lemma failed_run_never_passes_witness :
  Graders.checkContains Graders.literalHost (TaskResult.data failedRun) "title"
    (Graders.Text "hello")
  = Graders.Returns true /\
  gradeLiteral (Some failedRun) Graders.Contains "title" "hello" = Graders.Returns false.
Proof.
  split; [reflexivity |].
  apply (failed_run_never_passes Graders.literalHost
           (Graders.expect Graders.Contains (Some "title") (Some (Graders.Text "hello")))).
  reflexivity.
Defined.

(** ** Two runs of the specification's scenarios *)

(** A plan of three actions that all succeed at the first attempt: three
    step results, no healing attempt, the extracted object as data. *)
Lemma three_action_plan :
  option_map
    (fun result =>
       (TaskResult.success result,
        List.length (TaskResult.steps result),
        List.length (TaskResult.healingAttempts result),
        TaskResult.data result))
    (Graph.runResult
       (Graph.invoke threeRetries "search cats and read the headlines"
          [ World.planning [openSite; fillSearch; extractHeadlines];
            World.calm; World.calm; World.calm;
            World.calm; World.calm; World.calm;
            World.calm; World.answering (JS.JObj [("headlines", JS.JArr [JS.JStr "Cats!"])]);
            World.calm; World.calm; World.calm ]))
  = Some (true, 3%nat, 0%nat, Some [("headlines", JS.JArr [JS.JStr "Cats!"])]).
Proof. vm_compute. reflexivity. Qed.

(** With a single retry the first failure of a fill already exhausts the
    healing: one failed step result, one [exhausted] attempt, and the run
    still ends. *)
Lemma exhausted_at_once :
  option_map
    (fun result =>
       (map StepResult.success (TaskResult.steps result),
        map HealingAttempt.strategy (TaskResult.healingAttempts result)))
    (Graph.runResult
       (Graph.run oneRetry [World.calm; World.calm; World.calm; World.calm] atCeiling))
  = Some ([false], ["exhausted"]).
Proof. vm_compute. reflexivity. Qed.

(* ------------------------------------------------------------------------ *)
(** * Further properties of the graph *)

Lemma index_in_range {A : Type} (xs : list A) (i : Z) :
  0 <= i < JS.length xs -> exists x, JS.index xs i = Some x.
Proof.
  unfold JS.index, JS.length. intros [Hlo Hhi].
  destruct (Z.ltb_spec i 0); [lia |].
  destruct (nth_error xs (Z.to_nat i)) as [x |] eqn:E; [now exists x |].
  apply nth_error_None in E. lia.
Qed.

Lemma shape_start (task : string) : shape (Graph.start task).
Proof. cbv. repeat split; try discriminate; reflexivity. Qed.

Lemma sameButTarget_refl (a : Action.t) : sameButTarget a a.
Proof. repeat split. Qed.

Lemma sameButTarget_withTarget (a b : Action.t) (selector : string) :
  sameButTarget a b -> sameButTarget (Action.withTarget a selector) b.
Proof. intros (H1 & H2 & H3). repeat split; assumption. Qed.
Ltac shape_goal := unfold shape; cbn [fst snd].

(** The current action inside a step: the one at hand, or its repair. *)
Ltac keep_action :=
  repeat match goal with
    | H : Some _ = Some _ |- _ => injection H as H; subst
    end;
  cbn [worksOn] in *;
  eexists; eexists; refine (conj _ (conj _ (conj _ _)));
  [ eassumption
  | first [eassumption | reflexivity]
  | first [eassumption | apply sameButTarget_withTarget; eassumption]
  | first [exact I | eassumption | cbn; eassumption | unfold hasExecutor; tauto] ].

Ltac conjuncts :=
  repeat match goal with |- _ /\ _ => split end; try lia; try assumption.

Lemma shape_step (context : Graph.AgentContext) (w : World.t) (c : Graph.Config) :
  shape c -> shape (Graph.step context w c).
Proof.
  destruct c as [n s]. unfold shape at 1. cbn [fst snd].
  intros (Hcur & Hlen & Hn).
  destruct n.
  - (* plan *)
    destruct Hn as [Hacts Hflag]. open_step.
    destruct (World.planTask w) as [acts |]; shape_goal; cbn.
    + rewrite Hacts. cbn. unfold JS.length. repeat split; try lia; assumption.
    + repeat split; try lia; assumption.
  - (* router *)
    open_step.
    destruct (Z.leb_spec (State.totalSteps s) (State.currentStep s)) as [Hdone | Hmore].
    + open_edge. shape_goal. cbn. repeat split; try lia; assumption.
    + destruct (index_in_range (State.actions s) (State.currentStep s)) as [a Ha]; [lia |].
      rewrite Ha. open_edge. cbn. rewrite Hn.
      destruct (Action.type a) eqn:Et; shape_goal; cbn; conjuncts;
        exists a, a; rewrite ?Et; repeat split; assumption.
  - destruct Hn as (Hflag & Hlt & planned & a & Hp & Ha & Hsame & Hty).
    open_step; split_node; open_edge; cbn; shape_goal; cbn; conjuncts; keep_action.
  - destruct Hn as (Hflag & Hlt & planned & a & Hp & Ha & Hsame & Hty).
    open_step; split_node; open_edge; cbn; shape_goal; cbn; conjuncts; keep_action.
  - destruct Hn as (Hflag & Hlt & planned & a & Hp & Ha & Hsame & Hty).
    open_step; split_node; open_edge; cbn; shape_goal; cbn; conjuncts; keep_action.
  - destruct Hn as (Hflag & Hlt & planned & a & Hp & Ha & Hsame & Hty).
    open_step; split_node; open_edge; cbn; shape_goal; cbn; conjuncts; keep_action.
  - (* heal *)
    destruct Hn as (Hflag & Hlt & planned & a & Hp & Ha & Hsame & Hty).
    open_step; split_node; open_edge; cbn; split_node; shape_goal; cbn; conjuncts;
      try congruence; keep_action.
  - (* success *)
    destruct Hn as (Hflag & Hlt & planned & a & Hp & Ha & Hsame & Hty).
    open_step. open_edge. shape_goal. cbn. conjuncts.
  - (* finalize *)
    open_step. open_edge. shape_goal. cbn. conjuncts. all: reflexivity.
  - destruct Hn as [Hc Hf]. open_step. open_edge. shape_goal. cbn. conjuncts.
  - open_step. open_edge. shape_goal. cbn. conjuncts.
Qed.
Lemma shape_reachable (context : Graph.AgentContext) (c : Graph.Config) :
  Graph.reachable context c -> shape c.
Proof.
  revert c. apply reachable_ind; [apply shape_start | intros w c; apply shape_step].
Qed.

Lemma counter_step (context : Graph.AgentContext) (w : World.t) (c : Graph.Config) :
  1 <= HealingConfig.maxRetries context ->
  counterAt context (fst c) (snd c) ->
  counterAt context (fst (Graph.step context w c)) (snd (Graph.step context w c)).
Proof.
  intros Hmax. destruct c as [n s]. cbn [fst snd]. intros Hc.
  destruct n; cbn [counterAt] in Hc;
    open_step; split_node; open_edge; cbn; split_node; reflect_tests;
    cbn [counterAt]; assumption || lia.
Qed.

Lemma sound_step (context : Graph.AgentContext) (w : World.t) (c : Graph.Config) :
  1 <= HealingConfig.maxRetries context ->
  sound context c -> sound context (Graph.step context w c).
Proof.
  intros Hmax [Hs Hc]. split; [now apply shape_step | now apply counter_step].
Qed.

(** X1.  In every reachable state the cursor lies between 0 and
    [totalSteps], [totalSteps] is the length of the planned action list,
    and inside a plan step the cursor is strictly below [totalSteps]. *)
Theorem cursor_within_plan (context : Graph.AgentContext) (c : Graph.Config) :
  Graph.reachable context c ->
  0 <= State.currentStep (snd c) <= State.totalSteps (snd c) /\
  State.totalSteps (snd c) = JS.length (State.actions (snd c)) /\
  (insideStep (fst c) = true -> State.currentStep (snd c) < State.totalSteps (snd c)).
Proof.
  intros Hreach. apply shape_reachable in Hreach.
  destruct Hreach as (Hcur & Hlen & Hn).
  split; [exact Hcur | split; [exact Hlen |]].
  destruct (fst c); cbn [insideStep]; try discriminate; intros _; tauto.
Qed.

Lemma searchRun_reachable (n : nat) : Graph.reachable threeRetries (searchRun n).
Proof. exists "search cats", (firstn n searchWorlds). reflexivity. Defined.

Lemma cursor_within_plan_witness :
  fst (searchRun 5) = Node.fill /\
  0 <= State.currentStep (snd (searchRun 5)) < State.totalSteps (snd (searchRun 5)).
Proof.
  destruct (cursor_within_plan threeRetries (searchRun 5) (searchRun_reachable 5))
    as (Hcur & _ & Hin).
  split; [vm_compute; reflexivity |].
  split; [apply Hcur | apply Hin; vm_compute; reflexivity].
Defined.

(** X2.  Whenever an executor is about to run in a reachable state, the
    current action is the planned action at the cursor up to its target,
    and its type is the type of that executor: the type test of the
    executors' guard never fires in a run, and the heal node only meets
    actions that have an executor. *)
Theorem executor_runs_its_own_action
    (context : Graph.AgentContext) (c : Graph.Config) :
  Graph.reachable context c ->
  Node.isExecutor (fst c) = true \/ fst c = Node.heal ->
  exists planned a,
    JS.index (State.actions (snd c)) (State.currentStep (snd c)) = Some planned /\
    State.currentAction (snd c) = Some a /\
    sameButTarget a planned /\ worksOn (fst c) (Action.type a).
Proof.
  intros Hreach Hn. apply shape_reachable in Hreach.
  destruct Hreach as (_ & _ & Hshape).
  destruct c as [n s]. cbn [fst snd] in *.
  destruct Hn as [Hn | ->]; [destruct n; try discriminate Hn |]; tauto.
Qed.

Lemma executor_runs_its_own_action_witness :
  fst (searchRun 7) = Node.fill /\
  exists planned a,
    JS.index (State.actions (snd (searchRun 7))) (State.currentStep (snd (searchRun 7)))
    = Some planned /\
    State.currentAction (snd (searchRun 7)) = Some a /\
    sameButTarget a planned /\
    Action.target a = Some "#q" /\ Action.target planned = Some "the query box".
Proof.
  split; [vm_compute; reflexivity |].
  destruct (executor_runs_its_own_action threeRetries (searchRun 7)
              (searchRun_reachable 7))
    as (planned & a & Hp & Ha & Hsame & _).
  - left. vm_compute. reflexivity.
  - exists planned, a.
    split; [exact Hp | split; [exact Ha | split; [exact Hsame |]]].
    vm_compute in Hp, Ha. injection Hp as <-. injection Ha as <-. split; reflexivity.
Defined.



Lemma atRest_step (context : Graph.AgentContext) (w : World.t) (c : Graph.Config) :
  atRest (fst c) = true -> Graph.step context w c = c.
Proof.
  destruct c as [[] s]; try discriminate; intros _; destruct s; reflexivity.
Qed.

Lemma atRest_run (context : Graph.AgentContext) (ws : list World.t) (c : Graph.Config) :
  atRest (fst c) = true -> Graph.run context ws c = c.
Proof.
  intros Hr. induction ws as [| w ws IH]; [reflexivity |].
  cbn [Graph.run fold_left]. rewrite atRest_step by exact Hr. exact IH.
Qed.

Lemma stepsLeft_step (context : Graph.AgentContext) (w : World.t) (c : Graph.Config) :
  1 <= HealingConfig.maxRetries context ->
  sound context c ->
  fst c <> Node.plan ->
  atRest (fst c) = false ->
  0 <= stepsLeft (HealingConfig.maxRetries context) (Graph.step context w c)
  < stepsLeft (HealingConfig.maxRetries context) c.
Proof.
  intros Hmax. destruct c as [n s]. unfold sound, shape. cbn [fst snd].
  intros ((Hcur & Hlen & Hn) & Hc) Hplan Hrest.
  destruct n; try congruence; try discriminate Hrest; cbn [counterAt] in Hc.
  - (* router *)
    open_step.
    destruct (Z.leb_spec (State.totalSteps s) (State.currentStep s)) as [Hdone | Hmore].
    + open_edge. unfold stepsLeft, stepBudget. cbn. nia.
    + destruct (index_in_range (State.actions s) (State.currentStep s)) as [a Ha]; [lia |].
      rewrite Ha. open_edge. cbn. rewrite Hn.
      destruct (Action.type a); unfold stepsLeft, stepBudget; cbn; nia.
  - destruct Hn as (Hflag & Hlt & _).
    open_step; split_node; open_edge; unfold stepsLeft, stepBudget; cbn; nia.
  - destruct Hn as (Hflag & Hlt & _).
    open_step; split_node; open_edge; unfold stepsLeft, stepBudget; cbn; nia.
  - destruct Hn as (Hflag & Hlt & _).
    open_step; split_node; open_edge; unfold stepsLeft, stepBudget; cbn; nia.
  - destruct Hn as (Hflag & Hlt & _).
    open_step; split_node; open_edge; unfold stepsLeft, stepBudget; cbn; nia.
  - destruct Hn as (Hflag & Hlt & _).
    open_step; split_node; open_edge; cbn; split_node; reflect_tests;
      unfold stepsLeft, stepBudget; cbn; nia.
  - destruct Hn as (Hflag & Hlt & _).
    open_step. open_edge. unfold stepsLeft, stepBudget. cbn. nia.
  - open_step. open_edge. unfold stepsLeft, stepBudget. cbn. nia.
Qed.

Lemma never_back_to_plan (context : Graph.AgentContext) (w : World.t) (c : Graph.Config) :
  fst (Graph.step context w c) <> Node.plan.
Proof.
  destruct c as [n s].
  destruct n; open_step; split_node; open_edge; cbn; split_node; discriminate.
Qed.

Lemma rest_within (context : Graph.AgentContext) (ws : list World.t) :
  1 <= HealingConfig.maxRetries context ->
  forall c : Graph.Config,
    sound context c -> fst c <> Node.plan ->
    stepsLeft (HealingConfig.maxRetries context) c <= JS.length ws ->
    atRest (fst (Graph.run context ws c)) = true.
Proof.
  intros Hmax. induction ws as [| w ws IH]; intros c Hs Hplan Hleft.
  - cbn. destruct (atRest (fst c)) eqn:E; [reflexivity |].
    pose proof (stepsLeft_step context World.calm c Hmax Hs Hplan E).
    unfold JS.length in Hleft. cbn in Hleft. lia.
  - destruct (atRest (fst c)) eqn:E.
    + rewrite atRest_run by exact E. exact E.
    + cbn [Graph.run fold_left].
      apply IH.
      * now apply sound_step.
      * apply never_back_to_plan.
      * pose proof (stepsLeft_step context w c Hmax Hs Hplan E).
        unfold JS.length in *. cbn [List.length] in Hleft. lia.
Qed.

Lemma sound_start (context : Graph.AgentContext) (task : string) :
  sound context (Graph.start task).
Proof. split; [apply shape_start | reflexivity]. Qed.

(** X4.  The graph comes to rest.  With [maxRetries] between 1 and 10
    and a plan of [N] actions, a run has reached [END] (or has been
    rejected) after the plan node and at most [N * (2 * maxRetries + 4) + 2]
    further supersteps, whatever the worlds, and stays there; a run whose
    planner throws is rejected at once.  (The limit the graph library
    itself puts on the supersteps of one [invoke] is not part of this.) *)
Theorem run_comes_to_rest
    (context : Graph.AgentContext) (task : string) (w : World.t) (ws : list World.t) :
  HealingConfig.valid context ->
  match World.planTask w with
  | Some actions =>
      JS.length actions * stepBudget (HealingConfig.maxRetries context) + 2
  | None => 0
  end <= JS.length ws ->
  atRest (fst (Graph.invoke context task (w :: ws))) = true /\
  forall more : list World.t,
    Graph.invoke context task ((w :: ws) ++ more) = Graph.invoke context task (w :: ws).
Proof.
  intros [Hmax _] Hlen.
  assert (Hrest : atRest (fst (Graph.invoke context task (w :: ws))) = true).
  { unfold Graph.invoke. cbn [Graph.run fold_left].
    apply rest_within; [exact Hmax | apply sound_step; [exact Hmax | apply sound_start]
                       | apply never_back_to_plan |].
    unfold Graph.start. open_step.
    destruct (World.planTask w) as [acts |]; cbn.
    - unfold stepsLeft. cbn. unfold JS.length in *. cbn. lia.
    - unfold stepsLeft. cbn. unfold JS.length in *. lia. }
  split; [exact Hrest |].
  intros more. unfold Graph.invoke, Graph.run. rewrite fold_left_app.
  apply (atRest_run context more). exact Hrest.
Qed.

Lemma run_comes_to_rest_witness :
  atRest
    (fst (Graph.invoke oneRetry "search cats"
            (World.planning [fillSearch]
             :: [World.calm; World.failing "no such input"; World.calm; World.calm;
                 World.calm; World.calm; World.calm; World.calm])))
  = true /\
  fst (Graph.invoke oneRetry "search cats"
         (World.planning [fillSearch]
          :: [World.calm; World.failing "no such input"; World.calm; World.calm;
              World.calm; World.calm; World.calm; World.calm]))
  = Node.END.
Proof.
  destruct (run_comes_to_rest oneRetry "search cats" (World.planning [fillSearch])
              [World.calm; World.failing "no such input"; World.calm; World.calm;
               World.calm; World.calm; World.calm; World.calm]) as [Hrest _].
  - unfold HealingConfig.valid. cbn. lia.
  - vm_compute. discriminate.
  - split; [exact Hrest | vm_compute; reflexivity].
Defined.

Lemma appended_grows {A : Type} (sel : State.Write -> option (list A)) (d : State.Delta) :
  forall prev : list A, exists more, State.appended sel d prev = prev ++ more.
Proof.
  unfold State.appended.
  induction d as [| w d IH]; intros prev; cbn [fold_left].
  - exists []. now rewrite app_nil_r.
  - destruct (sel w) as [v |].
    + destruct (IH (prev ++ v)) as [more ->]. exists (v ++ more). now rewrite app_assoc.
    + apply IH.
Qed.

(** One superstep adds at most one step result and at most one healing
    attempt, and takes none away. *)
Lemma step_appends (context : Graph.AgentContext) (w : World.t) (c : Graph.Config) :
  exists rs hs,
    State.results (snd (Graph.step context w c)) = State.results (snd c) ++ rs /\
    State.healingHistory (snd (Graph.step context w c))
    = State.healingHistory (snd c) ++ hs /\
    (List.length rs <= 1)%nat /\ (List.length hs <= 1)%nat.
Proof.
  destruct c as [n s].
  destruct n; open_step; split_node; cbn [snd];
    cbn [State.apply State.results State.healingHistory State.appended fold_left];
    try (exists [], []; rewrite !app_nil_r; repeat split; cbn; lia);
    try (eexists [_], []; rewrite !app_nil_r; repeat split; cbn; lia);
    try (eexists [], [_]; rewrite !app_nil_r; repeat split; cbn; lia).
Qed.

(** X5.  Step results and healing attempts are only ever appended: along
    any run the accumulated results and the healing history grow at their
    end, by at most one entry each per superstep, and no entry is changed
    or dropped. *)
Theorem records_are_kept (context : Graph.AgentContext) (ws : list World.t)
    (c : Graph.Config) :
  exists rs hs,
    State.results (snd (Graph.run context ws c)) = State.results (snd c) ++ rs /\
    State.healingHistory (snd (Graph.run context ws c))
    = State.healingHistory (snd c) ++ hs /\
    (List.length rs <= List.length ws)%nat /\ (List.length hs <= List.length ws)%nat.
Proof.
  induction ws as [| w ws IH] using rev_ind.
  - exists [], []. cbn. rewrite !app_nil_r. repeat split; lia.
  - rewrite run_snoc.
    destruct IH as (rs & hs & Hr & Hh & Lr & Lh).
    destruct (step_appends context w (Graph.run context ws c)) as (r1 & h1 & Hr1 & Hh1 & L1 & L2).
    exists (rs ++ r1), (hs ++ h1).
    rewrite Hr1, Hh1, Hr, Hh, <- !app_assoc, !length_app. cbn [List.length].
    repeat split; lia.
Qed.

(** Setting a key and reading it back. *)
Lemma getProp_setProp (o : JS.Obj) (key key' : string) (v : JS.JSON) :
  JS.getProp (JS.setProp o key v) key'
  = if String.eqb key key' then Some v else JS.getProp o key'.
Proof.
  induction o as [| [k x] o IH]; cbn [JS.setProp JS.getProp].
  - destruct (String.eqb_spec key key'); reflexivity.
  - destruct (String.eqb_spec k key) as [-> | N]; cbn [JS.getProp].
    + destruct (String.eqb_spec key key'); reflexivity.
    + rewrite IH. destruct (String.eqb_spec k key') as [-> | N'].
      * destruct (String.eqb_spec key key'); congruence.
      * reflexivity.
Qed.

Lemma spread_snoc (prev next : JS.Obj) (key : string) (v : JS.JSON) :
  JS.spread prev (next ++ [(key, v)]) = JS.setProp (JS.spread prev next) key v.
Proof. unfold JS.spread. now rewrite fold_left_app. Qed.

(** X6.  The reducer of the extracted data: [{ ...prev, ...next }[key]]
    is [next[key]] when [next] has the key (its last binding, should the
    list repeat a key), and [prev[key]] otherwise. *)
Theorem spread_lookup (prev next : JS.Obj) (key : string) :
  JS.getProp (JS.spread prev next) key
  = match JS.getProp (rev next) key with
    | Some v => Some v
    | None => JS.getProp prev key
    end.
Proof.
  induction next as [| [k v] next IH] using rev_ind.
  - reflexivity.
  - rewrite spread_snoc, getProp_setProp, rev_app_distr. cbn [rev app JS.getProp].
    destruct (String.eqb_spec k key); [reflexivity | exact IH].
Qed.

Lemma merged_keeps (sel : State.Write -> option JS.Obj) (d : State.Delta) (key : string) :
  forall prev : JS.Obj,
    JS.getProp prev key <> None -> JS.getProp (State.merged sel d prev) key <> None.
Proof.
  unfold State.merged.
  induction d as [| w d IH]; intros prev H; cbn [fold_left]; [exact H |].
  destruct (sel w) as [v |]; apply IH; [| exact H].
  rewrite spread_lookup. destruct (JS.getProp (rev v) key); [discriminate | exact H].
Qed.

(** X7.  Extracted data is never lost: a key present in the extracted
    data stays present along any run (its value may be replaced by a later
    extraction of the same key). *)
Theorem extracted_keys_are_kept (context : Graph.AgentContext) (ws : list World.t)
    (c : Graph.Config) (key : string) :
  JS.getProp (State.extractedData (snd c)) key <> None ->
  JS.getProp (State.extractedData (snd (Graph.run context ws c))) key <> None.
Proof.
  induction ws as [| w ws IH] using rev_ind; intros H; [exact H |].
  rewrite run_snoc. specialize (IH H).
  destruct (Graph.run context ws c) as [n s]. cbn [snd] in *.
  unfold Graph.step. destruct (Graph.activate context n w s) as [delta |]; cbn [snd].
  - cbn [State.apply State.extractedData]. now apply merged_keeps.
  - exact IH.
Qed.

Lemma extracted_keys_are_kept_witness :
  JS.getProp (State.extractedData (snd (searchRun 11))) "headlines"
  = Some (JS.JArr [JS.JStr "Cats!"]) /\
  JS.getProp (State.extractedData (snd (Graph.run threeRetries [World.calm; World.calm]
                                          (searchRun 11)))) "headlines"
  <> None.
Proof.
  split; [vm_compute; reflexivity |].
  apply extracted_keys_are_kept. vm_compute. discriminate.
Defined.

Lemma guarded_type (same : ActionType -> bool) (s : State.t) (a : Action.t) :
  Nodes.guarded same s = Some a ->
  same (Action.type a) = true /\ JS.truthy (Action.target a) = true.
Proof. intros H. apply guarded_some in H. tauto. Qed.

Ltac result_ok :=
  match goal with
  | G : Nodes.guarded _ _ = Some ?a |- _ =>
      apply guarded_type in G as [Gt Gtarget];
      destruct (Action.type a) eqn:Etype; try discriminate Gt;
      unfold wellFormedResult; cbn; rewrite ?Etype;
      repeat split; unfold hasExecutor; auto; try discriminate; try tauto
  end.

Lemma wellRecorded_step (context : Graph.AgentContext) (w : World.t) (c : Graph.Config) :
  1 <= HealingConfig.maxRetries context ->
  wellRecorded context c -> wellRecorded context (Graph.step context w c).
Proof.
  intros Hmax (Hc & Hr & Hh).
  split; [now apply counter_step |].
  destruct c as [n s]. cbn [fst snd] in *.
  destruct n; cbn [counterAt] in Hc;
    open_step; split_node; cbn [snd];
    cbn [State.apply State.results State.healingHistory State.appended fold_left];
    (split; [try exact Hr | try exact Hh]);
    try (apply Forall_app; split; [assumption |]; apply Forall_cons; [| apply Forall_nil]).
  all: try result_ok.
  all: reflect_tests; unfold wellFormedAttempt; cbn;
    repeat split; try lia; try discriminate; try tauto; auto 10.
  all: try (intros [H | [H | [H | []]]]; discriminate H).
Qed.

Lemma wellRecorded_reachable (context : Graph.AgentContext) (c : Graph.Config) :
  1 <= HealingConfig.maxRetries context ->
  Graph.reachable context c -> wellRecorded context c.
Proof.
  intros Hmax. revert c. apply reachable_ind.
  - intros task. repeat split; constructor.
  - intros w c. now apply wellRecorded_step.
Qed.

(** ** What the runs record *)

(** X8.  In every reachable state of a run with [maxRetries >= 1], each step
    result is for an action that has an executor and a non-empty target,
    carries an error text exactly when it failed, and is marked as healed
    for click and fill only; each healing attempt is numbered between 1
    and [maxRetries], names a new selector exactly when it found the
    element, which it does under the three detection strategies and no
    other. *)
Theorem recorded_entries_are_well_formed
    (context : Graph.AgentContext) (c : Graph.Config) :
  1 <= HealingConfig.maxRetries context ->
  Graph.reachable context c ->
  Forall wellFormedResult (State.results (snd c)) /\
  Forall (wellFormedAttempt context) (State.healingHistory (snd c)).
Proof.
  intros Hmax Hreach.
  destruct (wellRecorded_reachable context c Hmax Hreach) as (_ & Hr & Hh).
  split; assumption.
Qed.

Lemma recorded_entries_are_well_formed_witness :
  map HealingAttempt.strategy (State.healingHistory (snd (searchRun 7)))
  = ["vision-redetection"] /\
  Forall (wellFormedAttempt threeRetries) (State.healingHistory (snd (searchRun 7))) /\
  Forall wellFormedResult (State.results (snd (searchRun 7))).
Proof.
  destruct (recorded_entries_are_well_formed threeRetries (searchRun 7)) as [Hr Hh].
  - cbn. lia.
  - apply searchRun_reachable.
  - split; [vm_compute; reflexivity | split; assumption].
Defined.



(** X9.  A repair found on the last permitted attempt is not tried: with
    [maxRetries = 2] a fill fails, the heal node finds the input and hands
    back the repaired action with the healing flag up, and the run goes on
    to the success node; with [maxRetries = 3] the same worlds lead back
    to the fill executor. *)
Theorem last_repair_is_dropped :
  fst (failThenHealWith twoRetries) = Node.success /\
  State.currentAction (snd (failThenHealWith twoRetries))
  = Some (Action.withTarget fillSearch "#q") /\
  State.needsHealing (snd (failThenHealWith twoRetries)) = true /\
  State.healingAttempts (snd (failThenHealWith twoRetries)) = 2 /\
  map HealingAttempt.strategy (State.healingHistory (snd (failThenHealWith twoRetries)))
  = ["vision-redetection"] /\
  fst (failThenHealWith threeRetries) = Node.fill.
Proof. vm_compute. repeat split; reflexivity. Qed.

(** X10.  The delay before a healing attempt: with a base delay that is not
    negative, the exponential schedule waits at least as long as the
    linear one at every attempt, and the two agree on the first two. *)
Theorem exponential_backoff_waits_longer (base : Z) (attempts : Z) (retries : Z) :
  0 <= base -> 0 <= attempts ->
  Nodes.backoffDelay (HealingConfig.mk true retries Linear base) attempts
  <= Nodes.backoffDelay (HealingConfig.mk true retries Exponential base) attempts /\
  (attempts <= 1 ->
   Nodes.backoffDelay (HealingConfig.mk true retries Linear base) attempts
   = Nodes.backoffDelay (HealingConfig.mk true retries Exponential base) attempts).
Proof.
  intros Hbase Ha. unfold Nodes.backoffDelay. cbn [HealingConfig.backoff HealingConfig.baseDelayMs].
  assert (Hpow : attempts + 1 <= 2 ^ attempts).
  { apply (natlike_ind (fun a => a + 1 <= 2 ^ a));
      [cbn; lia | intros x Hx IH; rewrite Z.pow_succ_r by exact Hx; lia | exact Ha]. }
  split; [nia |].
  intros H1. assert (Hcase : attempts = 0 \/ attempts = 1) by lia.
  destruct Hcase as [-> | ->]; reflexivity.
Qed.

Lemma exponential_backoff_waits_longer_witness :
  Nodes.backoffDelay (HealingConfig.mk true 3 Linear 1000) 2 = 3000 /\
  Nodes.backoffDelay (HealingConfig.mk true 3 Exponential 1000) 2 = 4000 /\
  Nodes.backoffDelay (HealingConfig.mk true 3 Linear 1000) 2
  <= Nodes.backoffDelay (HealingConfig.mk true 3 Exponential 1000) 2.
Proof.
  split; [reflexivity | split; [reflexivity |]].
  apply (exponential_backoff_waits_longer 1000 2 3); lia.
Defined.

Section GradingMore.

Variable host : Graders.Host.

Lemma someOf_never_throws {A : Type} (p : A -> Graders.Completion bool) (xs : list A) :
  (forall x, exists b, p x = Graders.Returns b) ->
  exists b, Graders.someOf p xs = Graders.Returns b.
Proof.
  intros Hp. induction xs as [| x xs IH]; cbn [Graders.someOf]; [now exists false |].
  destruct (Hp x) as [[] ->]; [now exists true | exact IH].
Qed.

Lemma checkEquals_returns (data : option JS.Obj) (f : string) (v : Graders.Pattern host) :
  exists b, Graders.checkEquals host data f v = Graders.Returns b.
Proof.
  unfold Graders.checkEquals.
  destruct data as [obj |]; [| now eexists].
  destruct (Graders.getNestedField host obj f) as [[[] | | |] |]; cbn; now eexists.
Qed.

Lemma includesLowered_text (haystack text : string) :
  Graders.includesLowered host haystack (Graders.Text text)
  = Graders.Returns (JS.includes (Graders.toLowerCase host haystack)
                       (Graders.toLowerCase host text)).
Proof. reflexivity. Qed.

Lemma checkContains_throws (data : option JS.Obj) (f : string) (v : Graders.Pattern host)
    (e : Graders.Thrown) :
  Graders.checkContains host data f v = Graders.Throws e ->
  e = Graders.TypeError /\
  exists obj, data = Some obj /\
    ((exists r, v = Graders.Regex r) \/
     Graders.getNestedField host obj f = Some Graders.Function).
Proof.
  unfold Graders.checkContains.
  destruct data as [obj |]; [| discriminate].
  destruct v as [text | r].
  - destruct (Graders.getNestedField host obj f) as [[x | | |] |] eqn:E;
      cbn [Graders.stringify]; rewrite ?includesLowered_text; try discriminate.
    + destruct x; cbn [Graders.stringify]; rewrite ?includesLowered_text;
        try discriminate.
      intros H.
      destruct (someOf_never_throws
                  (fun item => match item with
                               | JS.JStr s => Graders.includesLowered host s (Graders.Text text)
                               | _ => Graders.includesLowered host (JS.stringify item)
                                        (Graders.Text text)
                               end) items) as [b Hb].
      { intros item. destruct item; rewrite includesLowered_text; now eexists. }
      rewrite Hb in H. discriminate.
    + intros [= <-]. split; [reflexivity |]. exists obj. split; [reflexivity |].
      now right.
  - intros H. assert (He : e = Graders.TypeError).
    { destruct (Graders.getNestedField host obj f) as [[x | | |] |]; try discriminate.
      - destruct x; cbn in H; try (injection H as <-; reflexivity).
        induction items as [| item items IH]; cbn in H; [discriminate |].
        destruct item; cbn in H; injection H as <-; reflexivity.
      - cbn in H. now injection H as <-.
      - cbn in H. now injection H as <-. }
    split; [exact He |]. exists obj. split; [reflexivity |]. left. now exists r.
Qed.

Lemma checkMatches_throws (data : option JS.Obj) (f : string) (v : Graders.Pattern host)
    (e : Graders.Thrown) :
  Graders.checkMatches host data f v = Graders.Throws e ->
  e = Graders.SyntaxError /\
  exists source, v = Graders.Text source /\ Graders.newRegExp host source = None.
Proof.
  unfold Graders.checkMatches.
  destruct data as [obj |]; [| discriminate].
  destruct (Graders.getNestedField host obj f) as [x |]; [| discriminate].
  destruct v as [source | r]; cbv zeta.
  - destruct (Graders.newRegExp host source) eqn:E.
    + destruct x as [[] | | |]; discriminate.
    + intros [= <-]. split; [reflexivity |]. now exists source.
  - destruct x as [[] | | |]; discriminate.
Qed.

End GradingMore.

(** X12.  When the grader throws.  [gradeResult] throws only while
    grading a successful run with data, field and value: a [TypeError]
    under contains, when the expected value is a regular expression or the
    path resolves to a function; a [SyntaxError] under matches, when the
    path resolves and the source of the pattern does not compile.  It
    never throws under equals or exists. *)
Theorem grading_throws_only
    (host : Graders.Host) (result : option TaskResult.t)
    (expected : Graders.ExpectedOutcome host) (e : Graders.Thrown) :
  Graders.gradeResult host result expected = Graders.Throws e ->
  exists r obj f v,
    result = Some r /\ TaskResult.success r = true /\ TaskResult.data r = Some obj /\
    Graders.field expected = Some f /\ Graders.value expected = Some v /\
    ((Graders.type expected = Graders.Contains /\ e = Graders.TypeError /\
      ((exists regex, v = Graders.Regex regex) \/
       Graders.getNestedField host obj f = Some Graders.Function)) \/
     (Graders.type expected = Graders.Matches /\ e = Graders.SyntaxError /\
      Graders.getNestedField host obj f <> None /\
      exists source, v = Graders.Text source /\ Graders.newRegExp host source = None)).
Proof.
  unfold Graders.gradeResult.
  destruct result as [r |]; [| discriminate].
  destruct (TaskResult.success r) eqn:Hs; cbn [negb]; [| discriminate].
  destruct expected as [ty f v]. cbn [Graders.type Graders.field Graders.value].
  unfold Graders.checked. cbn [Graders.field Graders.value].
  destruct ty; try discriminate;
    destruct f as [f |]; try discriminate;
    destruct v as [v |]; try discriminate;
    destruct (negb (JS.truthy (Some f)) || negb (Graders.truthyValue (Some v)));
    try discriminate; intros H.
  - destruct (checkContains_throws host _ _ _ _ H) as (-> & obj & Hd & Hcase).
    exists r, obj, f, v. repeat split; try assumption. left. repeat split. exact Hcase.
  - destruct (checkEquals_returns host (TaskResult.data r) f v) as [b Hb].
    rewrite Hb in H. discriminate.
  - destruct (checkMatches_throws host _ _ _ _ H) as (-> & source & -> & Hnew).
    unfold Graders.checkMatches in H.
    destruct (TaskResult.data r) as [obj |] eqn:Hd; [| discriminate].
    exists r, obj, f, (Graders.Text source). repeat split; try assumption.
    right. repeat split; try assumption.
    + intros Hnone. rewrite Hnone in H. discriminate.
    + now exists source.
Qed.

Lemma grading_throws_only_witness :
  gradeLiteral (Some passedRun) Graders.Contains "tags.join" "red"
  = Graders.Throws Graders.TypeError /\
  exists obj,
    TaskResult.data passedRun = Some obj /\
    Graders.getNestedField Graders.literalHost obj "tags.join" = Some Graders.Function.
Proof.
  split; [vm_compute; reflexivity |].
  destruct (grading_throws_only Graders.literalHost (Some passedRun)
              (Graders.expect Graders.Contains (Some "tags.join")
                 (Some (Graders.Text "red"))) Graders.TypeError)
    as (r & obj & f & v & Hr & _ & Hd & Hf & Hv & Hcase).
  - vm_compute. reflexivity.
  - injection Hr as <-. cbn in Hf, Hv. injection Hf as <-. injection Hv as <-.
    exists obj. split; [exact Hd |].
    destruct Hcase as [(_ & _ & [[regex Hregex] | Hfun]) | (Hty & _)].
    + discriminate Hregex.
    + exact Hfun.
    + discriminate Hty.
Defined.

Lemma splitDots_nonempty (s : string) : JS.splitDots s <> [].
Proof.
  induction s as [| c s IH]; cbn [JS.splitDots]; [discriminate |].
  destruct (Ascii.eqb c "."); [discriminate |].
  destruct (JS.splitDots s); [contradiction | discriminate].
Qed.

(** [(p + '.' + q).split('.')] is [p.split('.')] followed by [q.split('.')]. *)
Lemma splitDots_join (p q : string) :
  JS.splitDots (p +++ "." +++ q) = JS.splitDots p ++ JS.splitDots q.
Proof.
  change ("." +++ q) with (String "."%char q).
  induction p as [| c p IH]; [reflexivity |].
  cbn [String.append JS.splitDots].
  destruct (Ascii.eqb c "."); [now rewrite IH |].
  rewrite IH. pose proof (splitDots_nonempty p).
  destruct (JS.splitDots p); [contradiction | reflexivity].
Qed.

Lemma walk_undefined (host : Graders.Host) (parts : list string) :
  Graders.walk host None parts = None.
Proof. destruct parts; reflexivity. Qed.

Lemma walk_app (host : Graders.Host) (ps qs : list string) :
  forall current : option Graders.Value,
    Graders.walk host current (ps ++ qs)
    = Graders.walk host (Graders.walk host current ps) qs.
Proof.
  induction ps as [| p ps IH]; intros current; [reflexivity |].
  cbn [app Graders.walk].
  destruct current as [[[] | | |] |]; cbn [Graders.isObjectType];
    try apply IH; now rewrite walk_undefined.
Qed.

(** X13.  Dot-paths compose: resolving [p.q] is resolving [p] and walking
    on along [q]; in particular, when [p] resolves to an object of the
    data, [p.q] resolves as [q] does inside that object. *)
Theorem nested_field_composes (host : Graders.Host) (obj : JS.Obj) (p q : string) :
  Graders.getNestedField host obj (p +++ "." +++ q)
  = Graders.walk host (Graders.getNestedField host obj p) (JS.splitDots q) /\
  (forall inner : JS.Obj,
     Graders.getNestedField host obj p = Some (Graders.Data (JS.JObj inner)) ->
     Graders.getNestedField host obj (p +++ "." +++ q)
     = Graders.getNestedField host inner q).
Proof.
  assert (E : Graders.getNestedField host obj (p +++ "." +++ q)
              = Graders.walk host (Graders.getNestedField host obj p) (JS.splitDots q)).
  { unfold Graders.getNestedField. now rewrite splitDots_join, walk_app. }
  split; [exact E |].
  intros inner Hp. rewrite E, Hp. reflexivity.
Qed.

(** X14.  A path without a dot that names a key of the data resolves to
    the value stored under the key, whatever the prototypes hold: own
    properties shadow inherited ones. *)
Theorem own_key_resolves (host : Graders.Host) (obj : JS.Obj) (key : string) (v : JS.JSON) :
  JS.splitDots key = [key] ->
  JS.getProp obj key = Some v ->
  Graders.getNestedField host obj key = Some (Graders.Data v).
Proof.
  intros Hk Hv. unfold Graders.getNestedField. rewrite Hk.
  cbn [Graders.walk Graders.isObjectType Graders.member]. now rewrite Hv.
Qed.

Lemma nested_field_composes_witness :
  Graders.getNestedField Graders.literalHost pageData ("meta" +++ "." +++ "author.name")
  = Graders.getNestedField Graders.literalHost
      [("author", JS.JObj [("name", JS.JStr "Ada")])] "author.name".
Proof.
  destruct (nested_field_composes Graders.literalHost pageData "meta" "author.name")
    as [_ Hinner].
  apply Hinner. reflexivity.
Defined.

Lemma own_key_resolves_witness :
  Graders.getNestedField Graders.literalHost
    [("constructor", JS.JStr "Acme Ltd")] "constructor"
  = Some (Graders.Data (JS.JStr "Acme Ltd")).
Proof. apply own_key_resolves; reflexivity. Defined.

(** X15.  The estimate is a proportion: for integers of magnitude at most
    2^53 with [n >= 0], and fuel for the rounds of the loop, the call
    returns, with a value between 0 and 1 when [c >= 0] and a value that
    is at most 0 when [c] is negative. *)
Theorem estimate_is_a_proportion (fuel : nat) (n c k : Z) :
  0 <= n -> Double.safe n -> Double.safe c -> (Z.to_nat k < fuel)%nat ->
  exists v,
    Metrics.estimatePassAtK fuel (Double.ofZ n) (Double.ofZ c) (Double.ofZ k) = Some v /\
    (0 <= c -> Double.le Double.zero v /\ Double.le v Double.one) /\
    (c < 0 -> Double.le v Double.zero).
Proof.
  intros Hn0 Sn Sc Hfuel.
  assert (Hn : 0 <= n <= 2 ^ 53) by (unfold Double.safe in Sn; lia).
  destruct (DoubleFacts.estimate_returns n k fuel Hn Hfuel c) as [v Ev].
  exists v. split; [exact Ev | split].
  - intros Hc. exact (DoubleFacts.estimate_unit n k fuel Hn Hfuel c v Hc Sc Ev).
  - intros Hc. exact (DoubleFacts.estimate_nonpositive n k fuel Hn Hfuel c v Hc Sc Ev).
Qed.

Lemma estimate_is_a_proportion_witness :
  exists v,
    Metrics.estimatePassAtK 6 (Double.ofZ 10) (Double.ofZ 3) (Double.ofZ 5) = Some v /\
    Double.le Double.zero v /\ Double.le v Double.one.
Proof.
  destruct (estimate_is_a_proportion 6 10 3 5) as (v & Ev & Hunit & _);
    try (unfold Double.safe; lia).
  exists v. split; [exact Ev | apply Hunit; lia].
Defined.

(** X16.  Past 2^53 the loop never ends: for [2^53 < k <= n] and [c]
    neither zero nor [n] or more, the counter stops growing at 2^53 and no
    amount of fuel brings the loop to its end. *)
Theorem estimator_loop_never_ends (fuel : nat) (n c k : Z) :
  2 ^ 53 < k -> k <= n -> c <> 0 -> c < n ->
  Metrics.estimatePassAtK fuel (Double.ofZ n) (Double.ofZ c) (Double.ofZ k) = None.
Proof.
  intros Hk Hkn Hc Hcn. rewrite DoubleFacts.estimate_integers.
  destruct (Z.ltb_spec n k); [lia |].
  destruct (Z.eqb_spec c 0); [lia |].
  destruct (Z.leb_spec n c); [lia |].
  change Double.zero with (Double.ofZ 0).
  rewrite DoubleFacts.loop_runs_on by lia. reflexivity.
Qed.

Lemma estimator_loop_never_ends_witness :
  Metrics.estimatePassAtK 1000 (Double.ofZ (2 ^ 54)) (Double.ofZ 1) (Double.ofZ (2 ^ 53 + 2))
  = None.
Proof. apply estimator_loop_never_ends; lia. Defined.

(** X17.  pass@k at the edges: with [k] at or beyond the number of
    attempts it is true exactly when some attempt succeeded; with [k = 0]
    it is false; and when every attempt failed it is false for every [k],
    negative ones included. *)
Theorem passAtK_saturates (results : list bool) (k : Z) :
  (JS.length results <= k ->
   Metrics.calculatePassAtK results k = existsb (fun success => success) results) /\
  Metrics.calculatePassAtK results 0 = false /\
  (Forall (fun success => success = false) results ->
   Metrics.calculatePassAtK results k = false).
Proof.
  unfold Metrics.calculatePassAtK, JS.some, JS.slice0, JS.length.
  repeat split.
  - intros Hk. destruct (Z.ltb_spec k 0); [lia |].
    rewrite Z.min_r by lia. rewrite Nat2Z.id. now rewrite firstn_all.
  - cbn. destruct results; reflexivity.
  - intros Hall.
    assert (H : forall l : list bool,
               Forall (fun success => success = false) l ->
               existsb (fun success => success) l = false).
    { induction l as [| b l IH]; intros Hl; [reflexivity |].
      inversion Hl as [| ? ? Hb Hrest]; subst. cbn. now apply IH. }
    apply H. clear H.
    generalize (Z.to_nat (if k <? 0
                          then Z.max (Z.of_nat (List.length results) + k) 0
                          else Z.min k (Z.of_nat (List.length results)))).
    intros m. revert m. induction Hall as [| b l Hb Hl IH]; intros m.
    + rewrite firstn_nil. constructor.
    + destruct m; cbn [firstn]; constructor; [exact Hb | apply IH].
Qed.

Lemma passAtK_saturates_witness :
  Metrics.calculatePassAtK [false; true] 7 = true /\
  Metrics.calculatePassAtK [false; false] (-1) = false.
Proof.
  destruct (passAtK_saturates [false; true] 7) as (Hsat & _ & _).
  destruct (passAtK_saturates [false; false] (-1)) as (_ & _ & Hnone).
  split.
  - rewrite Hsat; [reflexivity | cbn; lia].
  - apply Hnone. repeat constructor.
Defined.

(** ** Rates and aggregates *)

Lemma passing_bounds (k : Z) (entries : list (list bool)) :
  0 <= passing k entries <= JS.length entries.
Proof.
  unfold passing, JS.length.
  pose proof (filter_length_le (fun results => Metrics.calculatePassAtK results k) entries).
  lia.
Qed.

Lemma passing_monotone (k1 k2 : Z) (entries : list (list bool)) :
  0 <= k1 <= k2 -> passing k1 entries <= passing k2 entries.
Proof.
  intros Hk. unfold passing, JS.length.
  induction entries as [| results entries IH]; [reflexivity |].
  cbn [filter].
  destruct (Metrics.calculatePassAtK results k1) eqn:E1.
  - assert (E2 : Metrics.calculatePassAtK results k2 = true).
    { apply calculatePassAtK_spec; [lia |].
      apply calculatePassAtK_spec in E1; [| lia].
      destruct E1 as (i & Hi & Hr). exists i. split; [lia | exact Hr]. }
    rewrite E2. cbn [List.length]. lia.
  - destruct (Metrics.calculatePassAtK results k2); cbn [List.length]; lia.
Qed.

(** The two counters of [calculatePassAtKRate] count exactly. *)
Lemma counters_count (k : Z) (entries : list (list bool)) :
  forall p t : Z,
    0 <= p <= t -> t + JS.length entries <= 2 ^ 53 ->
    fold_left (Aggregates.countScenario k) entries (Double.ofZ p, Double.ofZ t)
    = (Double.ofZ (p + passing k entries), Double.ofZ (t + JS.length entries)).
Proof.
  induction entries as [| results entries IH]; intros p t Hp Ht.
  - unfold passing, JS.length. cbn. now rewrite !Z.add_0_r.
  - cbn [fold_left Aggregates.countScenario].
    assert (Hlen : JS.length (results :: entries) = JS.length entries + 1)
      by (unfold JS.length; cbn [List.length]; lia).
    rewrite Hlen in Ht |- *.
    assert (0 <= JS.length entries) by (unfold JS.length; lia).
    rewrite (DoubleFacts.add_one t) by (unfold Double.safe; lia).
    unfold passing in *. cbn [filter].
    destruct (Metrics.calculatePassAtK results k).
    + rewrite (DoubleFacts.add_one p) by (unfold Double.safe; lia).
      rewrite IH by lia. f_equal; f_equal; unfold JS.length; cbn [List.length]; lia.
    + rewrite IH by lia. f_equal; f_equal; unfold JS.length; cbn [List.length]; lia.
Qed.

Lemma rate_value (scenarioResults : list (string * list bool)) (k : Z) :
  JS.length scenarioResults <= 2 ^ 53 ->
  Aggregates.calculatePassAtKRate scenarioResults k
  = if JS.length scenarioResults =? 0 then Double.zero
    else Double.round (inject_Z (passing k (map snd scenarioResults))
                       / inject_Z (JS.length scenarioResults)).
Proof.
  intros Hlen. unfold Aggregates.calculatePassAtKRate.
  assert (Hmap : JS.length (map snd scenarioResults) = JS.length scenarioResults)
    by (unfold JS.length; now rewrite length_map).
  change (Double.zero, Double.zero) with (Double.ofZ 0, Double.ofZ 0).
  rewrite counters_count by lia. rewrite Hmap. cbn [Z.add].
  change Double.zero with (Double.ofZ 0). rewrite DoubleFacts.eqb_ofZ.
  destruct (Z.eqb_spec (JS.length scenarioResults) 0); [reflexivity |].
  apply DoubleFacts.div_by_integer. unfold JS.length in *. lia.
Qed.

Lemma proportion_rounds_into_unit (p t : Z) :
  0 <= p <= t -> 0 < t ->
  exists v, Double.round (inject_Z p / inject_Z t) = Double.Finite v /\ (0 <= v <= 1)%Q.
Proof.
  intros Hp Ht.
  apply DoubleFacts.round_between;
    [apply DoubleFacts.round_zero | apply DoubleFacts.round_one |].
  split.
  - rewrite <- (DoubleFacts.quotient_zero t). apply DoubleFacts.quotient_le; [lia |].
    change 0%Q with (inject_Z 0). rewrite <- Zle_Qle. lia.
  - rewrite <- (DoubleFacts.quotient_self t) by lia. apply DoubleFacts.quotient_le; [lia |].
    rewrite <- Zle_Qle. lia.
Qed.

(** X18.  The pass@k rate over a map of scenarios: for a map of at most 2^53
    entries it is the rounded proportion of the scenarios that pass at [k],
    it lies between 0 and 1, it is 0 for the empty map, and for
    [0 <= k1 <= k2] the rate at [k1] does not exceed the rate at [k2]. *)
Theorem passAtKRate_is_a_proportion
    (scenarioResults : list (string * list bool)) (k1 k2 : Z) :
  JS.length scenarioResults <= 2 ^ 53 ->
  (Aggregates.calculatePassAtKRate scenarioResults k1
   = if JS.length scenarioResults =? 0 then Double.zero
     else Double.round (inject_Z (passing k1 (map snd scenarioResults))
                        / inject_Z (JS.length scenarioResults))) /\
  Double.le Double.zero (Aggregates.calculatePassAtKRate scenarioResults k1) /\
  Double.le (Aggregates.calculatePassAtKRate scenarioResults k1) Double.one /\
  (0 <= k1 <= k2 ->
   Double.le (Aggregates.calculatePassAtKRate scenarioResults k1)
     (Aggregates.calculatePassAtKRate scenarioResults k2)).
Proof.
  intros Hlen.
  assert (Hmap : JS.length (map snd scenarioResults) = JS.length scenarioResults)
    by (unfold JS.length; now rewrite length_map).
  pose proof (passing_bounds k1 (map snd scenarioResults)) as Hb.
  rewrite Hmap in Hb.
  split; [now apply rate_value |].
  rewrite !rate_value by exact Hlen.
  destruct (Z.eqb_spec (JS.length scenarioResults) 0) as [E | N].
  - unfold Double.zero, Double.one. cbn [Double.le]. repeat split; try lra; intros _; lra.
  - assert (Hpos : 0 < JS.length scenarioResults) by (unfold JS.length in *; lia).
    destruct (proportion_rounds_into_unit _ _ Hb Hpos) as (v & Hv & Hrange).
    split; [| split].
    + rewrite Hv. unfold Double.zero. cbn [Double.le]. lra.
    + rewrite Hv. unfold Double.one. cbn [Double.le]. lra.
    + intros Hk. apply DoubleFacts.round_mono, DoubleFacts.quotient_le; [exact Hpos |].
      rewrite <- Zle_Qle. now apply passing_monotone.
Qed.

Lemma passAtKRate_is_a_proportion_witness :
  Aggregates.calculatePassAtKRate
    [("login", [false; true]); ("search", [false; false]); ("news", [true])] 1
  = Double.round (1 # 3) /\
  Double.le
    (Aggregates.calculatePassAtKRate
       [("login", [false; true]); ("search", [false; false]); ("news", [true])] 1)
    (Aggregates.calculatePassAtKRate
       [("login", [false; true]); ("search", [false; false]); ("news", [true])] 2).
Proof.
  destruct (passAtKRate_is_a_proportion
              [("login", [false; true]); ("search", [false; false]); ("news", [true])] 1 2)
    as (Hvalue & _ & _ & Hmono).
  - vm_compute. discriminate.
  - split.
    + rewrite Hvalue. vm_compute. reflexivity.
    + apply Hmono. lia.
Defined.

Lemma flag_le (a b : bool) :
  (a = true -> b = true) ->
  Double.le (if a then Double.one else Double.zero) (if b then Double.one else Double.zero).
Proof.
  intros H. destruct a, b; unfold Double.zero, Double.one; cbn [Double.le]; try lra;
    discriminate (H eq_refl).
Qed.

Lemma passAtK_grows (results : list bool) (k1 k2 : Z) :
  0 <= k1 <= k2 ->
  Metrics.calculatePassAtK results k1 = true -> Metrics.calculatePassAtK results k2 = true.
Proof.
  intros Hk H1. apply calculatePassAtK_spec; [lia |].
  apply calculatePassAtK_spec in H1; [| lia].
  destruct H1 as (i & Hi & Hr). exists i. split; [lia | exact Hr].
Qed.

(** X19.  The aggregate metrics of a list of at most 2^53 samples: pass@1,
    pass@3 and pass@5 are 0 or 1 and do not decrease in that order; the
    success rate and the healing rate lie between 0 and 1; and with no
    sample every metric is 0. *)
Theorem aggregate_metrics_are_ordered (results : list Aggregates.Sample) :
  JS.length results <= 2 ^ 53 ->
  let m := Aggregates.calculateAggregateMetrics results in
  Double.le (Aggregates.passAt1 m) (Aggregates.passAt3 m) /\
  Double.le (Aggregates.passAt3 m) (Aggregates.passAt5 m) /\
  Double.le Double.zero (Aggregates.successRate m) /\
  Double.le (Aggregates.successRate m) Double.one /\
  Double.le Double.zero (Aggregates.healingRate m) /\
  Double.le (Aggregates.healingRate m) Double.one /\
  (results = [] ->
   m = Aggregates.mk Double.zero Double.zero Double.zero Double.zero Double.zero
         Double.zero).
Proof.
  intros Hlen m. subst m. unfold Aggregates.calculateAggregateMetrics.
  cbn [Aggregates.passAt1 Aggregates.passAt3 Aggregates.passAt5 Aggregates.successRate
       Aggregates.healingRate].
  assert (Hrate : forall p : Aggregates.Sample -> bool,
            Double.le Double.zero
              (Aggregates.perResult (Double.ofZ (JS.length (filter p results))) results) /\
            Double.le
              (Aggregates.perResult (Double.ofZ (JS.length (filter p results))) results)
              Double.one).
  { intros p. unfold Aggregates.perResult.
    destruct (Z.ltb_spec 0 (JS.length results)) as [Hpos | _];
      [| unfold Double.zero, Double.one; cbn [Double.le]; split; lra].
    assert (E : Double.div (Double.ofZ (JS.length (filter p results)))
                  (Double.ofZ (JS.length results))
                = Double.round (inject_Z (JS.length (filter p results))
                                / inject_Z (JS.length results)))
      by (apply DoubleFacts.div_by_integer; exact Hpos).
    rewrite E.
    destruct (proportion_rounds_into_unit (JS.length (filter p results))
                (JS.length results)) as (v & -> & Hv).
    - unfold JS.length. pose proof (filter_length_le p results). lia.
    - exact Hpos.
    - unfold Double.zero, Double.one. cbn [Double.le]. split; lra. }
  split; [apply flag_le, passAtK_grows; lia |].
  split; [apply flag_le, passAtK_grows; lia |].
  split; [apply Hrate |]. split; [apply Hrate |].
  split; [apply Hrate |]. split; [apply Hrate |].
  intros ->. reflexivity.
Qed.

Lemma aggregate_metrics_are_ordered_witness :
  Aggregates.passAt1
    (Aggregates.calculateAggregateMetrics
       [Aggregates.sample false (Double.ofZ 120) true;
        Aggregates.sample true (Double.ofZ 80) false]) = Double.zero /\
  Aggregates.passAt3
    (Aggregates.calculateAggregateMetrics
       [Aggregates.sample false (Double.ofZ 120) true;
        Aggregates.sample true (Double.ofZ 80) false]) = Double.one /\
  Double.le
    (Aggregates.successRate
       (Aggregates.calculateAggregateMetrics
          [Aggregates.sample false (Double.ofZ 120) true;
           Aggregates.sample true (Double.ofZ 80) false]))
    Double.one.
Proof.
  destruct (aggregate_metrics_are_ordered
              [Aggregates.sample false (Double.ofZ 120) true;
               Aggregates.sample true (Double.ofZ 80) false])
    as (_ & _ & _ & Hrate & _).
  - vm_compute. discriminate.
  - split; [reflexivity | split; [reflexivity | exact Hrate]].
Defined.

(** ** The evaluation runner *)

Lemma filter_split_length {A : Type} (p : A -> bool) (l : list A) :
  JS.length (filter p l) + JS.length (filter (fun x => negb (p x)) l) = JS.length l.
Proof.
  unfold JS.length. induction l as [| x l IH]; [reflexivity |].
  cbn [filter]. destruct (p x); cbn [negb List.length]; lia.
Qed.

Lemma indexOf_absent (arr : list string) (e : string) :
  existsb (String.eqb e) arr = false -> Runner.indexOf arr e = -1.
Proof.
  induction arr as [| x arr IH]; cbn [existsb Runner.indexOf]; [reflexivity |].
  intros H. apply orb_false_iff in H as [Hx Hrest].
  rewrite String.eqb_sym, Hx, (IH Hrest). reflexivity.
Qed.

Lemma indexOf_range (arr : list string) (e : string) :
  -1 <= Runner.indexOf arr e < JS.length arr.
Proof.
  unfold JS.length. induction arr as [| x arr IH]; cbn [Runner.indexOf List.length]; [lia |].
  destruct (String.eqb x e); [lia |].
  destruct (Z.ltb_spec (Runner.indexOf arr e) 0); lia.
Qed.

Lemma indexOf_present (arr : list string) (e : string) :
  existsb (String.eqb e) arr = true -> 0 <= Runner.indexOf arr e.
Proof.
  induction arr as [| x arr IH]; cbn [existsb Runner.indexOf]; [discriminate |].
  intros H. rewrite String.eqb_sym in H.
  destruct (String.eqb x e); [lia |].
  cbn [orb] in H. specialize (IH H).
  destruct (Z.ltb_spec (Runner.indexOf arr e) 0); lia.
Qed.

(** The first index of [e] in [seen ++ e :: rest] is the length of
    [seen] exactly when [e] is not in [seen]. *)
Lemma indexOf_first (seen rest : list string) (e : string) :
  (Runner.indexOf (seen ++ e :: rest) e =? JS.length seen)
  = negb (existsb (String.eqb e) seen).
Proof.
  unfold JS.length.
  induction seen as [| x seen IH]; cbn [app Runner.indexOf existsb List.length].
  - now rewrite String.eqb_refl.
  - rewrite (String.eqb_sym e x).
    destruct (String.eqb x e) eqn:E; cbn [orb negb].
    + apply Z.eqb_neq. lia.
    + pose proof (indexOf_range (seen ++ e :: rest) e) as Hr.
      destruct (Z.ltb_spec (Runner.indexOf (seen ++ e :: rest) e) 0) as [Hneg | Hpos].
      * exfalso.
        assert (Hin : existsb (String.eqb e) (seen ++ e :: rest) = true).
        { rewrite existsb_app. cbn [existsb]. rewrite String.eqb_refl.
          now rewrite orb_true_r. }
        pose proof (indexOf_present _ _ Hin). lia.
      * rewrite <- IH.
        destruct (Z.eqb_spec (Runner.indexOf (seen ++ e :: rest) e) (Z.of_nat (List.length seen)));
          [apply Z.eqb_eq | apply Z.eqb_neq]; lia.
Qed.

Lemma firstOccurrences_fresh (rest : list string) :
  forall seen : list string,
    Runner.firstOccurrences (seen ++ rest) (JS.length seen) rest = fresh seen rest.
Proof.
  induction rest as [| e rest IH]; intros seen; [reflexivity |].
  cbn [Runner.firstOccurrences fresh].
  rewrite indexOf_first.
  assert (E : seen ++ e :: rest = (seen ++ [e]) ++ rest) by now rewrite <- app_assoc.
  assert (L : JS.length seen + 1 = JS.length (seen ++ [e]))
    by (unfold JS.length; rewrite length_app; cbn [List.length]; lia).
  rewrite E, L, IH.
  now destruct (existsb (String.eqb e) seen).
Qed.

Lemma existsb_eqb_In (e : string) (l : list string) :
  existsb (String.eqb e) l = true <-> In e l.
Proof.
  rewrite existsb_exists. split.
  - intros (x & Hx & E). apply String.eqb_eq in E. now subst.
  - intros H. exists e. split; [exact H | apply String.eqb_refl].
Qed.

Lemma fresh_spec (rest : list string) :
  forall seen : list string,
    NoDup (fresh seen rest) /\
    forall e, In e (fresh seen rest) <-> In e rest /\ ~ In e seen.
Proof.
  induction rest as [| x rest IH]; intros seen; cbn [fresh].
  - split; [constructor | intros e; cbn; tauto].
  - destruct (IH (seen ++ [x])) as [Hnd Hin].
    destruct (existsb (String.eqb x) seen) eqn:E.
    + apply existsb_eqb_In in E.
      split; [exact Hnd |].
      intros e. rewrite Hin, in_app_iff. cbn [In]. split.
      * intros [H1 H2]. split; [now right | tauto].
      * intros [[<- | H1] H2]; [contradiction |]. split; [exact H1 |].
        intros [H | [<- | []]]; contradiction.
    + assert (Hx : ~ In x seen).
      { intros H. apply existsb_eqb_In in H. congruence. }
      split.
      * constructor; [| exact Hnd].
        rewrite Hin, in_app_iff. cbn [In]. tauto.
      * intros e. cbn [In]. rewrite Hin, in_app_iff. cbn [In]. split.
        -- intros [<- | [H1 H2]]; [tauto |]. split; [now right | tauto].
        -- intros [[<- | H1] H2]; [now left |].
           destruct (string_dec x e) as [-> | N]; [now left |].
           right. split; [exact H1 |]. intros [H | [H | []]]; contradiction.
Qed.

Section Evaluation.

Variable host : Graders.Host.
Variable describe : Graders.Thrown -> string.

Lemma runAll_length (n : Z) (s : Runner.EvalScenario host) (supply : nat -> Runner.Attempt) :
  JS.length (Runner.runAll host describe n s supply) = Z.max n 0.
Proof.
  unfold Runner.runAll, JS.length. rewrite length_map, length_seq. lia.
Qed.

Lemma table_keys (kValues : list Z) (f : Z -> bool) (k : Z) :
  forall o : list (Z * bool),
    ~ In k kValues -> Runner.getKey o k = None ->
    Runner.getKey (fold_left (fun o k' => Runner.setKey o k' (f k')) kValues o) k = None.
Proof.
  induction kValues as [| k' kValues IH]; intros o Hk Ho; [exact Ho |].
  cbn [fold_left]. apply IH; [intros H; apply Hk; now right |].
  assert (Hne : k' <> k) by (intros ->; apply Hk; now left).
  clear IH Hk. induction o as [| [k0 v0] o IHo]; cbn [Runner.setKey Runner.getKey].
  - destruct (Z.eqb_spec k' k); [contradiction | reflexivity].
  - cbn [Runner.getKey] in Ho.
    destruct (Z.eqb_spec k0 k'); cbn [Runner.getKey];
      destruct (Z.eqb_spec k0 k); try congruence; now apply IHo.
Qed.

End Evaluation.

(** X20.  The entry of a scenario in the report: successes and failures add up
    to the number of runs, which is [runsPerScenario] when that is not
    negative; [attempts] repeats [runsPerScenario] as given; the error
    texts are those of the runs, each of them once and none of them
    empty; and a pass@k is recorded for the values of [kValues] only. *)
Theorem scenario_entry_adds_up
    (host : Graders.Host) (describe : Graders.Thrown -> string)
    (kValues : list Z) (runsPerScenario : Z)
    (s : Runner.EvalScenario host) (supply : nat -> Runner.Attempt) :
  let runResults := Runner.runAll host describe runsPerScenario s supply in
  let entry := Runner.summarise kValues runsPerScenario s runResults in
  Runner.successes entry + Runner.failures entry = Z.max runsPerScenario 0 /\
  Runner.attempts entry = runsPerScenario /\
  NoDup (Runner.errors entry) /\
  (forall e, In e (Runner.errors entry) <-> In e (errorTexts runResults)) /\
  (forall e, In e (Runner.errors entry) -> e <> EmptyString) /\
  (forall k, ~ In k kValues -> Runner.getKey (Runner.passAtK entry) k = None).
Proof.
  intros runResults entry. subst entry. unfold Runner.summarise.
  cbn [Runner.successes Runner.failures Runner.attempts Runner.errors Runner.passAtK].
  fold (errorTexts runResults).
  pose proof (firstOccurrences_fresh (errorTexts runResults) []) as Hfresh.
  cbn [app] in Hfresh. change (JS.length (@nil string)) with 0 in Hfresh.
  rewrite Hfresh.
  destruct (fresh_spec (errorTexts runResults) []) as [Hnd Hin].
  split; [| split; [reflexivity | split; [exact Hnd | split; [| split]]]].
  - rewrite filter_split_length. apply runAll_length.
  - intros e. rewrite Hin. cbn [In]. tauto.
  - intros e He. apply Hin in He as [He _].
    unfold errorTexts in He. apply in_flat_map in He as (r & _ & Hr).
    destruct (Runner.error r) as [t |]; [| contradiction].
    destruct t as [| c t]; cbn in Hr; [contradiction |].
    destruct Hr as [<- | []]. discriminate.
  - intros k Hk. now apply table_keys.
Qed.

Lemma scenario_entry_adds_up_witness :
  Runner.successes
    (Runner.summarise [1; 3] 3 titleScenario
       (Runner.runAll Graders.literalHost describeThrown 3 titleScenario threeAttempts))
  + Runner.failures
      (Runner.summarise [1; 3] 3 titleScenario
         (Runner.runAll Graders.literalHost describeThrown 3 titleScenario threeAttempts))
  = 3 /\
  Runner.errors
    (Runner.summarise [1; 3] 3 titleScenario
       (Runner.runAll Graders.literalHost describeThrown 3 titleScenario threeAttempts))
  = ["Error: net::ERR_ABORTED"] /\
  Runner.getKey
    (Runner.passAtK
       (Runner.summarise [1; 3] 3 titleScenario
          (Runner.runAll Graders.literalHost describeThrown 3 titleScenario threeAttempts)))
    5 = None.
Proof.
  destruct (scenario_entry_adds_up Graders.literalHost describeThrown [1; 3] 3
              titleScenario threeAttempts) as (Hsum & _ & _ & _ & _ & Hkeys).
  split; [exact Hsum |].
  split; [vm_compute; reflexivity |].
  apply Hkeys. cbn. intros [H | [H | []]]; discriminate H.
Defined.

Lemma no_key_no_pass (results : list Runner.EvalResult) (k : Z) :
  Forall (fun r => Runner.getKey (Runner.passAtK r) k = None) results ->
  filter (fun r => match Runner.getKey (Runner.passAtK r) k with
                   | Some true => true
                   | _ => false
                   end) results = [].
Proof.
  induction 1 as [| r results Hr _ IH]; [reflexivity |].
  cbn [filter]. now rewrite Hr.
Qed.

(** X21.  The summary of the report.  With no scenario every rate is NaN.  With
    scenarios, a rate whose [k] is not among [kValues] is 0 whatever the
    runs did: pass@1, pass@3 and pass@5 are read from the entries, which
    hold the requested values of [k] only. *)
Theorem summary_reads_requested_rates
    (host : Graders.Host) (describe : Graders.Thrown -> string)
    (kValues : list Z) (runsPerScenario : Z)
    (scenarios : list (Runner.EvalScenario host * (nat -> Runner.Attempt))) :
  let report := Runner.runEvaluation host describe kValues runsPerScenario scenarios in
  Runner.totalScenarios (snd report) = JS.length scenarios /\
  (scenarios = [] ->
   snd report = Runner.summary 0 Double.NaN Double.NaN Double.NaN Double.NaN) /\
  (scenarios <> [] ->
   (~ In 1 kValues -> Runner.passAt1 (snd report) = Double.zero) /\
   (~ In 3 kValues -> Runner.passAt3 (snd report) = Double.zero) /\
   (~ In 5 kValues -> Runner.passAt5 (snd report) = Double.zero)).
Proof.
  intros report. subst report. unfold Runner.runEvaluation. cbn [snd].
  set (results := map _ scenarios).
  assert (Hlen : JS.length results = JS.length scenarios)
    by (unfold JS.length, results; now rewrite length_map).
  split; [unfold Runner.summaryOf; cbn [Runner.totalScenarios]; exact Hlen |].
  split; [intros ->; reflexivity |].
  intros Hne.
  assert (Hpos : 0 < JS.length results).
  { rewrite Hlen. unfold JS.length. destruct scenarios; [contradiction | cbn; lia]. }
  assert (Hzero : forall k, ~ In k kValues -> Runner.passRate results k = Double.zero).
  { intros k Hk. unfold Runner.passRate.
    rewrite no_key_no_pass.
    - change (JS.length (@nil Runner.EvalResult)) with 0.
      unfold Double.ofZ at 1. rewrite DoubleFacts.div_by_integer by exact Hpos.
      rewrite (DoubleFacts.round_comp _ 0);
        [apply DoubleFacts.round_zero | apply DoubleFacts.quotient_zero].
    - apply Forall_forall. intros r Hr. unfold results in Hr.
      apply in_map_iff in Hr as ([s supply] & <- & _).
      unfold Runner.summarise. cbn [Runner.passAtK]. now apply table_keys. }
  unfold Runner.summaryOf. cbn [Runner.passAt1 Runner.passAt3 Runner.passAt5].
  repeat split; apply Hzero.
Qed.

Lemma summary_reads_requested_rates_witness :
  Runner.passAt5
    (snd (Runner.runEvaluation Graders.literalHost describeThrown [1; 3] 3
            [(titleScenario, threeAttempts)]))
  = Double.zero /\
  Runner.passAt3
    (snd (Runner.runEvaluation Graders.literalHost describeThrown [1; 3] 3
            [(titleScenario, threeAttempts)]))
  = Double.one.
Proof.
  destruct (summary_reads_requested_rates Graders.literalHost describeThrown [1; 3] 3
              [(titleScenario, threeAttempts)]) as (_ & _ & Hrates).
  destruct Hrates as (_ & _ & H5); [discriminate |].
  split; [apply H5; cbn; intros [H | [H | []]]; discriminate H |].
  vm_compute. reflexivity.
Defined.

